(** * bq-sync-fs-multicol: Firestore → BigQuery change-data-capture

    A shallow embedding of the extension's field coercion
    ([functions/src/utils/format-document.ts], [safe-float.ts]), of the
    scheduled consolidation of the tracker table into the main table
    ([syncTrackerToMainTable], [fsUpdatePrimaryTable] in
    [functions/src/index.ts]) and of the backfill loops
    ([backfillCollection], [backfillCollectionGroup]).

    Conventions.
    - Timestamps (ISO-8601 instants in the source) are integers: the number
      of milliseconds since the epoch, so [TIMESTAMP('1970-01-01')] is [0].
    - A nullable SQL column is an [option]; [None] is SQL [NULL].
    - A finite JavaScript number is represented by the rational its double
      denotes; the numbers the code reads from text are rounded to the
      nearest double by [to_double].  [-0] is identified with [0]; [NaN]
      and the two infinities are kept apart.
    - A string is the list of the bytes of its UTF-8 encoding. *)

From Stdlib Require Import ZArith QArith Qround Qabs Qpower String Ascii List Bool Lia.
From stdpp Require Import base decidable option list sorting gmap strings.

Set Warnings "-register-all".

Local Open Scope string_scope.
Local Open Scope list_scope.

(** ** JavaScript values *)

Module Js.

Inductive JsNumber : Type :=
| NaN
| Infinity (negative : bool)
| Finite (q : Q).

(** [JsDate None] is an invalid date; [JsTimestamp] is Firestore's
    [Timestamp]. *)
Inductive JsValue : Type :=
| JsUndefined
| JsNull
| JsBoolean (b : bool)
| JsNum (n : JsNumber)
| JsString (s : string)
| JsArray (elems : list JsValue)
| JsObject (props : list (string * JsValue))
| JsDate (time : option Z)
| JsTimestamp (seconds nanoseconds : Z).

Inductive TypeOf : Type := TUndefined | TObject | TBoolean | TNumber | TString.

#[global] Instance TypeOf_eq_dec : EqDecision TypeOf.
Proof. solve_decision. Defined.

Definition typeof (v : JsValue) : TypeOf :=
  match v with
  | JsUndefined => TUndefined
  | JsBoolean _ => TBoolean
  | JsNum _ => TNumber
  | JsString _ => TString
  | JsNull | JsArray _ | JsObject _ | JsDate _ | JsTimestamp _ _ => TObject
  end.

Definition is_zero (n : JsNumber) : bool :=
  match n with
  | Finite q => Qeq_bool q 0
  | _ => false
  end.

(** [Boolean(v)], i.e. the truthiness that [!v] negates. *)
Definition ToBoolean (v : JsValue) : bool :=
  match v with
  | JsUndefined | JsNull => false
  | JsBoolean b => b
  | JsNum NaN => false
  | JsNum n => negb (is_zero n)
  | JsString s => negb (String.eqb s EmptyString)
  | JsArray _ | JsObject _ | JsDate _ | JsTimestamp _ _ => true
  end.

(** [v !== 0] *)
Definition not_zero (v : JsValue) : bool :=
  match v with
  | JsNum n => negb (is_zero n)
  | _ => true
  end.

(** [v !== false] *)
Definition not_false (v : JsValue) : bool :=
  match v with
  | JsBoolean false => false
  | _ => true
  end.

Definition isArray (v : JsValue) : bool :=
  match v with
  | JsArray _ => true
  | _ => false
  end.

(** [Number.isInteger] *)
Definition isInteger (n : JsNumber) : bool :=
  match n with
  | Finite q => (Qnum q mod Zpos (Qden q) =? 0)%Z
  | _ => false
  end.

(** *** Decimal text of numbers *)

Definition digit_of_ascii (c : ascii) : option N :=
  let n := N_of_ascii c in
  if ((48 <=? n) && (n <=? 57))%N then Some (n - 48)%N else None.

Definition ascii_of_digit (d : N) : ascii := ascii_of_N (48 + d).

(** The longest run of decimal digits at the head of the text. *)
Fixpoint take_digits (s : list ascii) : list N * list ascii :=
  match s with
  | c :: s' =>
      match digit_of_ascii c with
      | Some d => let '(ds, rest) := take_digits s' in (d :: ds, rest)
      | None => ([], s)
      end
  | [] => ([], [])
  end.

Definition digits_value (ds : list N) : N :=
  fold_left (fun a d => (10 * a + d)%N) ds 0%N.

(** The text after one leading white space or line terminator, if there
    is one: TAB, LF, VT, FF, CR, SP, and, in UTF-8, U+00A0, U+1680,
    U+2000 to U+200A, U+2028, U+2029, U+202F, U+205F, U+3000 and U+FEFF. *)
Definition white_space (s : list ascii) : option (list ascii) :=
  match s with
  | c1 :: s1 =>
      let n1 := N_of_ascii c1 in
      if ((n1 =? 32) || ((9 <=? n1) && (n1 <=? 13)))%N then Some s1
      else if (n1 =? 194)%N then
        match s1 with
        | c2 :: s2 => if (N_of_ascii c2 =? 160)%N then Some s2 else None
        | [] => None
        end
      else if ((n1 =? 225) || (n1 =? 226) || (n1 =? 227) || (n1 =? 239))%N then
        match s1 with
        | c2 :: c3 :: s3 =>
            let n2 := N_of_ascii c2 in
            let n3 := N_of_ascii c3 in
            if (((n1 =? 225) && (n2 =? 154) && (n3 =? 128))
                || ((n1 =? 226) && (n2 =? 128)
                    && (((128 <=? n3) && (n3 <=? 138))
                        || (n3 =? 168) || (n3 =? 169) || (n3 =? 175)))
                || ((n1 =? 226) && (n2 =? 129) && (n3 =? 159))
                || ((n1 =? 227) && (n2 =? 128) && (n3 =? 128))
                || ((n1 =? 239) && (n2 =? 187) && (n3 =? 191)))%N
            then Some s3 else None
        | _ => None
        end
      else None
  | [] => None
  end.

Fixpoint trim_start_aux (fuel : nat) (s : list ascii) : list ascii :=
  match fuel with
  | O => s
  | S fuel' =>
      match white_space s with
      | Some rest => trim_start_aux fuel' rest
      | None => s
      end
  end.

(** The text without its leading white space; a white space takes at
    least one byte, so the length of the text is fuel enough. *)
Definition trim_start (s : list ascii) : list ascii :=
  trim_start_aux (length s) s.

(** An optional sign: [true] for a minus. *)
Definition take_sign (s : list ascii) : bool * list ascii :=
  match s with
  | "-"%char :: s' => (true, s')
  | "+"%char :: s' => (false, s')
  | _ => (false, s)
  end.

Fixpoint starts_with (p s : list ascii) : bool :=
  match p, s with
  | [], _ => true
  | a :: p', b :: s' => Ascii.eqb a b && starts_with p' s'
  | _ :: _, [] => false
  end.

(** The exponent part [e[+-]digits], [0] when there is none. *)
Definition take_exponent (s : list ascii) : Z :=
  match s with
  | c :: s' =>
      if (Ascii.eqb c "e" || Ascii.eqb c "E")%bool then
        let '(neg, s'') := take_sign s' in
        let '(ds, _) := take_digits s'' in
        match ds with
        | [] => 0%Z
        | _ => if neg then (- Z.of_N (digits_value ds))%Z
               else Z.of_N (digits_value ds)
        end
      else 0%Z
  | [] => 0%Z
  end.

(** *** Number values *)

(** [a / b] rounded to the nearest integer, a tie to the even one
    ([0 <= a], [0 < b]). *)
Definition round_half_even (a b : Z) : Z :=
  let d := (a / b)%Z in
  match (2 * (a mod b) ?= b)%Z with
  | Lt => d
  | Eq => if Z.even d then d else (d + 1)%Z
  | Gt => (d + 1)%Z
  end.

(** The exponent [e] with [2 ^ e <= a / b < 2 ^ (e + 1)] ([0 < a], [0 < b]). *)
Definition binade (a b : Z) : Z :=
  let e := (Z.log2 a - Z.log2 b)%Z in
  if (a * 2 ^ Z.max 0 (- e) <? b * 2 ^ Z.max 0 e)%Z then (e - 1)%Z else e.

(** The Number value of a real: the IEEE 754 binary64 value nearest to
    [q], a tie to the one with an even significand (53 bits, or fewer
    below [2 ^ -1022], in units of [2 ^ e]); an infinity when the rounded
    value reaches [2 ^ 1024]. *)
Definition to_double (q : Q) : JsNumber :=
  let a := Z.abs (Qnum q) in
  let b := Zpos (Qden q) in
  if (a =? 0)%Z then Finite 0
  else
    let e := Z.max (binade a b - 52) (-1074) in
    let m := round_half_even (a * 2 ^ Z.max 0 (- e)) (b * 2 ^ Z.max 0 e) in
    if (2 ^ 2098 <=? m * 2 ^ (e + 1074))%Z then Infinity (Qnum q <? 0)%Z
    else Finite (inject_Z (if (Qnum q <? 0)%Z then - m else m) * 2 ^ e)%Q.

(** The real denoted by the longest prefix of the trimmed text that is a
    decimal literal; [NaN] when there is none, an infinity for
    [Infinity]. *)
Definition decimal_literal (text : string) : JsNumber :=
  let s := trim_start (list_ascii_of_string text) in
  let '(neg, s) := take_sign s in
  if starts_with (list_ascii_of_string "Infinity") s then Infinity neg
  else
    let '(ip, s1) := take_digits s in
    let '(fp, s2) :=
      match s1 with
      | "."%char :: t => take_digits t
      | _ => ([], s1)
      end in
    match ip, fp with
    | [], [] => NaN
    | _, _ =>
        let m := Z.of_N (digits_value (ip ++ fp)) in
        let e := (take_exponent s2 - Z.of_nat (length fp))%Z in
        Finite (inject_Z (if neg then - m else m) * (10 ^ e))%Q
    end.

(** [parseFloat]: the Number value of the decimal literal at the head of
    the trimmed text. *)
Definition parseFloat (text : string) : JsNumber :=
  match decimal_literal text with
  | Finite q => to_double q
  | n => n
  end.

(** The decimal digits of a natural number, most significant first. *)
Fixpoint digits (fuel : nat) (n : N) : list N :=
  match fuel with
  | O => []
  | S fuel' =>
      if (n <? 10)%N then [n]
      else digits fuel' (n / 10)%N ++ [(n mod 10)%N]
  end.

Definition decimal (n : N) : list ascii :=
  ascii_of_digit <$> digits (S (N.to_nat (N.size n))) n.

(** The integer nearest to [q], for [0 <= q]; of two, the larger. *)
Definition round_half_up (q : Q) : N :=
  Z.to_N (Qfloor (q + (1 # 2))).

(** [x.toFixed(2)] for a finite [x]: sign, integer digits, a point and two
    fraction digits, the digits of the integer nearest to [100 * |x|] (of
    two, the larger).  This is the text for [|x| < 1e21]; from there on
    doubles are integers, for which the code does not call [toFixed]. *)
Definition toFixed2 (q : Q) : string :=
  let neg := Qlt_le_dec q 0 in
  let n := round_half_up (Qabs q * 100) in
  string_of_list_ascii
    ((if neg then ["-"%char] else [])
       ++ decimal (n / 100)%N
       ++ "."%char :: ascii_of_digit ((n mod 100) / 10)%N
                   :: ascii_of_digit (n mod 10)%N :: []).

(** [x.toFixed(2)] *)
Definition toFixed (x : JsNumber) : string :=
  match x with
  | NaN => "NaN"
  | Infinity false => "Infinity"
  | Infinity true => "-Infinity"
  | Finite q => toFixed2 q
  end.

(** Functions of the platform and of the libraries the code calls whose
    results the development does not look into. *)
Class Builtins : Type := {
  (** the text [JSON.stringify] gives for a value other than [undefined] *)
  json_text : JsValue -> string;
  (** json-pointer: [get(v, p)] where [has(v, p)], [None] elsewhere *)
  pointer_get : JsValue -> string -> option JsValue;
  (** the time value of [new Date(text)] *)
  Date_parse : string -> JsNumber;
  (** [toISOString] of a valid time value *)
  iso_string : Z -> string;
  (** the text of a value inside a template literal *)
  ToString : JsValue -> string;
  (** [fetch(url, {method: 'POST', body})] followed by [res.json()];
      [None] when either promise rejects *)
  fetch_json : string -> JsValue -> option JsValue
}.

(** [JSON.stringify(v)] *)
Definition JSON_stringify `{!Builtins} (v : JsValue) : JsValue :=
  match v with
  | JsUndefined => JsUndefined
  | _ => JsString (json_text v)
  end.

(** [[].concat(...vs)] and [vs.flat()]: arrays among [vs] are spliced in,
    one level deep. *)
Definition flat (vs : list JsValue) : list JsValue :=
  concat ((fun v => match v with JsArray l => l | _ => [v] end) <$> vs).

(** [vs.filter(Boolean)] *)
Definition filter_Boolean (vs : list JsValue) : list JsValue :=
  List.filter ToBoolean vs.

End Js.

(** ** Configuration ([types/sync-config.interface.ts]) *)

Module Cfg.

(** [ParsedFieldDefinition]: [method], when present, is the compiled
    transform, a function on values. *)
Record ParsedFieldDefinition : Type := {
  key : string;
  type : string;
  formater : option string;
  accessor : Js.JsValue -> Js.JsValue;
  method : option (Js.JsValue -> Js.JsValue)
}.

(** [RuntimeCollectionConfig], with the members the modelled functions read. *)
Record RuntimeCollectionConfig : Type := {
  id : string;
  collectionGroup : option string;
  datasetId : string;
  tableId : string;
  trackerTableId : string;
  fields : list ParsedFieldDefinition;
  includeParentIdInDocumentId : bool;
  transformUrl : option string
}.

End Cfg.

(** ** The consolidation script of [syncTrackerToMainTable] *)

Module Consolidation.

(** [types/change-type.enum]: the three kinds written by [handleDocumentWrite]. *)
Inductive ChangeType : Type := CREATED | UPDATED | DELETED.

#[global] Instance ChangeType_eq_dec : EqDecision ChangeType.
Proof. solve_decision. Defined.

(** The four BigQuery functions the script applies to ARRAY and JSON
    columns.  They are functions of the warehouse, not of this repository. *)
Class SqlBuiltins (V : Type) : Type := {
  ARRAY_TO_STRING : option V -> option V;
  TO_JSON_STRING : option V -> option V;
  SPLIT : option V -> option V;
  PARSE_JSON : option V -> option V
}.

Section Script.
Context {V : Type} `{!SqlBuiltins V}.

(** A row of the tracker table: [changeType], [timestamp], [documentId]
    and one nullable column per configured field. *)
Record TrackerRow : Type := {
  changeType : ChangeType;
  timestamp : Z;
  documentId : string;
  columns : string -> option V
}.

(** A row of the main table. *)
Record MainRow : Type := {
  i_documentId : string;
  i_columns : string -> option V
}.

(** A row of [CREATE TEMP TABLE tmp]. *)
Record TmpRow : Type := {
  n_documentId : string;
  n_columns : string -> option V;
  createdCount : nat;
  deletedCount : nat
}.

(** [x BETWEEN lo AND hi] *)
Definition BETWEEN (x lo hi : Z) : Prop := (lo <= x)%Z /\ (x <= hi)%Z.

(** [MAX(timestamp)]: [NULL] over no rows. *)
Definition MAX (ts : list Z) : option Z :=
  foldr (fun t acc => Some (match acc with Some m => Z.max t m | None => t end))
        None ts.

(** [SELECT MAX(timestamp) FROM tracker
     WHERE documentId = n.documentId AND changeType = 'CREATED'] *)
Definition max_created (tracker : list TrackerRow) (d : string) : option Z :=
  MAX (timestamp <$>
         filter (fun s => documentId s = d /\ changeType s = CREATED) tracker).

(** [TIMESTAMP('1970-01-01')] *)
Definition epoch : Z := 0%Z.

(** The [WHERE] clause of the [tmp] query (index.ts 182-192). *)
Definition where_clause (tracker : list TrackerRow) (startTime endTime : Z)
    (n : TrackerRow) : Prop :=
  (default epoch (max_created tracker (documentId n)) <= timestamp n)%Z
  /\ BETWEEN (timestamp n) startTime endTime.

#[global] Instance where_clause_dec tracker s e n :
  Decision (where_clause tracker s e n).
Proof. unfold where_clause, BETWEEN. apply _. Defined.

(** [SELECT COUNTIF(changeType = ct) FROM tracker sub
     WHERE sub.documentId = n.documentId
       AND sub.timestamp BETWEEN startTime AND endTime] (index.ts 172-179) *)
Definition COUNTIF (ct : ChangeType) (tracker : list TrackerRow)
    (startTime endTime : Z) (d : string) : nat :=
  length (filter (fun sub => changeType sub = ct)
            (filter (fun sub => documentId sub = d
                                /\ BETWEEN (timestamp sub) startTime endTime)
                    tracker)).

(** [ORDER BY timestamp DESC] *)
Definition timestamp_desc (a b : TrackerRow) : Prop :=
  (timestamp b <= timestamp a)%Z.

#[global] Instance timestamp_desc_dec a b : Decision (timestamp_desc a b).
Proof. unfold timestamp_desc. apply _. Defined.

(** [ARRAY_AGG(expr IGNORE NULLS ORDER BY timestamp DESC)[OFFSET(0)]].
    The warehouse leaves the order of rows with equal timestamps open; the
    sort below fixes one, and no property stated later depends on which. *)
Definition ARRAY_AGG_first (expr : TrackerRow -> option V)
    (group : list TrackerRow) : option V :=
  head (omap expr (merge_sort timestamp_desc group)).

(** The aggregated expression of a field (index.ts 143-149). *)
Definition selection (ty : string) (x : option V) : option V :=
  if decide (ty = "ARRAY") then ARRAY_TO_STRING x
  else if decide (ty = "JSON") then TO_JSON_STRING x
  else x.

(** The expression stored in the main table (index.ts 156-160, 203-207). *)
Definition restored (ty : string) (x : option V) : option V :=
  if decide (ty = "ARRAY") then SPLIT x
  else if decide (ty = "JSON") then PARSE_JSON x
  else x.

(** The field of [config.fields] that produces column [k]. *)
Definition field_of (fields : list Cfg.ParsedFieldDefinition) (k : string)
    : option Cfg.ParsedFieldDefinition :=
  List.find (fun f => bool_decide (Cfg.key f = k)) fields.

(** The rows the [tmp] query reads: the [FROM ... WHERE] part. *)
Definition considered (tracker : list TrackerRow) (startTime endTime : Z)
    : list TrackerRow :=
  filter (where_clause tracker startTime endTime) tracker.

(** One group of [GROUP BY documentId]. *)
Definition group_of (rows : list TrackerRow) (d : string) : list TrackerRow :=
  filter (fun n => documentId n = d) rows.

Definition tmp_row (fields : list Cfg.ParsedFieldDefinition)
    (tracker : list TrackerRow) (startTime endTime : Z) (d : string) : TmpRow :=
  {| n_documentId := d;
     n_columns := fun k =>
       match field_of fields k with
       | Some f =>
           ARRAY_AGG_first (fun n => selection (Cfg.type f) (columns n k))
             (group_of (considered tracker startTime endTime) d)
       | None => None
       end;
     createdCount := COUNTIF CREATED tracker startTime endTime d;
     deletedCount := COUNTIF DELETED tracker startTime endTime d |}.

(** [CREATE TEMP TABLE tmp AS SELECT ... GROUP BY documentId] (index.ts 168-194) *)
Definition create_tmp (fields : list Cfg.ParsedFieldDefinition)
    (tracker : list TrackerRow) (startTime endTime : Z) : list TmpRow :=
  tmp_row fields tracker startTime endTime
    <$> remove_dups (documentId <$> considered tracker startTime endTime).

(** The row [INSERT INTO main SELECT ... FROM tmp] builds from a [tmp] row. *)
Definition inserted_row (fields : list Cfg.ParsedFieldDefinition) (n : TmpRow)
    : MainRow :=
  {| i_documentId := n_documentId n;
     i_columns := fun k =>
       match field_of fields k with
       | Some f => restored (Cfg.type f) (n_columns n k)
       | None => None
       end |}.

(** [WHERE createdCount > deletedCount AND NOT EXISTS (SELECT 1 FROM main i
     WHERE i.documentId = tmp.documentId)] (index.ts 212-218) *)
Definition insert_where (main : list MainRow) (n : TmpRow) : Prop :=
  deletedCount n < createdCount n
  /\ ~ Exists (fun i => i_documentId i = n_documentId n) main.

#[global] Instance insert_where_dec main n : Decision (insert_where main n).
Proof. unfold insert_where. apply _. Defined.

Definition inserted_rows (fields : list Cfg.ParsedFieldDefinition)
    (tmp : list TmpRow) (main : list MainRow) : list MainRow :=
  inserted_row fields <$> filter (insert_where main) tmp.

Definition INSERT (fields : list Cfg.ParsedFieldDefinition)
    (tmp : list TmpRow) (main : list MainRow) : list MainRow :=
  main ++ inserted_rows fields tmp main.

(** [WHERE EXISTS (SELECT * FROM tmp AS n WHERE i.documentId = n.documentId
     AND n.deletedCount > n.createdCount)] (index.ts 220-223) *)
Definition delete_where (tmp : list TmpRow) (i : MainRow) : Prop :=
  Exists (fun n => i_documentId i = n_documentId n
                   /\ createdCount n < deletedCount n) tmp.

#[global] Instance delete_where_dec tmp i : Decision (delete_where tmp i).
Proof. unfold delete_where. apply _. Defined.


Definition DELETE (tmp : list TmpRow) (main : list MainRow) : list MainRow :=
  filter (fun i => ~ delete_where tmp i) main.

(** [SET k = IF(n.k IS NOT NULL, restored(n.k), i.k)] for every field
    (index.ts 152-163). *)
Definition updated_row (fields : list Cfg.ParsedFieldDefinition) (n : TmpRow)
    (i : MainRow) : MainRow :=
  {| i_documentId := i_documentId i;
     i_columns := fun k =>
       match field_of fields k with
       | Some f =>
           match n_columns n k with
           | Some v => restored (Cfg.type f) (Some v)
           | None => i_columns i k
           end
       | None => i_columns i k
       end |}.

(** [UPDATE main i SET ... FROM tmp n WHERE i.documentId = n.documentId]
    (index.ts 225-229); [tmp] has one row per id. *)
Definition UPDATE (fields : list Cfg.ParsedFieldDefinition)
    (tmp : list TmpRow) (main : list MainRow) : list MainRow :=
  (fun i =>
     match List.find (fun n => bool_decide (i_documentId i = n_documentId n)) tmp with
     | Some n => updated_row fields n i
     | None => i
     end) <$> main.

(** The statements between [BEGIN TRANSACTION] and [COMMIT TRANSACTION]. *)
Definition transaction (fields : list Cfg.ParsedFieldDefinition)
    (tracker : list TrackerRow) (startTime endTime : Z) (main : list MainRow)
    : list MainRow :=
  let tmp := create_tmp fields tracker startTime endTime in
  UPDATE fields tmp (DELETE tmp (INSERT fields tmp main)).

(** The ids that got a row in [tmp]. *)
Definition aggregated (tracker : list TrackerRow) (startTime endTime : Z)
    : list string :=
  remove_dups (documentId <$> considered tracker startTime endTime).

End Script.

Arguments TrackerRow V : clear implicits.
Arguments MainRow V : clear implicits.
Arguments TmpRow V : clear implicits.

End Consolidation.

(** ** Field coercion ([utils/format-document.ts], [utils/safe-float.ts]) *)

Module Format.
Import Js.

(** A JavaScript object as its properties, in insertion order.  (An
    object lists the properties whose names are array indices first; the
    properties below tell nothing about the order of such names.) *)
Abbreviation Props := (list (string * JsValue)).

(** [obj.k] *)
Definition get_prop (k : string) (props : Props) : JsValue :=
  match List.find (fun p => String.eqb (fst p) k) props with
  | Some p => snd p
  | None => JsUndefined
  end.

(** [obj[k] = v] *)
Fixpoint set_prop (k : string) (v : JsValue) (props : Props) : Props :=
  match props with
  | [] => [(k, v)]
  | p :: rest =>
      if String.eqb (fst p) k then (k, v) :: rest
      else p :: set_prop k v rest
  end.

(** [safeFloat(value)]; the argument is a number or [null] ([None]). *)
Definition safeFloat (value : option JsNumber) : JsValue :=
  match value with
  | None => JsNull
  | Some n =>
      if negb (ToBoolean (JsNum n)) && not_zero (JsNum n) then JsNull
      else if isInteger n then JsNum n
      else JsNum (parseFloat (toFixed n))
  end.

(** [new Date(v)] keeps a time value only if it is finite and within
    8.64e15 ms of the epoch, truncated to an integer. *)
Definition TimeClip (n : JsNumber) : option Z :=
  match n with
  | Finite q =>
      if Qle_bool (Qabs q) (inject_Z 8640000000000000) then Some (if Qle_bool 0 q then Qfloor q else Qceiling q)
      else None
  | _ => None
  end.

(** [text.split('T')[0]] *)
Fixpoint before_T (s : string) : string :=
  match s with
  | EmptyString => EmptyString
  | String c rest => if Ascii.eqb c "T" then EmptyString else String c (before_T rest)
  end.

Section WithBuiltins.
Context `{!Builtins}.

Definition apply_method (track : Cfg.ParsedFieldDefinition) (value : JsValue)
    : JsValue :=
  match Cfg.method track with
  | Some m => m value
  | None => value
  end.

(** Lines 46-60 and 67-81: the value becomes a number or [null]. *)
Definition to_number (track : Cfg.ParsedFieldDefinition) (value : JsValue)
    : JsValue :=
  let value := apply_method track value in
  let value := match value with
               | JsString s => JsNum (parseFloat s)
               | _ => value
               end in
  let value := if negb (ToBoolean value) && not_zero value then JsNull
               else value in
  if decide (typeof value = TNumber) then value else JsNull.

Definition case_NUMERIC (track : Cfg.ParsedFieldDefinition) (value : JsValue)
    : JsValue :=
  safeFloat (match to_number track value with
             | JsNum n => Some n
             | _ => None
             end).

Definition case_BIGNUMERIC (track : Cfg.ParsedFieldDefinition) (value : JsValue)
    : JsValue :=
  to_number track value.

(** Lines 86-92. *)
Definition normalize_array (value : JsValue) : list JsValue :=
  match value with
  | JsArray l => l
  | _ =>
      if negb (ToBoolean value) && not_false value && not_zero value then []
      else [value]
  end.

(** [if (track.formater)]: a non-empty pointer. *)
Definition formater_set (track : Cfg.ParsedFieldDefinition) : option string :=
  match Cfg.formater track with
  | Some p => if String.eqb p EmptyString then None else Some p
  | None => None
  end.

(** Lines 94-107. *)
Definition format_elements (track : Cfg.ParsedFieldDefinition)
    (value : list JsValue) : list JsValue :=
  match formater_set track with
  | Some p =>
      flat ((fun v =>
               let val :=
                 if decide (typeof v = TObject) then
                   match pointer_get v p with
                   | Some x => x
                   | None => v
                   end
                 else v in
               apply_method track val) <$> value)
  | None => value
  end.

(** Line 108. *)
Definition case_ARRAY (track : Cfg.ParsedFieldDefinition) (value : JsValue)
    : JsValue :=
  let value := format_elements track (normalize_array value) in
  JsArray (flat (filter_Boolean (match Cfg.method track with
                                 | Some m => m <$> value
                                 | None => value
                                 end))).

(** The [try] block of lines 125-137; [None] is the [null] of its last
    branch and of its [catch]. *)
Definition to_iso (value : JsValue) : option string :=
  match value with
  | JsNum n => iso_string <$> TimeClip n
  | JsString s => iso_string <$> TimeClip (Date_parse s)
  | JsDate t => iso_string <$> t
  | JsTimestamp s ns =>
      iso_string
        <$> TimeClip (Finite (inject_Z (s * 1000 + (ns + 500000) / 1000000)))
  | _ => None
  end.

Definition case_TIMESTAMP (track : Cfg.ParsedFieldDefinition) (value : JsValue)
    : JsValue :=
  let value := apply_method track value in
  if ToBoolean value then
    match to_iso value with
    | Some s => JsString s
    | None => JsNull
    end
  else JsNull.

Definition case_DATE (track : Cfg.ParsedFieldDefinition) (value : JsValue)
    : JsValue :=
  let value := apply_method track value in
  if ToBoolean value then
    match to_iso value with
    | Some s => JsString (before_T s)
    | None => JsNull
    end
  else JsNull.

Definition case_BOOL (track : Cfg.ParsedFieldDefinition) (value : JsValue)
    : JsValue :=
  JsBoolean (ToBoolean (apply_method track value)).

Definition case_STRING (track : Cfg.ParsedFieldDefinition) (value : JsValue)
    : JsValue :=
  let value := apply_method track value in
  if decide (typeof value = TString) then value else JsNull.

(** [typeof v === 'string' || typeof v === 'boolean' || typeof v === 'number'] *)
Definition primitive (v : JsValue) : bool :=
  bool_decide (typeof v = TString) || bool_decide (typeof v = TBoolean)
  || bool_decide (typeof v = TNumber).

(** Lines 191-206. *)
Definition case_JSON (track : Cfg.ParsedFieldDefinition) (value : JsValue)
    : JsValue :=
  let value := match Cfg.method track with
               | Some m => m value
               | None => JSON_stringify value
               end in
  if primitive value then JsNull else value.

Definition case_REPEATED (value : JsValue) : JsValue :=
  if primitive value then JsNull else value.

Definition one_of (ty : string) (names : list string) : bool :=
  bool_decide (ty ∈ names).

(** The [switch (track.type)] of [formatDocument], applied to the value
    the accessor returned. *)
Definition formatField (track : Cfg.ParsedFieldDefinition) (value : JsValue)
    : JsValue :=
  let ty := Cfg.type track in
  if one_of ty ["NUMERIC"; "FLOAT64"; "INT64"] then case_NUMERIC track value
  else if one_of ty ["BIGNUMERIC"; "BIGDECIMAL"] then case_BIGNUMERIC track value
  else if one_of ty ["ARRAY"] then case_ARRAY track value
  else if one_of ty ["TIMESTAMP"; "DATETIME"] then case_TIMESTAMP track value
  else if one_of ty ["DATE"] then case_DATE track value
  else if one_of ty ["BOOL"] then case_BOOL track value
  else if one_of ty ["STRING"] then case_STRING track value
  else if one_of ty ["JSON"] then case_JSON track value
  else if one_of ty ["REPEATED"] then case_REPEATED value
  else value.

(** [formatDocument(data, documentId, config)]; [None] when the promise
    rejects, which the modelled part does only through the transform
    request: accessors and methods are total functions here, so a
    rejection because one of them throws is not represented. *)
Definition formatDocument (data : Props) (documentId : string)
    (config : Cfg.RuntimeCollectionConfig) : option Props :=
  let documentId :=
    if Cfg.includeParentIdInDocumentId config
       && ToBoolean (get_prop "parentId" data)
    then (ToString (get_prop "parentId" data) ++ "-" ++ documentId)%string
    else documentId in
  data ← match Cfg.transformUrl config with
          | Some url =>
              if String.eqb url EmptyString then Some (JsObject data)
              else fetch_json url
                     (JsObject (fold_left (fun o p => set_prop (fst p) (snd p) o)
                                  data [("documentId", JsString documentId)]))
          | None => Some (JsObject data)
          end;
  Some (fold_left
          (fun document track =>
             set_prop (Cfg.key track)
               (formatField track (Cfg.accessor track data)) document)
          (Cfg.fields config) [("documentId", JsString documentId)]).

End WithBuiltins.

End Format.

(** ** The scheduled run ([syncTrackerToMainTable], [fsUpdatePrimaryTable]) *)

Module Scheduler.
Import Consolidation.

(** The awaited calls of [syncTrackerToMainTable] that can reject. *)
Inductive Step : Type :=
| GetSettings   (** [settingsRef.get()] *)
| RunQuery      (** [bq.createQueryJob], [job.getQueryResults] *)
| SetSettings.  (** [settingsRef.set] *)

(** What the world outside the function supplies during one call: the three
    readings of [DateTime.now()], in program order (lines 134, 137 and 244),
    and the awaited call that rejects, if one does. *)
Record Outside : Type := {
  now_endTime : Z;
  now_sentinel : Z;
  now_lastRunDate : Z;
  rejects : option Step
}.

Inductive Outcome : Type := Resolved | Rejected.

Inductive LogLine : Type :=
| LogInfo (message : string)
| LogError (message : string).

Section Run.
Context {V : Type} `{!SqlBuiltins V}.

(** [CONFIG.instanceId] *)
Variable instanceId : string.
(** [t.minus({ years: 100 })] *)
Variable minus_100_years : Z -> Z.

(** The [bq-sync] Firestore collection (document id ↦ [lastRunDate]) and
    the BigQuery tables ([dataset.table] ↦ rows). *)
Record World : Type := {
  settings : gmap string Z;
  trackers : gmap string (list (TrackerRow V));
  mains : gmap string (list (MainRow V))
}.

Definition settings_id (config : Cfg.RuntimeCollectionConfig) : string :=
  (instanceId ++ "-" ++ Cfg.id config)%string.

Definition table_name (dataset table : string) : string :=
  (dataset ++ "." ++ table)%string.

(** Lines 134-137: [(startTime, endTime)]. *)
Definition window (lastRunDate : option Z) (o : Outside) : Z * Z :=
  let endTime := now_endTime o in
  let startTime := match lastRunDate with
                   | Some t => t
                   | None => minus_100_years (now_sentinel o)
                   end in
  (startTime, endTime).

(** [syncTrackerToMainTable(bq, fs, config)].  The script is one
    transaction: a query that fails leaves the tables as they were. *)
Definition syncTrackerToMainTable (config : Cfg.RuntimeCollectionConfig)
    (o : Outside) (w : World) : World * Outcome :=
  match rejects o with
  | Some GetSettings => (w, Rejected)
  | r =>
      let lastRunDate := settings w !! settings_id config in
      let '(startTime, endTime) := window lastRunDate o in
      let tracker_table := table_name (Cfg.datasetId config) (Cfg.trackerTableId config) in
      let main_table := table_name (Cfg.datasetId config) (Cfg.tableId config) in
      match r, trackers w !! tracker_table, mains w !! main_table with
      | Some RunQuery, _, _ | _, None, _ | _, _, None => (w, Rejected)
      | _, Some tracker, Some main =>
          let w1 := {| settings := settings w;
                       trackers := trackers w;
                       mains := <[main_table :=
                                    transaction (Cfg.fields config) tracker
                                      startTime endTime main]> (mains w) |} in
          match r with
          | Some SetSettings => (w1, Rejected)
          | _ =>
              ({| settings := <[settings_id config := now_lastRunDate o]> (settings w1);
                  trackers := trackers w1;
                  mains := mains w1 |}, Resolved)
          end
      end
  end.

(** The line logged after a call: [logger.info] in the [try] block,
    [logger.error] in the [catch]. *)
Definition line_of (config : Cfg.RuntimeCollectionConfig) (outcome : Outcome)
    : LogLine :=
  match outcome with
  | Resolved =>
      LogInfo ("Successfully synced " ++ Cfg.id config ++ " to main table")%string
  | Rejected =>
      LogError ("Failed to sync " ++ Cfg.id config ++ " to main table")%string
  end.

(** The handler of [fsUpdatePrimaryTable]: the [for] loop with its
    [try]/[catch], over the configurations paired with what happens
    outside during each call. *)
Fixpoint fsUpdatePrimaryTable
    (runs : list (Cfg.RuntimeCollectionConfig * Outside)) (w : World)
    : World * list LogLine :=
  match runs with
  | [] => (w, [])
  | (config, o) :: rest =>
      let '(w1, outcome) := syncTrackerToMainTable config o w in
      let '(w2, lines) := fsUpdatePrimaryTable rest w1 in
      (w2, line_of config outcome :: lines)
  end.

End Run.

Arguments World V : clear implicits.

End Scheduler.

(** ** Backfill ([backfillCollection], [backfillCollectionGroup]) *)

Module Backfill.
Import Js Format.

(** A [QueryDocumentSnapshot]: [doc.ref.path], [doc.id], [doc.data()] and
    [doc.ref.parent.parent?.id]. *)
Record QueryDocumentSnapshot : Type := {
  doc_path : string;
  doc_id : string;
  doc_data : Props;
  doc_grandparent : option string
}.

(** [query.startAt(ref)]: the documents of the query from [ref] on. *)
Fixpoint startAt (ref : QueryDocumentSnapshot) (col : list QueryDocumentSnapshot)
    : list QueryDocumentSnapshot :=
  match col with
  | [] => []
  | d :: rest =>
      if String.eqb (doc_path d) (doc_path ref) then col else startAt ref rest
  end.

Section Loops.
Context `{!Builtins}.

(** Whether [table.insert(rows)] throws. *)
Variable insert_throws : list Props -> bool.

(** The [do ... while (ref)] loop of [backfillCollection] over the
    documents of [fs.collection(path)]; [ref], [total] and the rows of the
    main table are the loop's state.  [None]: out of fuel.  The rows of a
    page are listed in the order of the query, which is the order in
    which the coercions settle when none of them awaits a transform. *)
Fixpoint backfillCollection_loop (fuel : nat)
    (collection : list QueryDocumentSnapshot) (batchSize : nat)
    (config : Cfg.RuntimeCollectionConfig)
    (ref : option QueryDocumentSnapshot) (total : nat) (main : list Props)
    : option (nat * list Props) :=
  match fuel with
  | O => None
  | S fuel' =>
      let col := match ref with
                 | Some r => startAt r collection
                 | None => collection
                 end in
      let docs := take (batchSize + 1) col in
      let total := total + length docs in
      let rows :=
        omap (fun doc => formatDocument (doc_data doc) (doc_id doc) config)
             (take batchSize docs) in
      match rows with
      | [] => Some (total, main)
      | _ =>
          let ref := docs !! batchSize in
          let main := if insert_throws rows then main else main ++ rows in
          match ref with
          | Some _ =>
              backfillCollection_loop fuel' collection batchSize config ref total main
          | None => Some (total, main)
          end
      end
  end.

Definition backfillCollection (fuel : nat) (fs : string -> list QueryDocumentSnapshot)
    (batchSize : nat) (main : list Props) (config : Cfg.RuntimeCollectionConfig)
    (path : string) : option (nat * list Props) :=
  backfillCollection_loop fuel (fs path) batchSize config None 0 main.

(** The loop of [backfillCollectionGroup]; it differs in setting
    [data.parentId] before coercion. *)
Fixpoint backfillCollectionGroup_loop (fuel : nat)
    (group : list QueryDocumentSnapshot) (batchSize : nat)
    (config : Cfg.RuntimeCollectionConfig)
    (ref : option QueryDocumentSnapshot) (total : nat) (main : list Props)
    : option (nat * list Props) :=
  match fuel with
  | O => None
  | S fuel' =>
      let col := match ref with
                 | Some r => startAt r group
                 | None => group
                 end in
      let docs := take (batchSize + 1) col in
      let total := total + length docs in
      let rows :=
        omap (fun doc =>
                let data :=
                  set_prop "parentId"
                    (match doc_grandparent doc with
                     | Some p => JsString p
                     | None => JsUndefined
                     end) (doc_data doc) in
                formatDocument data (doc_id doc) config)
             (take batchSize docs) in
      match rows with
      | [] => Some (total, main)
      | _ =>
          let ref := docs !! batchSize in
          let main := if insert_throws rows then main else main ++ rows in
          match ref with
          | Some _ =>
              backfillCollectionGroup_loop fuel' group batchSize config ref total main
          | None => Some (total, main)
          end
      end
  end.

Definition backfillCollectionGroup (fuel : nat)
    (fs : string -> list QueryDocumentSnapshot) (batchSize : nat)
    (main : list Props) (config : Cfg.RuntimeCollectionConfig)
    : option (nat * list Props) :=
  backfillCollectionGroup_loop fuel
    (fs (default EmptyString (Cfg.collectionGroup config))) batchSize config None 0 main.

End Loops.

End Backfill.

(** ** Statements used by the properties *)

Module Statements.
Import Js Consolidation.

(** A number with at most two fractional decimal digits: the number a
    numeral of [n] hundredths denotes, that is the double nearest to
    [n / 100]. *)
Definition two_decimals (q : Q) : Prop :=
  exists n : Z, to_double (n # 100) = Finite q.

(** The main-table rows of one document id. *)
Definition rows_of {V : Type} (d : string) (main : list (MainRow V)) : list (MainRow V) :=
  filter (fun r => i_documentId r = d) main.

Definition ids {V : Type} (main : list (MainRow V)) : list string :=
  i_documentId <$> main.

(** Row [i'] is row [i] updated field by field from the [tmp] row [n]: a
    field whose aggregate is not [NULL] takes the aggregate, every other
    column keeps the value it has in [i]. *)
Definition updated_from {V : Type} `{!SqlBuiltins V}
    (fields : list Cfg.ParsedFieldDefinition) (n : TmpRow V) (i i' : MainRow V) : Prop :=
  i_documentId i' = i_documentId i
  /\ forall k,
       i_columns i' k
       = match field_of fields k with
         | Some f =>
             match n_columns n k with
             | Some v => restored (Cfg.type f) (Some v)
             | None => i_columns i k
             end
         | None => i_columns i k
         end.

(** The value of a field as the specification words it: the most recent
    value that is not [NULL] among all entries of the document in the
    window, whether stamped before its latest CREATED entry or after. *)
Definition window_last_write {V : Type} `{!SqlBuiltins V}
    (fields : list Cfg.ParsedFieldDefinition) (tracker : list (TrackerRow V))
    (startTime endTime : Z) (d k : string) : option V :=
  match field_of fields k with
  | Some f =>
      ARRAY_AGG_first (fun n => selection (Cfg.type f) (columns n k))
        (filter (fun n => documentId n = d
                          /\ BETWEEN (timestamp n) startTime endTime) tracker)
  | None => None
  end.

(** An element of a coerced array is a clean scalar: not falsy, not an array. *)
Definition clean_element (x : JsValue) : Prop :=
  ToBoolean x = true /\ isArray x = false.

End Statements.

(** ** Scenarios *)

Module Scenarios.
Import Js Consolidation Scheduler Statements.

(** The scenarios have STRING, NUMERIC, ARRAY and JSON fields without ARRAY
    or JSON columns in the warehouse tables, so the four SQL functions are
    never reached; they are given as the identity. *)
#[export] Instance text_columns : SqlBuiltins string :=
  {| ARRAY_TO_STRING x := x; TO_JSON_STRING x := x; SPLIT x := x; PARSE_JSON x := x |}.

(** A platform whose transform endpoint rejects every document whose
    [broken] property is truthy and echoes the others. *)
#[export] Instance platform : Builtins :=
  {| json_text _ := EmptyString;
     pointer_get _ _ := None;
     Date_parse _ := NaN;
     iso_string _ := EmptyString;
     ToString v := match v with JsString s => s | _ => EmptyString end;
     fetch_json _ body :=
       match body with
       | JsObject props =>
           if ToBoolean (Format.get_prop "broken" props) then None else Some body
       | _ => None
       end |}.

(** A field read from the property of its own name. *)
Definition field (k ty : string) : Cfg.ParsedFieldDefinition :=
  {| Cfg.key := k;
     Cfg.type := ty;
     Cfg.formater := None;
     Cfg.accessor := fun data =>
       match data with
       | JsObject props => Format.get_prop k props
       | _ => JsUndefined
       end;
     Cfg.method := None |}.

Definition cells (l : list (string * string)) (k : string) : option string :=
  snd <$> List.find (fun p => String.eqb (fst p) k) l.

Definition entry (ct : ChangeType) (t : Z) (d : string) (l : list (string * string))
    : TrackerRow string :=
  {| changeType := ct; timestamp := t; documentId := d; columns := cells l |}.

Definition row (d : string) (l : list (string * string)) : MainRow string :=
  {| i_documentId := d; i_columns := cells l |}.

Definition users_fields : list Cfg.ParsedFieldDefinition :=
  [field "email" "STRING"; field "name" "STRING"].

Definition users : Cfg.RuntimeCollectionConfig :=
  {| Cfg.id := "users";
     Cfg.collectionGroup := None;
     Cfg.datasetId := "firestore_sync";
     Cfg.tableId := "users";
     Cfg.trackerTableId := "users_tracker";
     Cfg.fields := users_fields;
     Cfg.includeParentIdInDocumentId := false;
     Cfg.transformUrl := None |}.

(** Scenario 4 of the specification: created, updated and deleted in one window. *)
Definition lifecycle : list (TrackerRow string) :=
  [entry CREATED 1 "x" [("email", "a@b.com")];
   entry UPDATED 2 "x" [("email", "c@d.com")];
   entry DELETED 3 "x" []].

(** Scenario 5: two CREATED entries, then an update that sets one field only. *)
Definition recreated : list (TrackerRow string) :=
  [entry CREATED 1 "x" [("email", "old@b.com"); ("name", "Old")];
   entry CREATED 5 "x" [("name", "New")];
   entry UPDATED 7 "x" [("email", "new@b.com")]].

(** Two CREATED entries and nothing else: the second one has no [email]. *)
Definition reborn : list (TrackerRow string) :=
  [entry CREATED 1 "x" [("email", "old@b.com"); ("name", "Old")];
   entry CREATED 5 "x" [("name", "New")]].

(** A deletion of a document that has a row. *)
Definition removal : list (TrackerRow string) := [entry DELETED 5 "x" []].

(** An update of a document that has a row. *)
Definition change : list (TrackerRow string) :=
  [entry UPDATED 5 "x" [("email", "new@b.com")]].

Definition existing : list (MainRow string) :=
  [row "x" [("email", "a@b.com"); ("name", "Ann")]].

(** An entry stamped exactly at the end of the window. *)
Definition boundary : list (TrackerRow string) :=
  [entry CREATED 10 "x" [("email", "a@b.com")]].

(** Erases the columns of the entries stamped before [t]. *)
Definition forget_before (t : Z) (n : TrackerRow string) : TrackerRow string :=
  {| changeType := changeType n; timestamp := timestamp n;
     documentId := documentId n;
     columns := if decide (timestamp n < t)%Z then fun _ => None else columns n |}.

Definition world (checkpoint : option Z) (tracker : list (TrackerRow string))
    (main : list (MainRow string)) : World string :=
  {| settings := match checkpoint with
                 | Some t => {[ "inst-users" := t ]}
                 | None => ∅
                 end;
     trackers := {[ "firestore_sync.users_tracker" := tracker ]};
     mains := {[ "firestore_sync.users" := main ]} |}.

(** A hundred calendar years before an instant of 1970, as the scenarios
    need it: 36524 days of milliseconds. *)
Definition century (t : Z) : Z := (t - 3155673600000)%Z.

(** A run whose clock reads 100 when the window is computed and 105 when
    the checkpoint is written, and a later run. *)
Definition first_run : Outside :=
  {| now_endTime := 100; now_sentinel := 100; now_lastRunDate := 105; rejects := None |}.

Definition second_run : Outside :=
  {| now_endTime := 200; now_sentinel := 200; now_lastRunDate := 205; rejects := None |}.

(** A run whose window ends at 10, the stamp of the entry of [boundary]. *)
Definition boundary_run : Outside :=
  {| now_endTime := 10; now_sentinel := 10; now_lastRunDate := 12; rejects := None |}.

(** A document written while the first run's query was executing. *)
Definition written_meanwhile : list (TrackerRow string) :=
  [entry CREATED 103 "x" [("email", "a@b.com")]].

Definition amount : Cfg.ParsedFieldDefinition := field "amount" "NUMERIC".
Definition tags : Cfg.ParsedFieldDefinition := field "tags" "ARRAY".
Definition payload : Cfg.ParsedFieldDefinition := field "payload" "JSON".

Definition num (z : Z) : JsValue := JsNum (Finite (inject_Z z)).

(** [[[0, ["a"]]]] *)
Definition nested : JsValue :=
  JsArray [JsArray [num 0; JsArray [JsString "a"]]].

(** [{a: 1}] *)
Definition composite : JsValue := JsObject [("a", num 1)].

(** A collection of three documents; the transform of the second fails. *)
Definition transformed : Cfg.RuntimeCollectionConfig :=
  {| Cfg.id := "users";
     Cfg.collectionGroup := Some "users";
     Cfg.datasetId := "firestore_sync";
     Cfg.tableId := "users";
     Cfg.trackerTableId := "users_tracker";
     Cfg.fields := [field "email" "STRING"];
     Cfg.includeParentIdInDocumentId := false;
     Cfg.transformUrl := Some "https://example.com/transform" |}.

Definition snapshot (name : string) (props : Format.Props)
    : Backfill.QueryDocumentSnapshot :=
  {| Backfill.doc_path := ("users/" ++ name)%string;
     Backfill.doc_id := name;
     Backfill.doc_data := props;
     Backfill.doc_grandparent := None |}.

Definition three_documents : list Backfill.QueryDocumentSnapshot :=
  [snapshot "a" [("email", JsString "a@b.com")];
   snapshot "b" [("email", JsString "b@b.com"); ("broken", JsBoolean true)];
   snapshot "c" [("email", JsString "c@b.com")]].

Definition firestore (path : string) : list Backfill.QueryDocumentSnapshot :=
  if String.eqb path "users" then three_documents else [].

End Scenarios.


(** ** Change events ([handleDocumentWrite]) and table setup
       ([initializeCollection]) *)

Module Handler.
Import Js Format.

(** The members of [RuntimeCollectionConfig] that [Cfg.RuntimeCollectionConfig]
    leaves out and that [handleDocumentWrite] and [initializeCollection] read. *)
Record CollectionConfig : Type := {
  runtime : Cfg.RuntimeCollectionConfig;
  collectionPaths : list string;
  backfill : bool
}.

(** [text.split(sep)] for a one-character separator. *)
Fixpoint split (sep : ascii) (text : string) : list string :=
  match text with
  | EmptyString => [EmptyString]
  | String c rest =>
      if Ascii.eqb c sep then EmptyString :: split sep rest
      else match split sep rest with
           | part :: parts => String c part :: parts
           | [] => [String c EmptyString]
           end
  end.

(** A character of the class [\w]. *)
Definition is_word (c : ascii) : bool :=
  let n := N_of_ascii c in
  (((48 <=? n) && (n <=? 57)) || ((65 <=? n) && (n <=? 90))
   || ((97 <=? n) && (n <=? 122)) || (n =? 95))%N.

(** Whether the text starts with [\w+\}] ([seen]: a word character has
    been read already). *)
Fixpoint word_then_brace (seen : bool) (text : string) : bool :=
  match text with
  | EmptyString => false
  | String c rest =>
      if is_word c then word_then_brace true rest
      else seen && Ascii.eqb c "}"
  end.

(** [text.match(/\{(\w+)\}/)] is not [null]. *)
Fixpoint has_wildcard (text : string) : bool :=
  match text with
  | EmptyString => false
  | String c rest =>
      (Ascii.eqb c "{" && word_then_brace false rest) || has_wildcard rest
  end.

(** [p.startsWith("{")] *)
Definition startsWith_brace (p : string) : bool :=
  match p with
  | String c _ => Ascii.eqb c "{"
  | EmptyString => false
  end.

(** [text.includes("{")] *)
Fixpoint includes_brace (text : string) : bool :=
  match text with
  | EmptyString => false
  | String c rest => Ascii.eqb c "{" || includes_brace rest
  end.

(** [parts.findIndex(p)]; [None] is [-1]. *)
Fixpoint findIndex {A : Type} (p : A -> bool) (parts : list A) : option nat :=
  match parts with
  | [] => None
  | x :: rest => if p x then Some 0 else S <$> findIndex p rest
  end.

(** The loop of lines 56-66: the path segment at the position of the
    wildcard of the first configured path that has one and for which that
    segment exists and is not empty. *)
Fixpoint parentId_of (configPaths : list string) (pathParts : list string)
    : option string :=
  match configPaths with
  | [] => None
  | configPath :: rest =>
      if has_wildcard configPath then
        match findIndex startsWith_brace (split "/" configPath) with
        | Some wildcardIndex =>
            match pathParts !! wildcardIndex with
            | Some part =>
                if String.eqb part EmptyString then parentId_of rest pathParts
                else Some part
            | None => parentId_of rest pathParts
            end
        | None => parentId_of rest pathParts
        end
      else parentId_of rest pathParts
  end.

(** A document snapshot of the change: [exists], [id], [data()]. *)
Record DocumentSnapshot : Type := {
  doc_exists : bool;
  snapshot_id : string;
  snapshot_data : option Props
}.

Record Change : Type := {
  before : DocumentSnapshot;
  after : DocumentSnapshot
}.

(** Lines 37-49; [None] is the early [return]. *)
Definition changeType_of (change : Change) : option Consolidation.ChangeType :=
  match doc_exists (before change), doc_exists (after change) with
  | false, true => Some Consolidation.CREATED
  | true, true => Some Consolidation.UPDATED
  | true, false => Some Consolidation.DELETED
  | false, false => None
  end.

(** The values of the [ChangeType] enum, as the consolidation script
    compares them. *)
Definition changeType_text (ct : Consolidation.ChangeType) : string :=
  match ct with
  | Consolidation.CREATED => "CREATED"
  | Consolidation.UPDATED => "UPDATED"
  | Consolidation.DELETED => "DELETED"
  end.

(** [{...base, ...over}] *)
Definition spread (base over : Props) : Props :=
  fold_left (fun o p => set_prop (fst p) (snd p) o) over base.

(** What a call of [handleDocumentWrite] came to. *)
Inductive Handled : Type :=
| NoMatchingConfig           (** [logger.warn], nothing written *)
| NoChange                   (** neither snapshot exists *)
| Recorded (row : Props)     (** the row inserted into the tracker table *)
| Caught.                    (** an exception, logged by the [catch] *)

Section Handle.
Context `{!Builtins}.

(** [findMatchingConfig(fullPath, collectionConfigs)] of [./config]. *)
Variable findMatchingConfig : string -> option CollectionConfig.

(** The [documentId] of the row of a deletion (lines 92-95). *)
Definition deleted_documentId (config : CollectionConfig) (parentId : option string)
    (docId : string) : string :=
  match parentId with
  | Some p =>
      if Cfg.includeParentIdInDocumentId (runtime config)
      then (p ++ "-" ++ docId)%string
      else docId
  | None => docId
  end.

(** [handleDocumentWrite(change, ctx, fullPath)] over the tracker tables
    ([dataset.table] ↦ rows).  [now] is the reading of [new Date()] and
    [insert_throws] says whether [table.insert] throws for a reason of its
    own; it always does for a table that does not exist. *)
Definition handleDocumentWrite (now : Z) (insert_throws : bool)
    (change : Change) (fullPath : string) (tables : gmap string (list Props))
    : gmap string (list Props) * Handled :=
  match findMatchingConfig fullPath with
  | None => (tables, NoMatchingConfig)
  | Some config =>
      match changeType_of change with
      | None => (tables, NoChange)
      | Some changeType =>
          let pathParts := split "/" fullPath in
          let parentId := parentId_of (collectionPaths config) pathParts in
          let docId := if doc_exists (after change) then snapshot_id (after change)
                       else snapshot_id (before change) in
          let data :=
            match changeType with
            | Consolidation.DELETED => Some []
            | _ =>
                formatDocument
                  (spread (default [] (snapshot_data (after change)))
                     match parentId with
                     | Some p => [("parentId", JsString p)]
                     | None => []
                     end)
                  docId (runtime config)
            end in
          match data with
          | None => (tables, Caught)
          | Some data =>
              let row :=
                spread [("changeType", JsString (changeType_text changeType));
                        ("timestamp", JsString (iso_string now))]
                  match changeType with
                  | Consolidation.DELETED =>
                      [("documentId",
                        JsString (deleted_documentId config parentId docId))]
                  | _ => data
                  end in
              let table := Scheduler.table_name (Cfg.datasetId (runtime config))
                             (Cfg.trackerTableId (runtime config)) in
              match tables !! table with
              | Some rows =>
                  if insert_throws then (tables, Caught)
                  else (<[table := rows ++ [row]]> tables, Recorded row)
              | None => (tables, Caught)
              end
          end
      end
  end.

End Handle.

End Handler.


Module Init.
Import Js Format Handler.

(** A column of a table schema: [name], [type], [mode]. *)
Record Column : Type := {
  name : string;
  type : string;
  mode : string
}.

(** Lines 291-295: ARRAY and JSON fields are STRING columns of the tracker. *)
Definition trackerFields (config : Cfg.RuntimeCollectionConfig) : list Column :=
  (fun f =>
     {| name := Cfg.key f;
        type := if (String.eqb (Cfg.type f) "ARRAY" || String.eqb (Cfg.type f) "JSON")%bool
                then "STRING" else Cfg.type f;
        mode := if String.eqb (Cfg.type f) "ARRAY" then "REPEATED" else "NULLABLE" |})
    <$> Cfg.fields config.

(** Lines 298-302. *)
Definition mainFields (config : Cfg.RuntimeCollectionConfig) : list Column :=
  (fun f =>
     {| name := Cfg.key f;
        type := if String.eqb (Cfg.type f) "ARRAY" then "STRING" else Cfg.type f;
        mode := if String.eqb (Cfg.type f) "ARRAY" then "REPEATED" else "NULLABLE" |})
    <$> Cfg.fields config.

(** Lines 312-317. *)
Definition tracker_schema (config : Cfg.RuntimeCollectionConfig) : list Column :=
  {| name := "changeType"; type := "STRING"; mode := "REQUIRED" |}
    :: {| name := "timestamp"; type := "TIMESTAMP"; mode := "REQUIRED" |}
    :: {| name := "documentId"; type := "STRING"; mode := "REQUIRED" |}
    :: trackerFields config.

(** Lines 329-332. *)
Definition main_schema (config : Cfg.RuntimeCollectionConfig) : list Column :=
  {| name := "documentId"; type := "STRING"; mode := "REQUIRED" |}
    :: mainFields config.

(** The column names of the select list of the script's [INSERT]
    (index.ts 197-210). *)
Definition insert_select_list (config : Cfg.RuntimeCollectionConfig) : list string :=
  "documentId" :: (Cfg.key <$> Cfg.fields config).

(** A table of the warehouse: its schema and its rows. *)
Record Table : Type := {
  schema : list Column;
  rows : list Props
}.

(** The warehouse: the tables by [dataset.table]. *)
Abbreviation Warehouse := (gmap string Table).

(** [dataset.createTable(id, {schema})] inside its [try]: a table that
    exists is left alone (error 409, not logged), another failure
    ([fails]) is logged; neither is thrown on. *)
Definition createTable (fails : bool) (table : string) (columns : list Column)
    (wh : Warehouse) : Warehouse :=
  match wh !! table with
  | Some _ => wh
  | None =>
      if fails then wh
      else <[table := {| schema := columns; rows := [] |}]> wh
  end.

Section Initialize.
Context `{!Builtins}.

(** Whether [table.insert(rows)] throws for a reason of its own; it always
    does for a table that does not exist. *)
Variable insert_throws : list Props -> bool.
(** Whether [createTable] fails with an error other than 409. *)
Variable create_fails : string -> bool.

(** The rows of the main table after the [for] loop of lines 349-353 over
    the configured paths; [None]: out of fuel. *)
Fixpoint backfill_paths (fuel : nat)
    (fs : string -> list Backfill.QueryDocumentSnapshot) (batchSize : nat)
    (throws : list Props -> bool) (config : Cfg.RuntimeCollectionConfig)
    (paths : list string) (main : list Props) : option (list Props) :=
  match paths with
  | [] => Some main
  | path :: rest =>
      if includes_brace path then
        backfill_paths fuel fs batchSize throws config rest main
      else
        match Backfill.backfillCollection throws fuel fs batchSize main config path with
        | Some (_, main') =>
            backfill_paths fuel fs batchSize throws config rest main'
        | None => None
        end
  end.

(** [initializeCollection(bq, fs, config)], with the query of
    [fs.collection] and [fs.collectionGroup] given by [fs]; [None]: out of
    fuel.  The dataset is not represented. *)
Definition initializeCollection (fuel : nat)
    (fs : string -> list Backfill.QueryDocumentSnapshot)
    (config : CollectionConfig) (wh : Warehouse) : option Warehouse :=
  let c := runtime config in
  let tracker_table := Scheduler.table_name (Cfg.datasetId c) (Cfg.trackerTableId c) in
  let main_table := Scheduler.table_name (Cfg.datasetId c) (Cfg.tableId c) in
  let wh := createTable (create_fails tracker_table) tracker_table (tracker_schema c) wh in
  let wh := createTable (create_fails main_table) main_table (main_schema c) wh in
  if backfill config then
    let batchSize := 500 in
    let throws := match wh !! main_table with
                  | Some _ => insert_throws
                  | None => fun _ => true
                  end in
    let main := default [] (rows <$> wh !! main_table) in
    main' ← match Cfg.collectionGroup c with
             | Some g =>
                 if String.eqb g EmptyString
                 then backfill_paths fuel fs batchSize throws c (collectionPaths config) main
                 else snd <$> Backfill.backfillCollectionGroup throws fuel fs batchSize main c
             | None =>
                 backfill_paths fuel fs batchSize throws c (collectionPaths config) main
             end;
    Some (match wh !! main_table with
          | Some table => <[main_table := {| schema := schema table; rows := main' |}]> wh
          | None => wh
          end)
  else Some wh.

End Initialize.

End Init.

(** ** Configuration files ([scripts/generate-config.ts]) *)

Module Generator.

(** [FieldDefinition] of [types/sync-config.interface.ts]. *)
Record FieldDefinition : Type := {
  name : string;
  type : string;
  accessor : option string;
  formater : option string;
  method : option string;
  arrayType : option string
}.

(** [RawCollectionConfig], as parsed from a file: any member may be absent. *)
Record RawCollectionConfig : Type := {
  raw_id : option string;
  raw_collectionPaths : option (list string);
  raw_collectionGroup : option string;
  raw_datasetId : option string;
  raw_tableId : option string;
  raw_datasetLocation : option string;
  raw_backfill : option bool;
  raw_includeParentIdInDocumentId : option bool;
  raw_transformUrl : option string;
  raw_schedule : option string;
  raw_timeZone : option string;
  raw_fields : option (list FieldDefinition)
}.

(** [CollectionSyncConfig] *)
Record CollectionSyncConfig : Type := {
  id : string;
  collectionPaths : list string;
  collectionGroup : option string;
  datasetId : string;
  tableId : string;
  datasetLocation : string;
  fields : list FieldDefinition;
  backfill : bool;
  includeParentIdInDocumentId : bool;
  transformUrl : option string;
  schedule : string;
  timeZone : string
}.

(** [s || dflt] for an optional string. *)
Definition or_else (s : option string) (dflt : string) : string :=
  match s with
  | Some v => if String.eqb v EmptyString then dflt else v
  | None => dflt
  end.

(** [!s] for an optional string. *)
Definition missing (s : option string) : bool :=
  match s with
  | Some v => String.eqb v EmptyString
  | None => true
  end.

(** [!l || !l.length] *)
Definition empty {A : Type} (l : option (list A)) : bool :=
  match l with
  | Some (_ :: _) => false
  | _ => true
  end.

(** [f.endsWith(suffix)] *)
Definition endsWith (suffix f : string) : bool :=
  let n := String.length f in
  let m := String.length suffix in
  (m <=? n)%nat && String.eqb (String.substring (n - m) m f) suffix.

(** The body of the [for] loop of [loadCollectionConfigs] for one file:
    the configuration pushed, or [None] when the file is skipped
    ([content]: what [JSON.parse(fs.readFileSync(...))] returns, [None] when
    it throws). *)
Definition load_file (content : option RawCollectionConfig)
    : option CollectionSyncConfig :=
  match content with
  | None => None
  | Some rawConfig =>
      if missing (raw_id rawConfig) then None
      else if empty (raw_collectionPaths rawConfig) then None
      else if missing (raw_tableId rawConfig) then None
      else if empty (raw_fields rawConfig) then None
      else
        Some {| id := default EmptyString (raw_id rawConfig);
                collectionPaths := default [] (raw_collectionPaths rawConfig);
                collectionGroup := raw_collectionGroup rawConfig;
                datasetId := or_else (raw_datasetId rawConfig) "firestore_sync";
                tableId := default EmptyString (raw_tableId rawConfig);
                datasetLocation := or_else (raw_datasetLocation rawConfig) "eu";
                backfill := match raw_backfill rawConfig with
                            | Some false => false
                            | _ => true
                            end;
                includeParentIdInDocumentId :=
                  default false (raw_includeParentIdInDocumentId rawConfig);
                transformUrl := raw_transformUrl rawConfig;
                schedule := or_else (raw_schedule rawConfig) "0 0 * * *";
                timeZone := or_else (raw_timeZone rawConfig) "UTC";
                fields := default [] (raw_fields rawConfig) |}
  end.

(** [loadCollectionConfigs()] over the entries of the collections
    directory ([None]: the directory does not exist), each with what
    reading and parsing it gives. *)
Definition loadCollectionConfigs
    (directory : option (list (string * option RawCollectionConfig)))
    : list CollectionSyncConfig :=
  match directory with
  | None => []
  | Some entries =>
      omap (fun entry => load_file (snd entry))
        (List.filter (fun entry => endsWith ".json" (fst entry)) entries)
  end.

(** A loaded configuration read as the content of a file again. *)
Definition as_raw (config : CollectionSyncConfig) : RawCollectionConfig :=
  {| raw_id := Some (id config);
     raw_collectionPaths := Some (collectionPaths config);
     raw_collectionGroup := collectionGroup config;
     raw_datasetId := Some (datasetId config);
     raw_tableId := Some (tableId config);
     raw_datasetLocation := Some (datasetLocation config);
     raw_backfill := Some (backfill config);
     raw_includeParentIdInDocumentId := Some (includeParentIdInDocumentId config);
     raw_transformUrl := transformUrl config;
     raw_schedule := Some (schedule config);
     raw_timeZone := Some (timeZone config);
     raw_fields := Some (fields config) |}.

(** [generateFieldMap(config)]: the fields as [name|type|accessor|formater|method],
    joined by commas. *)
Definition field_parts (field : FieldDefinition) : list string :=
  [name field]
    ++ [if (String.eqb (type field) "ARRAY" && negb (missing (arrayType field)))%bool
        then (type field ++ "_" ++ default EmptyString (arrayType field))%string
        else type field]
    ++ (if negb (missing (accessor field)) then [default EmptyString (accessor field)]
        else if (negb (missing (formater field)) || negb (missing (method field)))%bool
             then [EmptyString] else [])
    ++ (if negb (missing (formater field)) then [default EmptyString (formater field)]
        else if negb (missing (method field)) then [EmptyString] else [])
    ++ (if negb (missing (method field)) then [default EmptyString (method field)]
        else []).

Definition generateFieldMap (config : CollectionSyncConfig) : string :=
  String.concat "," (String.concat "|" <$> (field_parts <$> fields config)).

End Generator.

(** ** The common shape of the two backfill loops *)

Module BackfillShape.
Import Js Format Backfill.

(** The [do ... while (ref)] loop with the coercion of a document left
    open; [backfillCollection_loop] and [backfillCollectionGroup_loop] are
    its two instances. *)
Fixpoint loop (coerce : QueryDocumentSnapshot -> option Props)
    (insert_throws : list Props -> bool) (fuel : nat)
    (docs : list QueryDocumentSnapshot) (batchSize : nat)
    (ref : option QueryDocumentSnapshot) (total : nat) (main : list Props)
    : option (nat * list Props) :=
  match fuel with
  | O => None
  | S fuel' =>
      let col := match ref with
                 | Some r => startAt r docs
                 | None => docs
                 end in
      let page := take (batchSize + 1) col in
      let total := total + length page in
      let rows := omap coerce (take batchSize page) in
      match rows with
      | [] => Some (total, main)
      | _ =>
          let ref := page !! batchSize in
          let main := if insert_throws rows then main else main ++ rows in
          match ref with
          | Some _ => loop coerce insert_throws fuel' docs batchSize ref total main
          | None => Some (total, main)
          end
      end
  end.

(** The coercion of [backfillCollection]. *)
Definition coerce_document `{!Builtins} (config : Cfg.RuntimeCollectionConfig)
    (doc : QueryDocumentSnapshot) : option Props :=
  formatDocument (doc_data doc) (doc_id doc) config.

(** The coercion of [backfillCollectionGroup]. *)
Definition coerce_group_document `{!Builtins} (config : Cfg.RuntimeCollectionConfig)
    (doc : QueryDocumentSnapshot) : option Props :=
  formatDocument
    (set_prop "parentId"
       (match doc_grandparent doc with
        | Some p => JsString p
        | None => JsUndefined
        end) (doc_data doc))
    (doc_id doc) config.

End BackfillShape.


(** ** Statements used by the further properties *)

Module Laws.
Import Js Format Consolidation.

(** Two rows of the main table with the same id and the same columns. *)
Definition same_row {V : Type} (i i' : MainRow V) : Prop :=
  i_documentId i = i_documentId i' /\ forall k, i_columns i k = i_columns i' k.

(** No two entries the run reads for one document carry the same
    timestamp: [ORDER BY timestamp DESC] leaves no order open. *)
Definition no_ties {V : Type} (tracker : list (TrackerRow V)) (startTime endTime : Z)
    : Prop :=
  NoDup ((fun n => (documentId n, timestamp n))
           <$> considered tracker startTime endTime).

(** The [documentId] that [formatDocument] emits (lines 17-23). *)
Definition emitted_documentId `{!Builtins} (data : Props) (documentId : string)
    (config : Cfg.RuntimeCollectionConfig) : string :=
  if Cfg.includeParentIdInDocumentId config && ToBoolean (get_prop "parentId" data)
  then (ToString (get_prop "parentId" data) ++ "-" ++ documentId)%string
  else documentId.

(** The document the fields are read from: the input, or what the
    transform endpoint returns for it (lines 25-35); [None] when the
    request fails. *)
Definition working_document `{!Builtins} (data : Props) (documentId : string)
    (config : Cfg.RuntimeCollectionConfig) : option JsValue :=
  match Cfg.transformUrl config with
  | Some url =>
      if String.eqb url EmptyString then Some (JsObject data)
      else fetch_json url
             (JsObject (fold_left (fun o p => set_prop (fst p) (snd p) o)
                          data [("documentId", JsString documentId)]))
  | None => Some (JsObject data)
  end.

(** A value is a string or [null]. *)
Definition string_or_null (v : JsValue) : Prop :=
  v = JsNull \/ exists s, v = JsString s.

End Laws.

(** ** Further scenarios *)

Module Cases.
Import Js Consolidation Scheduler Statements Scenarios Handler.

(** A main table with the rows of two documents. *)
Definition two_rows : list (MainRow string) :=
  [row "x" [("email", "a@b.com"); ("name", "Ann")];
   row "y" [("email", "y@b.com")]].

(** A document deleted in the window and created again after its end. *)
Definition recreated_later : list (TrackerRow string) :=
  [entry CREATED 1 "x" [("email", "a@b.com")];
   entry DELETED 3 "x" [];
   entry CREATED 20 "x" [("email", "b@b.com")]].

(** A second configuration, whose tables do not exist. *)
Definition orders : Cfg.RuntimeCollectionConfig :=
  {| Cfg.id := "orders";
     Cfg.collectionGroup := None;
     Cfg.datasetId := "firestore_sync";
     Cfg.tableId := "orders";
     Cfg.trackerTableId := "orders_tracker";
     Cfg.fields := [field "total" "NUMERIC"];
     Cfg.includeParentIdInDocumentId := false;
     Cfg.transformUrl := None |}.

(** A run whose query is rejected. *)
Definition failing_run : Outside :=
  {| now_endTime := 90; now_sentinel := 90; now_lastRunDate := 95;
     rejects := Some RunQuery |}.

(** The posts of a user, a subcollection whose rows carry the user's id. *)
Definition posts : Cfg.RuntimeCollectionConfig :=
  {| Cfg.id := "posts";
     Cfg.collectionGroup := None;
     Cfg.datasetId := "firestore_sync";
     Cfg.tableId := "posts";
     Cfg.trackerTableId := "posts_tracker";
     Cfg.fields := [field "title" "STRING"];
     Cfg.includeParentIdInDocumentId := true;
     Cfg.transformUrl := None |}.

Definition posts_collection : CollectionConfig :=
  {| runtime := posts;
     collectionPaths := ["users/{userId}/posts"];
     backfill := true |}.

(** A top-level collection whose documents have a [parentId] member. *)
Definition notes : Cfg.RuntimeCollectionConfig :=
  {| Cfg.id := "notes";
     Cfg.collectionGroup := None;
     Cfg.datasetId := "firestore_sync";
     Cfg.tableId := "notes";
     Cfg.trackerTableId := "notes_tracker";
     Cfg.fields := [field "title" "STRING"];
     Cfg.includeParentIdInDocumentId := true;
     Cfg.transformUrl := None |}.

Definition notes_collection : CollectionConfig :=
  {| runtime := notes; collectionPaths := ["notes"]; backfill := true |}.

Definition users_collection : CollectionConfig :=
  {| runtime := transformed; collectionPaths := ["users"]; backfill := true |}.

(** The configuration of a document path. *)
Definition route (fullPath : string) : option CollectionConfig :=
  match split "/" fullPath with
  | ["users"; _; "posts"; _] => Some posts_collection
  | ["notes"; _] => Some notes_collection
  | ["users"; _] => Some users_collection
  | _ => None
  end.

Definition absent (i : string) : DocumentSnapshot :=
  {| doc_exists := false; snapshot_id := i; snapshot_data := None |}.

Definition present (i : string) (data : Format.Props) : DocumentSnapshot :=
  {| doc_exists := true; snapshot_id := i; snapshot_data := Some data |}.

Definition creation (i : string) (data : Format.Props) : Change :=
  {| before := absent i; after := present i data |}.

Definition deletion (i : string) (data : Format.Props) : Change :=
  {| before := present i data; after := absent i |}.

Definition hello : Format.Props := [("title", JsString "Hello")].

(** A note that names a parent of its own. *)
Definition reply : Format.Props :=
  [("title", JsString "Re"); ("parentId", JsString "n0")].

(** The tracker tables of the three configurations, empty. *)
Definition tracker_tables : gmap string (list Format.Props) :=
  {[ "firestore_sync.posts_tracker" := [];
     "firestore_sync.notes_tracker" := [];
     "firestore_sync.users_tracker" := [] ]}.

(** The rows the handler writes for the post [p1] of the user [u1]. *)
Definition post_created : Format.Props :=
  [("changeType", JsString "CREATED"); ("timestamp", JsString EmptyString);
   ("documentId", JsString "u1-p1"); ("title", JsString "Hello")].

Definition post_deleted : Format.Props :=
  [("changeType", JsString "DELETED"); ("timestamp", JsString EmptyString);
   ("documentId", JsString "u1-p1")].

(** The rows the handler writes for the note [n1]. *)
Definition note_created : Format.Props :=
  [("changeType", JsString "CREATED"); ("timestamp", JsString EmptyString);
   ("documentId", JsString "n0-n1"); ("title", JsString "Re")].

Definition note_deleted : Format.Props :=
  [("changeType", JsString "DELETED"); ("timestamp", JsString EmptyString);
   ("documentId", JsString "n1")].

(** The post [p1] as the query of the collection group returns it. *)
Definition post_document : Backfill.QueryDocumentSnapshot :=
  {| Backfill.doc_path := "users/u1/posts/p1";
     Backfill.doc_id := "p1";
     Backfill.doc_data := hello;
     Backfill.doc_grandparent := Some "u1" |}.

(** A collection of five documents, all of which can be coerced. *)
Definition five_documents : list Backfill.QueryDocumentSnapshot :=
  (fun name => snapshot name [("email", JsString (name ++ "@b.com"))])
    <$> ["a"; "b"; "c"; "d"; "e"].

Definition archive (path : string) : list Backfill.QueryDocumentSnapshot :=
  if String.eqb path "users" then five_documents else [].



(** The files of a collections directory: a complete one, one without
    fields, one that cannot be parsed, and one that is not a JSON file. *)
Definition title_field : Generator.FieldDefinition :=
  {| Generator.name := "title"; Generator.type := "STRING";
     Generator.accessor := None; Generator.formater := None;
     Generator.method := Some "(v) => v.trim()"; Generator.arrayType := None |}.

Definition posts_file : Generator.RawCollectionConfig :=
  {| Generator.raw_id := Some "posts";
     Generator.raw_collectionPaths := Some ["users/{userId}/posts"];
     Generator.raw_collectionGroup := Some "posts";
     Generator.raw_datasetId := None;
     Generator.raw_tableId := Some "posts";
     Generator.raw_datasetLocation := Some EmptyString;
     Generator.raw_backfill := None;
     Generator.raw_includeParentIdInDocumentId := Some true;
     Generator.raw_transformUrl := None;
     Generator.raw_schedule := None;
     Generator.raw_timeZone := Some "Europe/Zagreb";
     Generator.raw_fields := Some [title_field] |}.

Definition no_fields_file : Generator.RawCollectionConfig :=
  {| Generator.raw_id := Some "empty";
     Generator.raw_collectionPaths := Some ["empty"];
     Generator.raw_collectionGroup := None;
     Generator.raw_datasetId := None;
     Generator.raw_tableId := Some "empty";
     Generator.raw_datasetLocation := None;
     Generator.raw_backfill := None;
     Generator.raw_includeParentIdInDocumentId := None;
     Generator.raw_transformUrl := None;
     Generator.raw_schedule := None;
     Generator.raw_timeZone := None;
     Generator.raw_fields := Some [] |}.

Definition directory : list (string * option Generator.RawCollectionConfig) :=
  [("empty.json", Some no_fields_file);
   ("broken.json", None);
   ("README.md", Some posts_file);
   ("posts.json", Some posts_file)].

Definition posts_loaded : Generator.CollectionSyncConfig :=
  {| Generator.id := "posts";
     Generator.collectionPaths := ["users/{userId}/posts"];
     Generator.collectionGroup := Some "posts";
     Generator.datasetId := "firestore_sync";
     Generator.tableId := "posts";
     Generator.datasetLocation := "eu";
     Generator.fields := [title_field];
     Generator.backfill := true;
     Generator.includeParentIdInDocumentId := true;
     Generator.transformUrl := None;
     Generator.schedule := "0 0 * * *";
     Generator.timeZone := "Europe/Zagreb" |}.

End Cases.

(** * Properties *)

(** ** Consolidation *)

Module ConsolidationFacts.
Import Consolidation Statements.

Section Facts.
Context {V : Type} `{!SqlBuiltins V}.
Implicit Types (tracker : list (TrackerRow V)) (main : list (MainRow V)).
Implicit Types (fields : list Cfg.ParsedFieldDefinition) (d k : string).

Lemma find_fmap_key {A} (idx : A -> string) (mk : string -> A) (l : list string) d :
  (forall x, idx (mk x) = x) ->
  List.find (fun n => bool_decide (d = idx n)) (mk <$> l)
  = if decide (d ∈ l) then Some (mk d) else None.
Proof.
  intros Hk. induction l as [|x l IH].
  - simpl. destruct (decide (d ∈ [])) as [Hin|]; [by apply not_elem_of_nil in Hin|done].
  - rewrite fmap_cons. cbn [List.find]. rewrite Hk. destruct (decide (d = x)) as [->|Hne].
    + rewrite bool_decide_eq_true_2 by done.
      rewrite decide_True by apply list_elem_of_here. done.
    + rewrite bool_decide_eq_false_2 by done. rewrite IH.
      destruct (decide (d ∈ l)) as [Hin|Hnin].
      * rewrite decide_True by (by apply list_elem_of_further). done.
      * rewrite decide_False; [done|]. rewrite elem_of_cons. tauto.
Qed.

Lemma tmp_ids fields tracker s e :
  n_documentId <$> create_tmp fields tracker s e = aggregated tracker s e.
Proof.
  unfold create_tmp, aggregated. rewrite <- list_fmap_compose.
  apply list_fmap_id.
Qed.

Lemma elem_of_create_tmp fields tracker s e n :
  n ∈ create_tmp fields tracker s e
  <-> exists d, n = tmp_row fields tracker s e d /\ d ∈ aggregated tracker s e.
Proof. unfold create_tmp, aggregated. apply list_elem_of_fmap. Qed.

Lemma find_tmp fields tracker s e d :
  List.find (fun n => bool_decide (d = n_documentId n)) (create_tmp fields tracker s e)
  = if decide (d ∈ aggregated tracker s e)
    then Some (tmp_row fields tracker s e d) else None.
Proof. unfold create_tmp, aggregated. by apply (find_fmap_key n_documentId). Qed.

Lemma inserted_id fields tracker s e main d :
  d ∈ (i_documentId <$> inserted_rows fields (create_tmp fields tracker s e) main)
  <-> d ∈ aggregated tracker s e
      /\ COUNTIF DELETED tracker s e d < COUNTIF CREATED tracker s e d
      /\ d ∉ (i_documentId <$> main).
Proof.
  unfold inserted_rows. rewrite <- list_fmap_compose, list_elem_of_fmap.
  split.
  - intros (n & -> & Hn). apply list_elem_of_filter in Hn as [[Hlt Hex] Hn].
    apply elem_of_create_tmp in Hn as (d & -> & Hd). simpl in *.
    repeat split; try done.
    intros Hin. apply Hex, Exists_exists.
    apply list_elem_of_fmap in Hin as (i & -> & Hi). eauto.
  - intros (Hd & Hlt & Hnin). exists (tmp_row fields tracker s e d).
    split; [done|]. apply list_elem_of_filter. split.
    + split; [done|]. simpl. intros Hex. apply Exists_exists in Hex as (i & Hi & <-).
      apply Hnin. by apply list_elem_of_fmap_2.
    + apply elem_of_create_tmp. eauto.
Qed.

Lemma delete_where_iff fields tracker s e (i : MainRow V) :
  delete_where (create_tmp fields tracker s e) i
  <-> i_documentId i ∈ aggregated tracker s e
      /\ COUNTIF CREATED tracker s e (i_documentId i)
         < COUNTIF DELETED tracker s e (i_documentId i).
Proof.
  unfold delete_where. rewrite Exists_exists. split.
  - intros (n & Hn & Hid & Hlt).
    apply elem_of_create_tmp in Hn as (d & -> & Hd). simpl in *. by subst d.
  - intros [Hd Hlt]. exists (tmp_row fields tracker s e (i_documentId i)).
    split; [apply elem_of_create_tmp; eauto|done].
Qed.

Lemma UPDATE_ids fields (tmp : list (TmpRow V)) main :
  i_documentId <$> UPDATE fields tmp main = i_documentId <$> main.
Proof.
  unfold UPDATE. rewrite <- list_fmap_compose. apply list_fmap_ext.
  intros _ i _. simpl. by destruct (List.find _ tmp).
Qed.

Lemma INSERT_ids fields (tmp : list (TmpRow V)) main :
  i_documentId <$> INSERT fields tmp main
  = (i_documentId <$> main) ++ (i_documentId <$> inserted_rows fields tmp main).
Proof. unfold INSERT. apply fmap_app. Qed.

Lemma transaction_id fields tracker s e main d :
  d ∈ (i_documentId <$> transaction fields tracker s e main)
  <-> (d ∈ (i_documentId <$> main)
       \/ d ∈ (i_documentId <$> inserted_rows fields (create_tmp fields tracker s e) main))
      /\ ~ (d ∈ aggregated tracker s e
            /\ COUNTIF CREATED tracker s e d < COUNTIF DELETED tracker s e d).
Proof.
  unfold transaction. rewrite UPDATE_ids. unfold DELETE.
  rewrite list_elem_of_fmap. split.
  - intros (i & -> & Hi). apply list_elem_of_filter in Hi as [Hnd Hi].
    rewrite delete_where_iff in Hnd. split; [|done].
    apply elem_of_app. rewrite <- fmap_app. by apply list_elem_of_fmap_2.
  - intros [Hin Hnd]. rewrite <- elem_of_app, <- fmap_app in Hin.
    apply list_elem_of_fmap in Hin as (i & -> & Hi). exists i. split; [done|].
    apply list_elem_of_filter. split; [|done]. by rewrite delete_where_iff.
Qed.


(** *** Rows of one id through the three statements *)

Lemma filter_id_fmap (g : MainRow V -> MainRow V) (l : list (MainRow V)) d :
  (forall i, i_documentId (g i) = i_documentId i) ->
  filter (fun r => i_documentId r = d) (g <$> l)
  = g <$> filter (fun r => i_documentId r = d) l.
Proof.
  intros Hg. induction l as [|i l IH]; [done|].
  rewrite fmap_cons, !filter_cons, Hg.
  destruct (decide (i_documentId i = d)); by rewrite IH.
Qed.

Lemma rows_of_inserted fields tracker s e main d :
  filter (fun r => i_documentId r = d)
    (inserted_rows fields (create_tmp fields tracker s e) main)
  = if decide (d ∈ aggregated tracker s e
               /\ insert_where main (tmp_row fields tracker s e d))
    then [inserted_row fields (tmp_row fields tracker s e d)] else [].
Proof.
  unfold inserted_rows, create_tmp, aggregated.
  set (l := remove_dups _). assert (NoDup l) as Hnd by apply NoDup_remove_dups.
  clearbody l. induction Hnd as [|x l Hx Hnd IH].
  - destruct (decide _) as [[Hin _]|]; [by apply not_elem_of_nil in Hin|done].
  - rewrite fmap_cons, filter_cons.
    destruct (decide (insert_where main (tmp_row fields tracker s e x))) as [HP|HP].
    + rewrite fmap_cons, filter_cons. simpl i_documentId.
      destruct (decide (x = d)) as [->|Hne].
      * rewrite IH, (decide_False (P := d ∈ l /\ _)) by tauto.
        rewrite decide_True; [done|]. split; [apply list_elem_of_here|done].
      * rewrite IH. apply decide_ext. rewrite elem_of_cons. intuition congruence.
    + rewrite IH. apply decide_ext. rewrite elem_of_cons. intuition congruence.
Qed.

Lemma rows_of_DELETE fields tracker s e (l : list (MainRow V)) d :
  filter (fun r => i_documentId r = d) (DELETE (create_tmp fields tracker s e) l)
  = if decide (d ∈ aggregated tracker s e
               /\ COUNTIF CREATED tracker s e d < COUNTIF DELETED tracker s e d)
    then [] else filter (fun r => i_documentId r = d) l.
Proof.
  unfold DELETE. induction l as [|i l IH].
  - by destruct (decide _).
  - rewrite !filter_cons.
    destruct (decide (i_documentId i = d)) as [<-|Hne].
    + destruct (decide (~ delete_where _ i)) as [Hk|Hk];
        rewrite delete_where_iff in Hk.
      * rewrite filter_cons, decide_True by done. rewrite IH.
        rewrite !decide_False by done. done.
      * rewrite IH. apply dec_stable in Hk. by rewrite !decide_True by done.
    + destruct (decide (~ delete_where _ i)); [|done].
      by rewrite filter_cons, decide_False by done.
Qed.

Lemma rows_of_UPDATE fields tracker s e (l : list (MainRow V)) d :
  d ∈ aggregated tracker s e ->
  filter (fun r => i_documentId r = d) (UPDATE fields (create_tmp fields tracker s e) l)
  = updated_row fields (tmp_row fields tracker s e d)
      <$> filter (fun r => i_documentId r = d) l.
Proof.
  intros Hd. unfold UPDATE. rewrite filter_id_fmap.
  - apply list_fmap_ext. intros j i Hi.
    apply list_elem_of_lookup_2, list_elem_of_filter in Hi as [<- _].
    rewrite find_tmp. by rewrite decide_True.
  - intros i. by destruct (List.find _ _).
Qed.

(** The rows of an aggregated id after the transaction. *)
Lemma rows_of_transaction fields tracker s e main d :
  d ∈ aggregated tracker s e ->
  let n := tmp_row fields tracker s e d in
  filter (fun r => i_documentId r = d) (transaction fields tracker s e main)
  = if decide (createdCount n < deletedCount n) then []
    else updated_row fields n
           <$> (filter (fun r => i_documentId r = d) main
                  ++ if decide (insert_where main n) then [inserted_row fields n]
                     else []).
Proof.
  intros Hd n. unfold transaction. rewrite rows_of_UPDATE by done.
  rewrite rows_of_DELETE.
  change (createdCount n) with (COUNTIF CREATED tracker s e d).
  change (deletedCount n) with (COUNTIF DELETED tracker s e d).
  destruct (decide (COUNTIF CREATED tracker s e d < COUNTIF DELETED tracker s e d))
    as [Hlt|Hge].
  - by rewrite decide_True.
  - rewrite decide_False by tauto.
    unfold INSERT. rewrite filter_app, rows_of_inserted. fold n.
    f_equal. f_equal. apply decide_ext. tauto.
Qed.


(** *** [ARRAY_AGG ... ORDER BY timestamp DESC] *)

#[local] Instance timestamp_desc_total : Total (@timestamp_desc V).
Proof. intros a b. unfold timestamp_desc. lia. Qed.

#[local] Instance timestamp_desc_trans : Transitive (@timestamp_desc V).
Proof. intros a b c. unfold timestamp_desc. lia. Qed.

Lemma head_omap_Some {A B} (f : A -> option B) (l : list A) v :
  head (omap f l) = Some v ->
  exists l1 m l2, l = l1 ++ m :: l2 /\ Forall (fun x => f x = None) l1 /\ f m = Some v.
Proof.
  induction l as [|a l IH]; [done|]. cbn [omap list_omap].
  destruct (f a) as [b|] eqn:Ha.
  - intros [= <-]. exists [], a, l. auto.
  - intros Hh. destruct (IH Hh) as (l1 & m & l2 & -> & Hl1 & Hm).
    exists (a :: l1), m, l2. auto.
Qed.

Lemma head_omap_None {A B} (f : A -> option B) (l : list A) :
  head (omap f l) = None -> Forall (fun x => f x = None) l.
Proof.
  induction l as [|a l IH]; [constructor|]. cbn [omap list_omap].
  destruct (f a) as [b|] eqn:Ha; [done|]. auto.
Qed.

Lemma ARRAY_AGG_first_Some (expr : TrackerRow V -> option V) group v :
  ARRAY_AGG_first expr group = Some v ->
  exists m, m ∈ group /\ expr m = Some v
            /\ forall m', m' ∈ group -> (timestamp m < timestamp m')%Z -> expr m' = None.
Proof.
  unfold ARRAY_AGG_first. intros Hh.
  destruct (head_omap_Some _ _ _ Hh) as (l1 & m & l2 & Hl & Hl1 & Hm).
  assert (Hperm : merge_sort timestamp_desc group ≡ₚ group)
    by apply merge_sort_Permutation.
  assert (Hs : StronglySorted timestamp_desc (merge_sort timestamp_desc group))
    by apply (StronglySorted_merge_sort _).
  rewrite Hl in Hperm, Hs. exists m. split; [|split; [done|]].
  - rewrite <- Hperm. apply elem_of_app. right. apply list_elem_of_here.
  - intros m' Hin Hlt. rewrite <- Hperm in Hin.
    apply elem_of_app in Hin as [Hin|Hin].
    + rewrite Forall_forall in Hl1. auto.
    + apply elem_of_cons in Hin as [->|Hin]; [lia|].
      apply StronglySorted_app_1_r in Hs. apply StronglySorted_inv in Hs as [_ Hall].
      rewrite Forall_forall in Hall. specialize (Hall _ Hin).
      unfold timestamp_desc in Hall. lia.
Qed.

Lemma ARRAY_AGG_first_None (expr : TrackerRow V -> option V) group :
  ARRAY_AGG_first expr group = None -> forall m, m ∈ group -> expr m = None.
Proof.
  unfold ARRAY_AGG_first. intros Hh m Hm.
  apply head_omap_None in Hh. rewrite Forall_forall in Hh. apply Hh.
  by rewrite merge_sort_Permutation.
Qed.

(** *** [MAX(timestamp)] of the CREATED entries *)

Lemma MAX_None ts : MAX ts = None <-> ts = [].
Proof. destruct ts; simpl; split; congruence. Qed.

Lemma MAX_Some ts m :
  MAX ts = Some m -> m ∈ ts /\ forall t, t ∈ ts -> (t <= m)%Z.
Proof.
  revert m. induction ts as [|t ts IH]; [done|]. simpl. intros m [= <-].
  destruct (MAX ts) as [m'|] eqn:Hm.
  - destruct (IH _ eq_refl) as [Hin Hle]. split.
    + destruct (Z.max_spec t m') as [[_ ->]|[_ ->]];
        [by apply list_elem_of_further | apply list_elem_of_here].
    + intros t' [->|Ht']%elem_of_cons; [lia|]. specialize (Hle _ Ht'). lia.
  - apply MAX_None in Hm as ->. split; [apply list_elem_of_here|].
    intros t' [->|Ht']%elem_of_cons; [lia|]. by apply not_elem_of_nil in Ht'.
Qed.

Lemma max_created_spec tracker d :
  match max_created tracker d with
  | Some t =>
      (exists c, c ∈ tracker /\ documentId c = d /\ changeType c = CREATED
                 /\ timestamp c = t)
      /\ forall c, c ∈ tracker -> documentId c = d -> changeType c = CREATED ->
                   (timestamp c <= t)%Z
  | None =>
      forall c, c ∈ tracker -> documentId c = d -> changeType c <> CREATED
  end.
Proof.
  unfold max_created. destruct (MAX _) as [t|] eqn:Hm.
  - apply MAX_Some in Hm as [Hin Hle]. split.
    + apply list_elem_of_fmap in Hin as (c & -> & Hc).
      apply list_elem_of_filter in Hc as [[? ?] ?]. eauto.
    + intros c Hc Hd Hct. apply Hle, list_elem_of_fmap_2, list_elem_of_filter. auto.
  - apply MAX_None, fmap_nil_inv in Hm. intros c Hc Hd Hct.
    assert (c ∈ filter (fun s => documentId s = d /\ changeType s = CREATED) tracker)
      as Hin by (apply list_elem_of_filter; auto).
    rewrite Hm in Hin. by apply not_elem_of_nil in Hin.
Qed.

(** *** Rewriting rows without touching their keys *)

Lemma filter_fmap_iff {A} (P Q : A -> Prop) `{!forall x, Decision (P x)}
    `{!forall x, Decision (Q x)} (g : A -> A) (l : list A) :
  (forall x, P (g x) <-> Q x) -> filter P (g <$> l) = g <$> filter Q l.
Proof.
  intros HPQ. induction l as [|x l IH]; [done|].
  rewrite fmap_cons, !filter_cons.
  destruct (decide (P (g x))) as [HP|HP], (decide (Q x)) as [HQ|HQ];
    rewrite ?fmap_cons, IH; try done; exfalso; apply HPQ in HP || apply HPQ in HQ; done.
Qed.

Section merge_fmap.
Context {A : Type} (R : relation A) `{!forall x y, Decision (R x y)}.
Context (g : A -> A) (HR : forall x y, R (g x) (g y) <-> R x y).

Lemma list_merge_fmap (l1 l2 : list A) :
  list_merge R (g <$> l1) (g <$> l2) = g <$> list_merge R l1 l2.
Proof.
  revert l2. induction l1 as [|x1 l1 IH1]; intros l2.
  - by rewrite fmap_nil, !list_merge_nil_l.
  - induction l2 as [|x2 l2 IH2].
    + by rewrite fmap_nil, !list_merge_nil_r.
    + rewrite !fmap_cons, !list_merge_cons.
      destruct (decide (R (g x1) (g x2))) as [H1|H1],
               (decide (R x1 x2)) as [H2|H2].
      * rewrite fmap_cons. f_equal. rewrite <- IH1. by rewrite fmap_cons.
      * exfalso. apply H2, HR, H1.
      * exfalso. apply H1, HR, H2.
      * rewrite fmap_cons. f_equal. rewrite <- IH2. by rewrite fmap_cons.
Qed.

Local Abbreviation gstack :=
  (fmap (M:=list) (fmap (M:=option) (fmap (M:=list) g))).

Lemma merge_list_to_stack_fmap (st : list (option (list A))) (l : list A) :
  merge_list_to_stack R (gstack st) (g <$> l)
  = gstack (merge_list_to_stack R st l).
Proof.
  revert l. induction st as [|[l'|] st IH]; intros l; [done| |done].
  cbn [merge_list_to_stack fmap list_fmap option_fmap option_map].
  f_equal. rewrite <- IH. f_equal. apply list_merge_fmap.
Qed.

Lemma merge_stack_fmap (st : list (option (list A))) :
  merge_stack R (gstack st) = g <$> merge_stack R st.
Proof.
  induction st as [|[l'|] st IH]; [done| |done].
  cbn [merge_stack fmap list_fmap option_fmap option_map].
  rewrite <- list_merge_fmap. f_equal. apply IH.
Qed.

Lemma merge_sort_aux_fmap (st : list (option (list A))) (l : list A) :
  merge_sort_aux R (gstack st) (g <$> l)
  = g <$> merge_sort_aux R st l.
Proof.
  revert st. induction l as [|x l IH]; intros st.
  - apply merge_stack_fmap.
  - rewrite fmap_cons. cbn [merge_sort_aux]. rewrite <- IH. f_equal.
    apply (merge_list_to_stack_fmap st [x]).
Qed.

Lemma merge_sort_fmap (l : list A) : merge_sort R (g <$> l) = g <$> merge_sort R l.
Proof. apply (merge_sort_aux_fmap [] l). Qed.
End merge_fmap.




Lemma rows_of_absent main d : d ∉ ids main -> rows_of d main = [].
Proof.
  intros Hd. unfold rows_of. induction main as [|i main IH]; [done|].
  rewrite filter_cons. unfold ids in Hd. rewrite fmap_cons, not_elem_of_cons in Hd.
  destruct Hd as [Hne Hd]. rewrite decide_False by congruence. auto.
Qed.

(** C2, as the code has it.  The entries considered for an id are those
    of the window stamped at or after its latest CREATED entry, not all
    entries of the window.  Every field of the aggregate is
    resolved on its own: its value is the aggregated expression of one of
    these entries, and every one of them with a later timestamp has [NULL]
    there ([NULL] when all of them have).  In particular, an id without a
    row, with two CREATED and no DELETED entry in the window, gets exactly
    one row, which carries the aggregated value of every field. *)
Theorem per_field_last_write_wins fields tracker s e d :
  d ∈ aggregated tracker s e ->
  let n := tmp_row fields tracker s e d in
  let group := group_of (considered tracker s e) d in
  (forall m, m ∈ group
             <-> m ∈ tracker /\ documentId m = d
                 /\ (s <= timestamp m <= e)%Z
                 /\ (default epoch (max_created tracker d) <= timestamp m)%Z)
  /\ (forall k f, field_of fields k = Some f ->
     let value m := selection (Cfg.type f) (columns m k) in
     match n_columns n k with
     | Some v =>
         exists m, m ∈ group /\ value m = Some v
           /\ forall m', m' ∈ group -> (timestamp m < timestamp m')%Z ->
                         value m' = None
     | None => forall m, m ∈ group -> value m = None
     end)
  /\ (forall main,
        createdCount n = 2 -> deletedCount n = 0 -> d ∉ ids main ->
        exists r, rows_of d (transaction fields tracker s e main) = [r]
          /\ forall k f, field_of fields k = Some f ->
                i_columns r k = restored (Cfg.type f) (n_columns n k)).
Proof.
  intros Hd n group. split; [|split].
  - intros m. unfold group, group_of, considered.
    rewrite !list_elem_of_filter. unfold where_clause, BETWEEN.
    split; [intros (<- & ? & ?)|intros (? & <- & ? & ?)]; tauto.
  - intros k f Hf value. simpl. rewrite Hf. fold group.
    destruct (ARRAY_AGG_first _ group) as [v|] eqn:Hagg.
    + by apply ARRAY_AGG_first_Some in Hagg.
    + intros m Hm. by apply (ARRAY_AGG_first_None _ _ Hagg).
  - intros main Hc Hdel Hnew.
    exists (updated_row fields n (inserted_row fields n)). split.
    + unfold rows_of at 1. rewrite rows_of_transaction by done. fold n.
      rewrite decide_False by lia.
      fold (rows_of d main). rewrite rows_of_absent by done.
      rewrite decide_True; [done|]. split; [lia|].
      intros Hex. apply Exists_exists in Hex as (i & Hi & Hid).
      apply Hnew. simpl in Hid. apply list_elem_of_fmap. eauto.
    + intros k f Hf. cbn [i_columns updated_row inserted_row]. rewrite Hf.
      by destruct (n_columns n k).
Qed.

(** C3, as the code has it.  For an aggregated id with a row whose
    [deletedCount] does not exceed its [createdCount], the rows of the id
    after the transaction are its rows before, each updated field by
    field: the aggregate where it is not [NULL], the old value elsewhere. *)
Theorem existing_row_updated_unless_deleted fields tracker s e main d :
  d ∈ aggregated tracker s e ->
  d ∈ ids main ->
  let n := tmp_row fields tracker s e d in
  deletedCount n <= createdCount n ->
  Forall2 (updated_from fields n)
    (rows_of d main) (rows_of d (transaction fields tracker s e main)).
Proof.
  intros Hd Hin n Hle. unfold rows_of at 2.
  rewrite rows_of_transaction by done. fold n.
  rewrite decide_False by lia.
  rewrite (decide_False (P := insert_where main n)).
  - rewrite app_nil_r. apply Forall2_fmap_r, Forall_Forall2_diag, Forall_forall.
    intros i _. by split.
  - intros [_ Hex]. apply Hex, Exists_exists.
    apply list_elem_of_fmap in Hin as (i & -> & Hi). eauto.
Qed.

(** *** Entries before the latest CREATED *)

Section rewrite_rows.
Context (g : TrackerRow V -> TrackerRow V).
Context (Hkeys : forall n, changeType (g n) = changeType n
                           /\ timestamp (g n) = timestamp n
                           /\ documentId (g n) = documentId n).

Lemma max_created_fmap tracker d :
  max_created (g <$> tracker) d = max_created tracker d.
Proof.
  unfold max_created. f_equal.
  rewrite (filter_fmap_iff _
             (fun s => documentId s = d /\ changeType s = CREATED)).
  - rewrite <- list_fmap_compose. apply list_fmap_ext. intros j n _. simpl.
    apply Hkeys.
  - intros n. destruct (Hkeys n) as (-> & _ & ->). done.
Qed.

Lemma considered_fmap tracker s e :
  considered (g <$> tracker) s e = g <$> considered tracker s e.
Proof.
  unfold considered. apply filter_fmap_iff. intros n.
  unfold where_clause. rewrite max_created_fmap.
  destruct (Hkeys n) as (_ & -> & ->). done.
Qed.

Lemma aggregated_fmap tracker s e :
  aggregated (g <$> tracker) s e = aggregated tracker s e.
Proof.
  unfold aggregated. rewrite considered_fmap. f_equal.
  rewrite <- list_fmap_compose. apply list_fmap_ext. intros j n _. simpl.
  apply Hkeys.
Qed.

Lemma group_of_fmap (rows : list (TrackerRow V)) d :
  group_of (g <$> rows) d = g <$> group_of rows d.
Proof.
  unfold group_of. apply filter_fmap_iff. intros n.
  destruct (Hkeys n) as (_ & _ & ->). done.
Qed.

Lemma COUNTIF_fmap ct tracker s e d :
  COUNTIF ct (g <$> tracker) s e d = COUNTIF ct tracker s e d.
Proof.
  unfold COUNTIF.
  rewrite (filter_fmap_iff _
             (fun sub => documentId sub = d /\ BETWEEN (timestamp sub) s e)).
  - rewrite (filter_fmap_iff _ (fun sub => changeType sub = ct)).
    + apply length_fmap.
    + intros n. destruct (Hkeys n) as (-> & _ & _). done.
  - intros n. destruct (Hkeys n) as (_ & -> & ->). done.
Qed.
End rewrite_rows.

(** C9.  The rows the aggregation reads are stamped at or after the
    latest CREATED entry of their document over the whole log (the epoch
    when it has none), and nothing recorded before it reaches [tmp]:
    rewriting the columns of the earlier entries in any way leaves the
    aggregated ids, their counts and every aggregated column unchanged. *)
Theorem aggregation_ignores_entries_before_latest_created
    fields tracker s e (g : TrackerRow V -> TrackerRow V) :
  (forall n, changeType (g n) = changeType n /\ timestamp (g n) = timestamp n
             /\ documentId (g n) = documentId n) ->
  (forall n, n ∈ tracker ->
     (default epoch (max_created tracker (documentId n)) <= timestamp n)%Z ->
     forall k, columns (g n) k = columns n k) ->
  (forall n, n ∈ considered tracker s e ->
     (default epoch (max_created tracker (documentId n)) <= timestamp n)%Z)
  /\ (forall d,
        match max_created tracker d with
        | Some t =>
            (exists c, c ∈ tracker /\ documentId c = d /\ changeType c = CREATED
                       /\ timestamp c = t)
            /\ forall c, c ∈ tracker -> documentId c = d ->
                  changeType c = CREATED -> (timestamp c <= t)%Z
        | None =>
            forall c, c ∈ tracker -> documentId c = d -> changeType c <> CREATED
        end)
  /\ aggregated (g <$> tracker) s e = aggregated tracker s e
  /\ forall d,
       createdCount (tmp_row fields (g <$> tracker) s e d)
       = createdCount (tmp_row fields tracker s e d)
       /\ deletedCount (tmp_row fields (g <$> tracker) s e d)
          = deletedCount (tmp_row fields tracker s e d)
       /\ forall k, n_columns (tmp_row fields (g <$> tracker) s e d) k
                    = n_columns (tmp_row fields tracker s e d) k.
Proof.
  intros Hkeys Hlate. split; [|split; [|split]].
  - intros n Hn. apply list_elem_of_filter in Hn as [[Hn _] _]. done.
  - intros d. apply max_created_spec.
  - by apply aggregated_fmap.
  - intros d. cbn [createdCount deletedCount n_columns tmp_row].
    rewrite !COUNTIF_fmap by done. split; [done|]. split; [done|].
    intros k. destruct (field_of fields k) as [f|]; [|done].
    rewrite considered_fmap, group_of_fmap by done.
    unfold ARRAY_AGG_first.
    rewrite (merge_sort_fmap timestamp_desc g).
    + f_equal. apply list_omap_ext, Forall2_fmap_l, Forall_Forall2_diag, Forall_forall.
      intros n Hn. rewrite merge_sort_Permutation in Hn.
      apply list_elem_of_filter in Hn as [_ Hn].
      apply list_elem_of_filter in Hn as [[Hn _] Hin].
      unfold compose. by rewrite Hlate.
    + intros x y. unfold timestamp_desc.
      destruct (Hkeys x) as (_ & -> & _), (Hkeys y) as (_ & -> & _). done.
Qed.

End Facts.
End ConsolidationFacts.

Module ConsolidationScenarios.
Import Consolidation Statements Scenarios ConsolidationFacts.



Lemma recreated_aggregated : "x" ∈ aggregated recreated 0 10.
Proof. apply (bool_decide_unpack _). vm_compute. exact I. Defined.

(** C2, counterexample: with two CREATED entries in the window and no row
    before, the most recent [email] of the window that is not [NULL] is
    the one of the first entry, but the row inserted has no [email]: the
    first entry is stamped before the latest CREATED entry and is not
    read. *)
Lemma earlier_incarnation_is_not_read :
  createdCount (tmp_row users_fields reborn 0 10 "x") = 2
  /\ deletedCount (tmp_row users_fields reborn 0 10 "x") = 0
  /\ ("x" ∉ ids ([] : list (MainRow string)))
  /\ window_last_write users_fields reborn 0 10 "x" "email" = Some "old@b.com"
  /\ exists r, rows_of "x" (transaction users_fields reborn 0 10 []) = [r]
               /\ i_columns r "email" = None
               /\ i_columns r "name" = Some "New".
Proof.
  split; [reflexivity|]. split; [reflexivity|]. split; [apply not_elem_of_nil|].
  split; [reflexivity|]. eexists. split; [reflexivity|]. split; reflexivity.
Qed.

Lemma reborn_aggregated : "x" ∈ aggregated reborn 0 10.
Proof. apply (bool_decide_unpack _). vm_compute. exact I. Defined.

(** Scenario 5, and the log of the counterexample by the rule the code
    follows.  In [recreated] the two fields of the one row come from two
    different entries; in [reborn] the fields are resolved over the
    entries from the second CREATED entry on, and [email], which only the
    first entry has, is [NULL]. *)
Lemma later_incarnation_gets_one_row :
  (exists r, rows_of "x" (transaction users_fields recreated 0 10 []) = [r]
             /\ i_columns r "email" = Some "new@b.com"
             /\ i_columns r "name" = Some "New")
  /\ (exists r, rows_of "x" (transaction users_fields reborn 0 10 []) = [r]
                /\ i_columns r "email" = None
                /\ i_columns r "name" = Some "New").
Proof.
  split.
  - destruct (per_field_last_write_wins users_fields recreated 0 10 "x"
                recreated_aggregated) as (_ & _ & Hone).
    destruct (Hone [] eq_refl eq_refl (not_elem_of_nil _)) as (r & Hr & Hcols).
    exists r. split; [exact Hr|]. split.
    + rewrite (Hcols "email" (field "email" "STRING") eq_refl). reflexivity.
    + rewrite (Hcols "name" (field "name" "STRING") eq_refl). reflexivity.
  - destruct (per_field_last_write_wins users_fields reborn 0 10 "x"
                reborn_aggregated) as (_ & _ & Hone).
    destruct (Hone [] eq_refl eq_refl (not_elem_of_nil _)) as (r & Hr & Hcols).
    exists r. split; [exact Hr|]. split.
    + rewrite (Hcols "email" (field "email" "STRING") eq_refl). reflexivity.
    + rewrite (Hcols "name" (field "name" "STRING") eq_refl). reflexivity.
Defined.

Lemma change_aggregated : "x" ∈ aggregated change 0 10.
Proof. apply (bool_decide_unpack _). vm_compute. exact I. Defined.

(** An update in the window: [email] is replaced, [name] is kept. *)
Lemma updated_row_keeps_unreported_fields :
  Forall2 (updated_from users_fields (tmp_row users_fields change 0 10 "x"))
    (rows_of "x" existing) (rows_of "x" (transaction users_fields change 0 10 existing)).
Proof.
  apply (existing_row_updated_unless_deleted users_fields change 0 10 existing "x"
           change_aggregated).
  - apply (bool_decide_unpack _). vm_compute. exact I.
  - vm_compute. lia.
Defined.

(** C3, counterexample: a row whose id has more DELETED than CREATED entries
    in the window is deleted, so none of its fields is kept or updated. *)
Lemma deleted_row_is_not_updated :
  "x" ∈ aggregated removal 0 10
  /\ "x" ∈ ids existing
  /\ rows_of "x" (transaction users_fields removal 0 10 existing) = []
  /\ ~ Forall2 (updated_from users_fields (tmp_row users_fields removal 0 10 "x"))
         (rows_of "x" existing)
         (rows_of "x" (transaction users_fields removal 0 10 existing)).
Proof.
  split; [apply (bool_decide_unpack _); vm_compute; exact I|].
  split; [apply (bool_decide_unpack _); vm_compute; exact I|].
  split; [reflexivity|].
  intros H. apply Forall2_length in H. vm_compute in H. discriminate.
Qed.

(** The first incarnation of the re-created document does not reach [tmp]:
    erasing what was recorded before the CREATED entry stamped 5 changes
    neither the aggregated ids nor the aggregated columns. *)
Lemma first_incarnation_is_forgotten :
  aggregated (forget_before 5 <$> recreated) 0 10 = aggregated recreated 0 10
  /\ n_columns (tmp_row users_fields (forget_before 5 <$> recreated) 0 10 "x") "email"
     = n_columns (tmp_row users_fields recreated 0 10 "x") "email"
  /\ n_columns (tmp_row users_fields (forget_before 5 <$> recreated) 0 10 "x") "name"
     = n_columns (tmp_row users_fields recreated 0 10 "x") "name".
Proof.
  destruct (aggregation_ignores_entries_before_latest_created users_fields recreated
              0 10 (forget_before 5)) as (_ & _ & Hagg & Hrows).
  - intros n. repeat split.
  - intros n Hn Hlate k.
    repeat (apply elem_of_cons in Hn as [->|Hn]); try (by apply not_elem_of_nil in Hn).
    + vm_compute in Hlate. by destruct Hlate.
    + reflexivity.
    + reflexivity.
  - split; [exact Hagg|]. destruct (Hrows "x") as (_ & _ & Hcols).
    split; apply Hcols.
Defined.

End ConsolidationScenarios.

(** ** The scheduled run *)

Module SchedulerFacts.
Import Consolidation Scheduler Statements.

Section Facts.
Context {V : Type} `{!SqlBuiltins V}.
Variable instanceId : string.
Variable minus_100_years : Z -> Z.

Local Abbreviation sync := (syncTrackerToMainTable instanceId minus_100_years).
Local Abbreviation tick := (fsUpdatePrimaryTable instanceId minus_100_years).

Local Abbreviation startTime_of config o w :=
  (window minus_100_years (settings w !! settings_id instanceId config) o).1.

(** What a resolved call has done. *)
Lemma resolved_run config o (w w' : World V) :
  sync config o w = (w', Resolved) ->
  rejects o = None
  /\ exists tracker main,
       trackers w !! table_name (Cfg.datasetId config) (Cfg.trackerTableId config)
       = Some tracker
       /\ mains w !! table_name (Cfg.datasetId config) (Cfg.tableId config) = Some main
       /\ w' = {| settings := <[settings_id instanceId config := now_lastRunDate o]>
                                (settings w);
                  trackers := trackers w;
                  mains := <[table_name (Cfg.datasetId config) (Cfg.tableId config) :=
                               transaction (Cfg.fields config) tracker
                                 (startTime_of config o w) (now_endTime o) main]>
                             (mains w) |}.
Proof.
  unfold syncTrackerToMainTable, window. cbn [fst].
  destruct (rejects o) as [[]|];
    destruct (trackers w !! table_name (Cfg.datasetId config) (Cfg.trackerTableId config)) as [tracker|],
             (mains w !! table_name (Cfg.datasetId config) (Cfg.tableId config)) as [main|];
    intros [= <-]; split; try done; eauto.
Qed.

(** A call that rejects leaves the checkpoint as it was. *)
Lemma rejected_run_keeps_checkpoint config o (w w' : World V) :
  sync config o w = (w', Rejected) -> settings w' = settings w.
Proof.
  unfold syncTrackerToMainTable, window.
  destruct (rejects o) as [[]|];
    destruct (trackers w !! table_name (Cfg.datasetId config) (Cfg.trackerTableId config)) as [tracker|],
             (mains w !! table_name (Cfg.datasetId config) (Cfg.tableId config)) as [main|];
    by intros [= <-].
Qed.

(** A call that resolves stores the clock reading taken after the query. *)
Lemma resolved_run_checkpoint config o (w w' : World V) :
  sync config o w = (w', Resolved) ->
  settings w' !! settings_id instanceId config = Some (now_lastRunDate o).
Proof.
  intros Hr. apply resolved_run in Hr as (_ & tracker & main & _ & _ & ->).
  apply lookup_insert_eq.
Qed.

Lemma tick_cons config o runs (w : World V) :
  tick ((config, o) :: runs) w
  = ((tick runs (sync config o w).1).1,
     line_of config (sync config o w).2 :: (tick runs (sync config o w).1).2).
Proof.
  cbn [fsUpdatePrimaryTable]. destruct (sync config o w) as [w1 outcome].
  simpl. by destruct (tick runs w1) as [w2 lines].
Qed.

(** Every configuration of the tick is run, in order, on the world its
    predecessors left, whether they resolved or rejected. *)
Lemma every_configuration_is_run runs (w : World V) i config o :
  runs !! i = Some (config, o) ->
  (tick runs w).2 !! i
  = Some (line_of config (sync config o (tick (take i runs) w).1).2).
Proof.
  revert w i. induction runs as [|[c o'] runs IH]; intros w i Hi; [done|].
  rewrite tick_cons. destruct i as [|i].
  - injection Hi as -> ->. done.
  - cbn [take]. rewrite tick_cons. simpl. by apply IH.
Qed.

(** The stretch between the two clock readings of a run that resolves
    belongs to no window: it lies after the end of this run's window and
    before the start of the next run's. *)
Lemma gap_between_readings_is_skipped config o o' (w w' : World V)
    (tracker : list (TrackerRow V)) (n : TrackerRow V) :
  sync config o w = (w', Resolved) ->
  (now_endTime o < timestamp n < now_lastRunDate o)%Z ->
  (n ∉ considered tracker (startTime_of config o w) (now_endTime o))
  /\ (n ∉ considered tracker (startTime_of config o' w') (now_endTime o')).
Proof.
  intros Hr Hn. pose proof (resolved_run_checkpoint _ _ _ _ Hr) as Hcp.
  unfold considered, window. cbn [fst]. rewrite Hcp.
  split; intros [[_ [? ?]] _]%list_elem_of_filter; lia.
Qed.

(** C4, as the code has it.  A run that resolves has replaced the main
    table by the result of the transaction over the window from the
    stored checkpoint (a hundred years before the clock when there is
    none) to the clock reading at its start, both ends included; the
    rows aggregated are those of the window stamped at or after the
    latest CREATED entry of their document, and the counts are taken over
    all rows of the window. *)
Theorem window_is_closed_and_starts_at_checkpoint config o (w w' : World V) :
  sync config o w = (w', Resolved) ->
  let startTime := match settings w !! settings_id instanceId config with
                   | Some t => t
                   | None => minus_100_years (now_sentinel o)
                   end in
  let endTime := now_endTime o in
  exists tracker main,
    trackers w !! table_name (Cfg.datasetId config) (Cfg.trackerTableId config)
    = Some tracker
    /\ mains w !! table_name (Cfg.datasetId config) (Cfg.tableId config) = Some main
    /\ mains w' !! table_name (Cfg.datasetId config) (Cfg.tableId config)
       = Some (transaction (Cfg.fields config) tracker startTime endTime main)
    /\ (forall n, n ∈ considered tracker startTime endTime
                  <-> n ∈ tracker
                      /\ (startTime <= timestamp n <= endTime)%Z
                      /\ (default epoch (max_created tracker (documentId n))
                          <= timestamp n)%Z)
    /\ (forall ct d,
          COUNTIF ct tracker startTime endTime d
          = length (filter (fun m => documentId m = d /\ changeType m = ct
                                     /\ (startTime <= timestamp m <= endTime)%Z)
                      tracker)).
Proof.
  intros Hr startTime endTime.
  apply resolved_run in Hr as (_ & tracker & main & Ht & Hm & ->).
  exists tracker, main. split; [done|]. split; [done|]. split; [|split].
  - simpl. apply lookup_insert_eq.
  - intros n. unfold considered. rewrite list_elem_of_filter.
    unfold where_clause, BETWEEN. tauto.
  - intros ct d. unfold COUNTIF. rewrite list_filter_filter. f_equal.
    apply list_filter_iff. intros m. unfold BETWEEN. tauto.
Qed.

End Facts.
End SchedulerFacts.

Module SchedulerScenarios.
Import Consolidation Scheduler Statements Scenarios SchedulerFacts.

(** The run of [boundary_run] over [boundary] resolves and inserts the row. *)
Lemma boundary_run_window :
  mains (syncTrackerToMainTable "inst" century users boundary_run
           (world (Some 0%Z) boundary [])).1 !! "firestore_sync.users"
  = Some (transaction users_fields boundary 0 10 []).
Proof.
  destruct (window_is_closed_and_starts_at_checkpoint "inst" century users boundary_run
              (world (Some 0%Z) boundary [])
              (syncTrackerToMainTable "inst" century users boundary_run
                 (world (Some 0%Z) boundary [])).1)
    as (tracker & main & Ht & Hm & Hfinal & _).
  - reflexivity.
  - vm_compute in Ht. vm_compute in Hm. injection Ht as <-. injection Hm as <-.
    exact Hfinal.
Defined.

(** C4, counterexample: the only entry of the log is stamped exactly
    [endTime], and the run aggregates it and inserts its row. *)
Lemma entry_at_endTime_is_aggregated :
  Forall (fun n => timestamp n = now_endTime boundary_run) boundary
  /\ considered boundary 0%Z (now_endTime boundary_run) = boundary
  /\ ids <$> (mains (syncTrackerToMainTable "inst" century users boundary_run
                       (world (Some 0%Z) boundary [])).1 !! "firestore_sync.users")
     = Some ["x"].
Proof. split; [|split]; [repeat constructor|reflexivity|reflexivity]. Qed.

(** C5: the checkpoint written by a run that resolves is the clock reading
    taken after the query (105), not the end of the window it aggregated
    (100).  The entry stamped 103 lies after the first window and before
    the second, is aggregated by neither run, and the main table stays
    empty although the log holds a CREATED entry. *)
Theorem checkpoint_passes_the_window_end :
  let w0 := world None written_meanwhile [] in
  let w1 := (syncTrackerToMainTable "inst" century users first_run w0).1 in
  let w2 := (syncTrackerToMainTable "inst" century users second_run w1).1 in
  (syncTrackerToMainTable "inst" century users first_run w0).2 = Resolved
  /\ window century (settings w0 !! "inst-users") first_run = (century 100, 100%Z)
  /\ settings w1 !! "inst-users" = Some 105%Z
  /\ (syncTrackerToMainTable "inst" century users second_run w1).2 = Resolved
  /\ window century (settings w1 !! "inst-users") second_run = (105%Z, 200%Z)
  /\ considered written_meanwhile (century 100) 100 = []
  /\ considered written_meanwhile 105 200 = []
  /\ ids <$> (mains w2 !! "firestore_sync.users") = Some [].
Proof. repeat split. Qed.

End SchedulerScenarios.

(** ** Field coercion *)

Module FormatFacts.
Import Js Format Statements.

(** *** Decimal text: what [parseFloat] reads back from [toFixed(2)] *)

(** The Number value of a real is a finite number or an infinity. *)
Lemma to_double_not_NaN (q : Q) : to_double q <> NaN.
Proof.
  unfold to_double. destruct (Z.abs (Qnum q) =? 0)%Z; [done|].
  cbv zeta. by destruct (2 ^ 2098 <=? _)%Z.
Qed.

(** It depends on the numerator and the denominator only. *)
Lemma to_double_hundredths (z : Z) :
  to_double (inject_Z z * 10 ^ (-2)) = to_double (z # 100).
Proof.
  change (10 ^ (-2))%Q with (1 # 100). unfold to_double.
  cbn [Qnum Qden Qmult inject_Z]. by rewrite Z.mul_1_r.
Qed.

Lemma digit_cases (d : N) :
  (d < 10)%N -> d ∈ [0; 1; 2; 3; 4; 5; 6; 7; 8; 9]%N.
Proof.
  intros Hd. rewrite <- (N2Nat.id d).
  assert (N.to_nat d < 10)%nat as Hn by lia. revert Hn.
  generalize (N.to_nat d). intros n Hn.
  do 10 (destruct n as [|n]; [set_solver|]). lia.
Qed.

Ltac digit_analysis d H :=
  apply digit_cases in H;
  repeat (apply elem_of_cons in H as [->|H]); [.. | by apply not_elem_of_nil in H].

(** A digit character is read back as its digit; it is neither white space
    nor a sign nor the first letter of [Infinity]. *)
Lemma digit_char (d : N) :
  (d < 10)%N ->
  digit_of_ascii (ascii_of_digit d) = Some d
  /\ (forall s, white_space (ascii_of_digit d :: s) = None)
  /\ (forall s, take_sign (ascii_of_digit d :: s) = (false, ascii_of_digit d :: s))
  /\ (forall s, starts_with (list_ascii_of_string "Infinity") (ascii_of_digit d :: s) = false).
Proof. intros Hd. digit_analysis d Hd; repeat split. Qed.

Lemma digits_lt fuel n : Forall (fun d => (d < 10)%N) (digits fuel n).
Proof.
  revert n. induction fuel as [|fuel IH]; intros n; [constructor|].
  cbn [digits]. destruct (n <? 10)%N eqn:Hn.
  - apply N.ltb_lt in Hn. by repeat constructor.
  - apply Forall_app. split; [apply IH|]. repeat constructor.
    apply N.mod_lt. lia.
Qed.

Lemma digits_cons fuel n : exists d ds, digits (S fuel) n = d :: ds.
Proof.
  cbn [digits]. destruct (n <? 10)%N; [eauto|].
  destruct (digits fuel (n / 10)) as [|d ds]; simpl; eauto.
Qed.

Lemma take_digits_app (ds : list N) (rest : list ascii) :
  Forall (fun d => (d < 10)%N) ds ->
  match rest with c :: _ => digit_of_ascii c = None | [] => True end ->
  take_digits ((ascii_of_digit <$> ds) ++ rest) = (ds, rest).
Proof.
  intros Hds Hrest. induction Hds as [|d ds Hd _ IH].
  - destruct rest as [|c s]; [done|]. simpl. by rewrite Hrest.
  - rewrite fmap_cons. cbn [app take_digits].
    destruct (digit_char d Hd) as [-> _]. by rewrite IH.
Qed.

(** The text [-]ddd.dd is read back as an integer number of hundredths. *)
Lemma decimal_literal_fixed (neg : bool) (d : N) (ds : list N) (d1 d2 : N) :
  Forall (fun x => (x < 10)%N) (d :: ds) -> (d1 < 10)%N -> (d2 < 10)%N ->
  decimal_literal
    (string_of_list_ascii
       ((if neg then ["-"%char] else [])
          ++ (ascii_of_digit <$> d :: ds)
          ++ "."%char :: ascii_of_digit d1 :: ascii_of_digit d2 :: []))
  = Finite (inject_Z (if neg then - Z.of_N (digits_value ((d :: ds) ++ [d1; d2]))
                      else Z.of_N (digits_value ((d :: ds) ++ [d1; d2])))
            * 10 ^ (-2))%Q.
Proof.
  intros Hds H1 H2. unfold decimal_literal.
  rewrite list_ascii_of_string_of_list_ascii.
  assert (Hd : (d < 10)%N) by (by inversion Hds).
  destruct (digit_char d Hd) as (_ & Hsp & Hsign & Hinf).
  set (rest := "."%char :: ascii_of_digit d1 :: ascii_of_digit d2 :: []).
  assert (Hsigned :
    take_sign (trim_start ((if neg then ["-"%char] else [])
                             ++ (ascii_of_digit <$> d :: ds) ++ rest))
    = (neg, (ascii_of_digit <$> d :: ds) ++ rest)).
  { destruct neg.
    - reflexivity.
    - change ([] ++ (ascii_of_digit <$> d :: ds) ++ rest)
        with (ascii_of_digit d :: ((ascii_of_digit <$> ds) ++ rest)).
      unfold trim_start. cbn [length trim_start_aux]. rewrite Hsp. apply Hsign. }
  rewrite Hsigned.
  change ((ascii_of_digit <$> d :: ds) ++ rest)
    with (ascii_of_digit d :: ((ascii_of_digit <$> ds) ++ rest)) at 1.
  rewrite Hinf.
  rewrite take_digits_app by done. unfold rest.
  change (ascii_of_digit d1 :: ascii_of_digit d2 :: [])
    with ((ascii_of_digit <$> [d1; d2]) ++ []).
  rewrite take_digits_app by (repeat constructor; done).
  reflexivity.
Qed.

Lemma digits_value_snoc (ds : list N) (d : N) :
  digits_value (ds ++ [d]) = (10 * digits_value ds + d)%N.
Proof. unfold digits_value. by rewrite fold_left_app. Qed.

Lemma digits_value_digits fuel (m : N) :
  (m < 10 ^ N.of_nat fuel)%N -> digits_value (digits fuel m) = m.
Proof.
  revert m. induction fuel as [|fuel IH]; intros m Hm.
  - simpl in Hm. cbn [digits]. unfold digits_value. simpl. lia.
  - cbn [digits]. destruct (m <? 10)%N eqn:Hlt.
    + unfold digits_value. simpl. lia.
    + apply N.ltb_ge in Hlt. rewrite digits_value_snoc, IH.
      * pose proof (N.div_mod m 10). lia.
      * rewrite Nat2N.inj_succ, N.pow_succ_r' in Hm.
        apply N.Div0.div_lt_upper_bound. lia.
Qed.

(** The digits [decimal] prints denote the number: its fuel is enough. *)
Lemma decimal_digits_value (m : N) :
  digits_value (digits (S (N.to_nat (N.size m))) m) = m.
Proof.
  apply digits_value_digits. rewrite Nat2N.inj_succ, N2Nat.id.
  pose proof (N.size_gt m) as Hs.
  assert (2 ^ N.size m <= 10 ^ N.size m)%N by (apply N.pow_le_mono_l; lia).
  rewrite N.pow_succ_r'. lia.
Qed.

Lemma hundreds (n : N) :
  (10 * (10 * (n / 100) + (n mod 100) / 10) + n mod 10 = n)%N.
Proof. zify. Z.to_euclidean_division_equations. lia. Qed.

(** The text [x.toFixed(2)] denotes [x] rounded to hundredths, a half
    away from zero. *)
Lemma decimal_literal_toFixed2 (q : Q) :
  decimal_literal (toFixed2 q)
  = Finite (inject_Z (if Qlt_le_dec q 0
                      then - Z.of_N (round_half_up (Qabs q * 100))
                      else Z.of_N (round_half_up (Qabs q * 100)))
            * 10 ^ (-2))%Q.
Proof.
  unfold toFixed2. set (n := round_half_up (Qabs q * 100)). unfold decimal.
  destruct (digits_cons (N.to_nat (N.size (n / 100))) (n / 100)%N) as (d & ds & Hds).
  pose proof (digits_lt (S (N.to_nat (N.size (n / 100)))) (n / 100)%N) as Hlt.
  pose proof (decimal_digits_value (n / 100)) as Hval.
  rewrite Hds in *.
  assert (H1 : ((n mod 100) / 10 < 10)%N).
  { apply N.Div0.div_lt_upper_bound. pose proof (N.mod_lt n 100). lia. }
  assert (H2 : (n mod 10 < 10)%N) by (apply N.mod_lt; lia).
  assert (Hn : digits_value ((d :: ds) ++ [((n mod 100) / 10)%N; (n mod 10)%N]) = n).
  { change [((n mod 100) / 10)%N; (n mod 10)%N]
      with ([((n mod 100) / 10)%N] ++ [(n mod 10)%N]).
    rewrite app_assoc, !digits_value_snoc, Hval. apply hundreds. }
  destruct (Qlt_le_dec q 0).
  - rewrite (decimal_literal_fixed true d ds _ _ Hlt H1 H2). by rewrite Hn.
  - rewrite (decimal_literal_fixed false d ds _ _ Hlt H1 H2). by rewrite Hn.
Qed.

(** [parseFloat(x.toFixed(2))] is the double nearest to [x] rounded to
    hundredths. *)
Lemma parseFloat_toFixed2 (q : Q) :
  parseFloat (toFixed2 q)
  = to_double ((if Qlt_le_dec q 0
                then - Z.of_N (round_half_up (Qabs q * 100))
                else Z.of_N (round_half_up (Qabs q * 100))) # 100).
Proof.
  unfold parseFloat. by rewrite decimal_literal_toFixed2, to_double_hundredths.
Qed.


(** *** NUMERIC, FLOAT64 and INT64 *)

Lemma safeFloat_cases (x : option JsNumber) :
  safeFloat x = JsNull
  \/ (exists neg, safeFloat x = JsNum (Infinity neg))
  \/ exists q, safeFloat x = JsNum (Finite q)
                /\ (isInteger (Finite q) = true \/ two_decimals q).
Proof.
  destruct x as [[|neg|q]|]; [by left|right; left| |by left].
  - exists neg. by destruct neg.
  - unfold safeFloat.
    destruct (negb (ToBoolean (JsNum (Finite q))) && not_zero (JsNum (Finite q))) eqn:Hz.
    { simpl in Hz. by destruct (Qeq_bool q 0). }
    destruct (isInteger (Finite q)) eqn:Hint; [by eauto 6|].
    cbn [toFixed]. rewrite parseFloat_toFixed2.
    destruct (to_double _) as [|neg|q'] eqn:Hd.
    + by apply to_double_not_NaN in Hd.
    + right. left. eauto.
    + right. right. exists q'. split; [done|]. right. eexists. exact Hd.
Qed.

(** Decides the tests of the [switch] once the type is known. *)
Ltac dispatch :=
  repeat match goal with
         | |- context [one_of ?ty ?names] =>
             let b := eval vm_compute in (one_of ty names) in
             change (one_of ty names) with b
         end;
  cbv iota.

Section WithBuiltins.
Context `{!Builtins}.

Lemma formatField_NUMERIC track v :
  Cfg.type track ∈ ["NUMERIC"; "FLOAT64"; "INT64"] ->
  formatField track v = case_NUMERIC track v.
Proof.
  intros Hty. unfold formatField, one_of. by rewrite bool_decide_eq_true_2.
Qed.

(** C6, as the code has it.  The output of a NUMERIC, FLOAT64 or INT64
    field is [null], an infinity, or a finite number that is an integer
    or the double nearest to a decimal with at most two fractional
    digits; the text ["3.14159"] gives 3.14, the double nearest to
    314 / 100. *)
Theorem numeric_output track v :
  Cfg.type track ∈ ["NUMERIC"; "FLOAT64"; "INT64"] ->
  (formatField track v = JsNull
   \/ (exists neg, formatField track v = JsNum (Infinity neg))
   \/ exists q, formatField track v = JsNum (Finite q)
                 /\ (isInteger (Finite q) = true \/ two_decimals q))
  /\ (Cfg.method track = None ->
      exists q, formatField track (JsString "3.14159") = JsNum (Finite q)
                /\ to_double (314 # 100) = Finite q).
Proof.
  intros Hty. rewrite !formatField_NUMERIC by done. split.
  - apply safeFloat_cases.
  - intros Hm. unfold case_NUMERIC, to_number, apply_method. rewrite Hm.
    eexists. split; [vm_compute; reflexivity|vm_compute; reflexivity].
Qed.

(** *** ARRAY *)

Lemma elem_of_flat (vs : list JsValue) x :
  x ∈ flat vs
  <-> exists e, e ∈ vs /\ ((isArray e = false /\ x = e)
                          \/ exists a, e = JsArray a /\ x ∈ a).
Proof.
  unfold flat. induction vs as [|v vs IH].
  - simpl. split; [by intros ?%not_elem_of_nil|].
    by intros (e & ?%not_elem_of_nil & _).
  - rewrite fmap_cons. cbn [concat]. rewrite elem_of_app, IH. split.
    + intros [Hx|(e & He & Hx)].
      * exists v. split; [apply list_elem_of_here|].
        destruct v; try (apply list_elem_of_singleton in Hx; auto); eauto.
      * exists e. split; [by apply list_elem_of_further|done].
    + intros (e & [->|He]%elem_of_cons & Hx); [left|right; eauto].
      destruct Hx as [[Harr ->]|(a & -> & Hx)]; [|done].
      destruct v; try done; by apply list_elem_of_singleton.
Qed.

Lemma elem_of_filter_Boolean (vs : list JsValue) e :
  e ∈ filter_Boolean vs <-> e ∈ vs /\ ToBoolean e = true.
Proof. unfold filter_Boolean. rewrite !list_elem_of_In. apply filter_In. Qed.

(** C7, as the code has it.  The output of an ARRAY field is the array
    of the elements that are not falsy, with the arrays among them
    replaced by their own elements: an element that was not inside a
    nested array is neither falsy nor an array, and the elements of a
    nested array are emitted as they are. *)
Theorem array_output track v :
  Cfg.type track = "ARRAY" ->
  let elems := match Cfg.method track with
               | Some m => m <$> format_elements track (normalize_array v)
               | None => format_elements track (normalize_array v)
               end in
  exists out,
    formatField track v = JsArray out
    /\ out = flat (filter_Boolean elems)
    /\ (forall x, x ∈ out ->
           (x ∈ elems /\ clean_element x)
           \/ exists a, JsArray a ∈ elems /\ x ∈ a)
    /\ (Forall (fun e => isArray e = false) elems -> Forall clean_element out).
Proof.
  intros Hty elems. exists (flat (filter_Boolean elems)).
  assert (Hout : forall x, x ∈ flat (filter_Boolean elems) ->
            (x ∈ elems /\ clean_element x) \/ exists a, JsArray a ∈ elems /\ x ∈ a).
  { intros x (e & [He Ht]%elem_of_filter_Boolean & Hx)%elem_of_flat.
    destruct Hx as [[Harr ->]|(a & -> & Hx)]; [by left|right; eauto]. }
  split; [|split; [done|split; [done|]]].
  - unfold formatField. rewrite Hty. by dispatch.
  - intros Hflat. apply Forall_forall. intros x Hx.
    destruct (Hout x Hx) as [[_ Hc]|(a & Ha & _)]; [done|].
    rewrite Forall_forall in Hflat. by specialize (Hflat _ Ha).
Qed.

(** *** JSON *)

(** Without a transform a JSON field is never emitted: the serialized
    value is a string, and strings are replaced by [null]. *)
Lemma json_without_transform track v :
  Cfg.type track = "JSON" -> Cfg.method track = None ->
  formatField track v = match v with
                        | JsUndefined => JsUndefined
                        | _ => JsNull
                        end.
Proof.
  intros Hty Hm. unfold formatField. rewrite Hty. dispatch.
  unfold case_JSON. rewrite Hm. by destruct v.
Qed.

End WithBuiltins.

End FormatFacts.

Module FormatScenarios.
Import Js Format Statements Scenarios FormatFacts.

(** Scenario 2: ["3.14159"] in a NUMERIC field. *)
Lemma pi_is_cut_to_two_decimals :
  exists q, formatField amount (JsString "3.14159") = JsNum (Finite q)
            /\ to_double (314 # 100) = Finite q.
Proof.
  apply (numeric_output amount JsUndefined).
  - apply (bool_decide_unpack _). vm_compute. exact I.
  - reflexivity.
Defined.

(** The numbers read from text are doubles: ["1.005"] is a double below
    1.005 and is cut to 1, 2.675 is cut to 2.67, ["1e400"] overflows,
    ["1e-400"] underflows, and 2^53 + 1 is read as 2^53; white space,
    a no-break space included, is skipped. *)
Lemma text_is_read_as_the_nearest_double :
  (exists q, formatField amount (JsString "1.005") = JsNum (Finite q) /\ (q == 1)%Q)
  /\ (exists q, formatField amount (JsString "2.675") = JsNum (Finite q)
                /\ to_double (267 # 100) = Finite q)
  /\ parseFloat "1e400" = Infinity false
  /\ (exists q, parseFloat "1e-400" = Finite q /\ (q == 0)%Q)
  /\ (exists q, parseFloat "9007199254740993" = Finite q
                /\ (q == inject_Z (2 ^ 53))%Q)
  /\ (exists q, parseFloat "  0.1" = Finite q
                /\ (q == 3602879701896397 # 36028797018963968)%Q)
  /\ (exists q, parseFloat (String (ascii_of_N 194) (String (ascii_of_N 160) "7"))
                = Finite q /\ (q == 7)%Q).
Proof.
  repeat split; try (eexists; split; [vm_compute; reflexivity|]);
    vm_compute; reflexivity.
Qed.

(** C6, counterexample: the text ["Infinity"] (and the number it denotes)
    is coerced to [Infinity], which is neither [null] nor finite. *)
Lemma infinity_is_emitted :
  formatField amount (JsString "Infinity") = JsNum (Infinity false)
  /\ formatField amount (JsNum (Infinity true)) = JsNum (Infinity true)
  /\ ~ (formatField amount (JsString "Infinity") = JsNull
        \/ exists q, formatField amount (JsString "Infinity") = JsNum (Finite q)
                     /\ (isInteger (Finite q) = true \/ two_decimals q)).
Proof.
  split; [reflexivity|]. split; [reflexivity|].
  intros [H|(q & H & _)]; vm_compute in H; discriminate.
Qed.

(** An array without nested arrays: the single tag of scenario 3. *)
Lemma single_tag_is_wrapped :
  exists out, formatField tags (JsString "tag1") = JsArray out
              /\ Forall clean_element out.
Proof.
  destruct (array_output tags (JsString "tag1") eq_refl) as (out & Hout & _ & _ & Hclean).
  exists out. split; [exact Hout|]. apply Hclean. by repeat constructor.
Defined.

(** C7, counterexample: the elements of a nested array are neither
    filtered nor flattened. *)
Lemma nested_array_keeps_falsy_and_arrays :
  formatField tags nested = JsArray [num 0; JsArray [JsString "a"]]
  /\ ~ clean_element (num 0)
  /\ ~ clean_element (JsArray [JsString "a"])
  /\ ~ (exists out, formatField tags nested = JsArray out /\ Forall clean_element out).
Proof.
  split; [reflexivity|]. split; [by intros [? _]|]. split; [by intros [_ ?]|].
  intros (out & Hout & Hclean). vm_compute in Hout. injection Hout as <-.
  apply Forall_cons in Hclean as [[Hzero _] _]. discriminate.
Qed.

(** C8: a composite value in a JSON field without a transform is
    serialized, and the string is then replaced by [null]. *)
Theorem composite_json_is_dropped :
  typeof (JSON_stringify composite) = TString
  /\ formatField payload composite = JsNull
  /\ formatField payload (JsArray [num 1]) = JsNull.
Proof. repeat split. Qed.

End FormatScenarios.

(** ** Backfill *)

Module BackfillFacts.
Import Js Format Backfill.

Lemma omap_none {A B} (f : A -> option B) (l : list A) :
  Forall (fun x => f x = None) l -> omap f l = [].
Proof.
  induction 1 as [|x l Hx _ IH]; [done|]. cbn [omap list_omap]. by rewrite Hx.
Qed.

(** With distinct document paths, [startAt] resumes exactly at the cursor. *)
Lemma startAt_suffix (pre : list QueryDocumentSnapshot) r rest :
  NoDup (doc_path <$> (pre ++ r :: rest)) ->
  startAt r (pre ++ r :: rest) = r :: rest.
Proof.
  induction pre as [|d pre IH]; intros Hnd.
  - simpl. by rewrite String.eqb_refl.
  - cbn [app startAt]. rewrite <- app_comm_cons, fmap_cons in Hnd.
    apply NoDup_cons in Hnd as [Hd Hnd].
    destruct (String.eqb_spec (doc_path d) (doc_path r)) as [Heq|_]; [|by apply IH].
    exfalso. apply Hd. rewrite Heq. apply list_elem_of_fmap_2.
    apply elem_of_app. right. apply list_elem_of_here.
Qed.

Section Facts.
Context `{!Builtins}.
Variable insert_throws : list Props -> bool.

(** Both loops end: they take at most one round per document left from
    the cursor on, plus one. *)
Lemma backfillCollection_loop_terminates
    (docs : list QueryDocumentSnapshot) batchSize config :
  NoDup (doc_path <$> docs) ->
  forall fuel pre col ref total main,
    docs = pre ++ col ->
    match ref with
    | Some r => exists rest, col = r :: rest
    | None => pre = []
    end ->
    length col < fuel ->
    is_Some (backfillCollection_loop insert_throws fuel docs batchSize config ref
               total main).
Proof.
  intros Hnd fuel.
  induction fuel as [|fuel IH]; intros pre col ref total main Hdocs Href Hlen; [lia|].
  cbn [backfillCollection_loop].
  assert (Hcol : match ref with Some r => startAt r docs | None => docs end = col).
  { destruct ref as [r|].
    - destruct Href as [rest ->]. subst docs. by apply startAt_suffix.
    - subst pre. done. }
  rewrite Hcol. clear Hcol Href.
  destruct (omap _ (take batchSize (take (batchSize + 1) col))) as [|row rows] eqn:Hrows;
    [done|].
  destruct (take (batchSize + 1) col !! batchSize) as [r|] eqn:Hr; [|done].
  assert (batchSize <> 0) as Hbs by (intros ->; discriminate).
  rewrite lookup_take_lt in Hr by lia.
  apply list_elem_of_split_length in Hr as (l1 & rest & -> & Hl1).
  apply (IH (pre ++ l1) (r :: rest)).
  - by rewrite <- app_assoc.
  - eauto.
  - rewrite length_app in Hlen. simpl in *. lia.
Qed.

Lemma backfillCollectionGroup_loop_terminates
    (docs : list QueryDocumentSnapshot) batchSize config :
  NoDup (doc_path <$> docs) ->
  forall fuel pre col ref total main,
    docs = pre ++ col ->
    match ref with
    | Some r => exists rest, col = r :: rest
    | None => pre = []
    end ->
    length col < fuel ->
    is_Some (backfillCollectionGroup_loop insert_throws fuel docs batchSize config ref
               total main).
Proof.
  intros Hnd fuel.
  induction fuel as [|fuel IH]; intros pre col ref total main Hdocs Href Hlen; [lia|].
  cbn [backfillCollectionGroup_loop].
  assert (Hcol : match ref with Some r => startAt r docs | None => docs end = col).
  { destruct ref as [r|].
    - destruct Href as [rest ->]. subst docs. by apply startAt_suffix.
    - subst pre. done. }
  rewrite Hcol. clear Hcol Href.
  destruct (omap _ (take batchSize (take (batchSize + 1) col))) as [|row rows] eqn:Hrows;
    [done|].
  destruct (take (batchSize + 1) col !! batchSize) as [r|] eqn:Hr; [|done].
  assert (batchSize <> 0) as Hbs by (intros ->; discriminate).
  rewrite lookup_take_lt in Hr by lia.
  apply list_elem_of_split_length in Hr as (l1 & rest & -> & Hl1).
  apply (IH (pre ++ l1) (r :: rest)).
  - by rewrite <- app_assoc.
  - eauto.
  - rewrite length_app in Hlen. simpl in *. lia.
Qed.

(** [backfillCollection] and [backfillCollectionGroup] return, given one
    unit of fuel per document and one more. *)
Lemma backfill_terminates fs batchSize main config path :
  NoDup (doc_path <$> fs path) ->
  NoDup (doc_path <$> fs (default EmptyString (Cfg.collectionGroup config))) ->
  is_Some (backfillCollection insert_throws (S (length (fs path))) fs batchSize main
             config path)
  /\ is_Some (backfillCollectionGroup insert_throws
                (S (length (fs (default EmptyString (Cfg.collectionGroup config)))))
                fs batchSize main config).
Proof.
  intros Hnd Hndg. split.
  - apply (backfillCollection_loop_terminates (fs path) batchSize config Hnd
             _ [] (fs path)); [done|done|lia].
  - apply (backfillCollectionGroup_loop_terminates _ batchSize config Hndg
             _ [] (fs (default EmptyString (Cfg.collectionGroup config))));
      [done|done|lia].
Qed.

(** C10.  Whatever the cursor, when the coercion of every document of
    the fetched page rejects, the loop ends at once: nothing is inserted
    and no further page is fetched, however many documents follow.  The
    same holds for the loop over a collection group. *)
Theorem backfill_stops_at_page_without_rows
    fuel (docs : list QueryDocumentSnapshot) batchSize config ref total main :
  let col := match ref with
             | Some r => startAt r docs
             | None => docs
             end in
  let page := take (batchSize + 1) col in
  (Forall (fun doc => formatDocument (doc_data doc) (doc_id doc) config = None)
     (take batchSize page) ->
   backfillCollection_loop insert_throws (S fuel) docs batchSize config ref total main
   = Some (total + length page, main))
  /\ (Forall (fun doc =>
                formatDocument
                  (set_prop "parentId"
                     (match doc_grandparent doc with
                      | Some p => JsString p
                      | None => JsUndefined
                      end) (doc_data doc))
                  (doc_id doc) config = None)
        (take batchSize page) ->
      backfillCollectionGroup_loop insert_throws (S fuel) docs batchSize config ref
        total main
      = Some (total + length page, main)).
Proof.
  intros col page. split; intros Hfail.
  - cbn [backfillCollection_loop]. fold col. fold page.
    by rewrite (omap_none _ _ Hfail).
  - cbn [backfillCollectionGroup_loop]. fold col. fold page.
    by rewrite (omap_none _ _ Hfail).
Qed.

End Facts.
End BackfillFacts.

Module BackfillScenarios.
Import Js Format Backfill Scenarios BackfillFacts.

(** With pages of one document, the second page holds the document whose
    transform fails: the loop ends there, and the third document, whose
    coercion would succeed, is never inserted. *)
Lemma third_document_is_never_backfilled :
  let first := [("documentId", JsString "a"); ("email", JsString "a@b.com")] in
  backfillCollection_loop (fun _ => false) 9 three_documents 1 transformed
    (three_documents !! 1) 2 [first]
  = Some (4, [first])
  /\ backfillCollection (fun _ => false) 10 firestore 1 [] transformed "users"
     = Some (4, [first])
  /\ backfillCollectionGroup (fun _ => false) 10 firestore 1 [] transformed
     = Some (4, [first])
  /\ formatDocument [("email", JsString "c@b.com")] "c" transformed
     = Some [("documentId", JsString "c"); ("email", JsString "c@b.com")].
Proof.
  intros first. split; [|repeat split].
  refine (proj1 (backfill_stops_at_page_without_rows (fun _ => false) 8 three_documents 1
                   transformed (three_documents !! 1) 2 [first]) _).
  repeat constructor.
Defined.

End BackfillScenarios.

(** * Further properties *)

(** ** Laws of the consolidation transaction *)

Module TransactionLaws.
Import Consolidation Statements Laws ConsolidationFacts.

Section Laws.
Context {V : Type} `{!SqlBuiltins V}.
Implicit Types (tracker : list (TrackerRow V)) (main : list (MainRow V)).
Implicit Types (fields : list Cfg.ParsedFieldDefinition) (d k : string).

Lemma filter_all {A} (P : A -> Prop) `{!forall x, Decision (P x)} (l : list A) :
  Forall P l -> filter P l = l.
Proof.
  induction 1 as [|x l Hx _ IH]; [done|]. by rewrite filter_cons, decide_True, IH.
Qed.

Lemma filter_none {A} (P : A -> Prop) `{!forall x, Decision (P x)} (l : list A) :
  Forall (fun x => ~ P x) l -> filter P l = [].
Proof.
  induction 1 as [|x l Hx _ IH]; [done|]. by rewrite filter_cons, decide_False.
Qed.

Lemma NoDup_fmap_filter {A B} (f : A -> B) (P : A -> Prop)
    `{!forall x, Decision (P x)} (l : list A) :
  NoDup (f <$> l) -> NoDup (f <$> filter P l).
Proof.
  induction l as [|x l IH]; [done|]. rewrite fmap_cons, NoDup_cons.
  intros [Hx Hl]. rewrite filter_cons. destruct (decide (P x)); [|by auto].
  rewrite fmap_cons. apply NoDup_cons. split; [|by auto].
  intros (y & Hy & [_ Hin]%list_elem_of_filter)%list_elem_of_fmap.
  apply Hx. rewrite Hy. by apply list_elem_of_fmap_2.
Qed.

(** The rows of an id that has no row in [tmp] are those it had. *)
Lemma rows_of_transaction_other fields tracker s e main d :
  d ∉ aggregated tracker s e ->
  rows_of d (transaction fields tracker s e main) = rows_of d main.
Proof.
  intros Hd. unfold rows_of, transaction, UPDATE. rewrite filter_id_fmap.
  - rewrite rows_of_DELETE, decide_False by tauto.
    unfold INSERT. rewrite filter_app, rows_of_inserted, decide_False by tauto.
    rewrite app_nil_r. rewrite <- (list_fmap_id (filter _ main)) at 2.
    apply list_fmap_ext. intros j i Hi.
    apply list_elem_of_lookup_2, list_elem_of_filter in Hi as [<- _].
    rewrite find_tmp. by rewrite decide_False.
  - intros i. by destruct (List.find _ _).
Qed.

(** X1.  The transaction leaves the rows of every document that has no
    entry among the aggregated ones as they are: same rows, same order,
    same columns. *)
Theorem transaction_leaves_other_documents_alone fields tracker s e main d :
  d ∉ aggregated tracker s e ->
  rows_of d (transaction fields tracker s e main) = rows_of d main
  /\ (d ∈ ids (transaction fields tracker s e main) <-> d ∈ ids main).
Proof.
  intros Hd. split; [by apply rows_of_transaction_other|].
  unfold ids. rewrite transaction_id, inserted_id. tauto.
Qed.

(** X2.  A document whose latest CREATED entry is stamped after the end of
    the window is not consolidated by the run: its rows stay as they are,
    whatever entries (deletions included) the window holds for it. *)
Theorem recreated_after_window_is_left_alone fields tracker s e main d t :
  max_created tracker d = Some t -> (e < t)%Z ->
  (d ∉ aggregated tracker s e)
  /\ rows_of d (transaction fields tracker s e main) = rows_of d main.
Proof.
  intros Hmax Hlate.
  assert (Hd : d ∉ aggregated tracker s e).
  { unfold aggregated. rewrite elem_of_remove_dups, list_elem_of_fmap.
    intros (n & -> & [[Hn [_ He]] _]%list_elem_of_filter).
    rewrite Hmax in Hn. simpl in Hn. lia. }
  split; [done|]. by apply rows_of_transaction_other.
Qed.

(** X3.  The transaction keeps the main table free of duplicate ids. *)
Theorem transaction_keeps_one_row_per_id fields tracker s e main :
  NoDup (ids main) -> NoDup (ids (transaction fields tracker s e main)).
Proof.
  intros Hnd. unfold ids, transaction. rewrite UPDATE_ids. unfold DELETE.
  apply NoDup_fmap_filter. rewrite INSERT_ids. apply NoDup_app.
  split; [done|]. split.
  - intros d Hd Hins. apply inserted_id in Hins. tauto.
  - unfold inserted_rows. rewrite <- list_fmap_compose.
    apply (NoDup_fmap_filter n_documentId). rewrite tmp_ids.
    apply NoDup_remove_dups.
Qed.

(** *** The order in which the warehouse reads the log *)

Lemma MAX_perm (ts ts' : list Z) : ts ≡ₚ ts' -> MAX ts = MAX ts'.
Proof.
  intros Hp. destruct (MAX ts) as [m|] eqn:Hm, (MAX ts') as [m'|] eqn:Hm'.
  - apply MAX_Some in Hm as [Hin Hle]. apply MAX_Some in Hm' as [Hin' Hle'].
    rewrite Hp in Hin. rewrite <- Hp in Hin'.
    specialize (Hle _ Hin'). specialize (Hle' _ Hin). f_equal. lia.
  - apply MAX_None in Hm'. subst ts'. apply Permutation_nil_r in Hp. by subst ts.
  - apply MAX_None in Hm. subst ts. apply Permutation_nil_l in Hp. by subst ts'.
  - done.
Qed.

Lemma max_created_perm tracker tracker' d :
  tracker ≡ₚ tracker' -> max_created tracker d = max_created tracker' d.
Proof. intros Hp. unfold max_created. apply MAX_perm. by rewrite Hp. Qed.

Lemma considered_perm tracker tracker' s e :
  tracker ≡ₚ tracker' -> considered tracker s e ≡ₚ considered tracker' s e.
Proof.
  intros Hp. unfold considered.
  rewrite (list_filter_iff (where_clause tracker s e) (where_clause tracker' s e)).
  - by rewrite Hp.
  - intros n. unfold where_clause. by rewrite (max_created_perm _ _ _ Hp).
Qed.

Lemma COUNTIF_perm ct tracker tracker' s e d :
  tracker ≡ₚ tracker' -> COUNTIF ct tracker s e d = COUNTIF ct tracker' s e d.
Proof. intros Hp. unfold COUNTIF. by rewrite Hp. Qed.

Lemma aggregated_perm tracker tracker' s e d :
  tracker ≡ₚ tracker' -> d ∈ aggregated tracker s e <-> d ∈ aggregated tracker' s e.
Proof.
  intros Hp. unfold aggregated. rewrite !elem_of_remove_dups.
  by rewrite (considered_perm _ _ s e Hp).
Qed.

Lemma NoDup_fmap_inj_on {A B} (f : A -> B) (l : list A) x y :
  NoDup (f <$> l) -> x ∈ l -> y ∈ l -> f x = f y -> x = y.
Proof.
  induction l as [|a l IH]; [by intros _ ?%not_elem_of_nil|].
  rewrite fmap_cons, NoDup_cons. intros [Ha Hl].
  intros [->|Hx]%elem_of_cons [->|Hy]%elem_of_cons Hf; [done| | |by apply IH].
  - exfalso. apply Ha. rewrite Hf. by apply list_elem_of_fmap_2.
  - exfalso. apply Ha. rewrite <- Hf. by apply list_elem_of_fmap_2.
Qed.

(** Among rows with distinct timestamps the aggregate does not depend on
    the order in which the rows are read. *)
Lemma ARRAY_AGG_first_perm (expr : TrackerRow V -> option V) group group' :
  group ≡ₚ group' ->
  (forall m m', m ∈ group -> m' ∈ group -> timestamp m = timestamp m' -> m = m') ->
  ARRAY_AGG_first expr group = ARRAY_AGG_first expr group'.
Proof.
  intros Hp Hties.
  destruct (ARRAY_AGG_first expr group) as [v|] eqn:Hg,
           (ARRAY_AGG_first expr group') as [v'|] eqn:Hg'; [| | |done].
  - apply ARRAY_AGG_first_Some in Hg as (m & Hm & Hv & Hlater).
    apply ARRAY_AGG_first_Some in Hg' as (m' & Hm' & Hv' & Hlater').
    rewrite <- Hp in Hm'.
    destruct (Z.lt_trichotomy (timestamp m) (timestamp m')) as [Hlt|[Heq|Hgt]].
    + specialize (Hlater _ Hm' Hlt). congruence.
    + rewrite (Hties _ _ Hm Hm' Heq) in Hv. congruence.
    + rewrite Hp in Hm. specialize (Hlater' _ Hm Hgt). congruence.
  - apply ARRAY_AGG_first_Some in Hg as (m & Hm & Hv & _). rewrite Hp in Hm.
    rewrite (ARRAY_AGG_first_None _ _ Hg' _ Hm) in Hv. done.
  - apply ARRAY_AGG_first_Some in Hg' as (m & Hm & Hv & _). rewrite <- Hp in Hm.
    rewrite (ARRAY_AGG_first_None _ _ Hg _ Hm) in Hv. done.
Qed.

Lemma n_columns_perm fields tracker tracker' s e d k :
  tracker ≡ₚ tracker' -> no_ties tracker s e ->
  n_columns (tmp_row fields tracker s e d) k
  = n_columns (tmp_row fields tracker' s e d) k.
Proof.
  intros Hp Hties. cbn [n_columns tmp_row].
  destruct (field_of fields k) as [f|]; [|done].
  apply ARRAY_AGG_first_perm.
  - unfold group_of. by rewrite (considered_perm _ _ s e Hp).
  - intros m m' [Hd Hm]%list_elem_of_filter [Hd' Hm']%list_elem_of_filter Hts.
    apply (NoDup_fmap_inj_on _ _ _ _ Hties Hm Hm'). congruence.
Qed.

(** X4.  Running the transaction again over the same log and window
    changes nothing, in whatever order the log is read the second time,
    provided no two entries read for one document carry the same
    timestamp: the table has the same rows, in the same order, with the
    same columns. *)
Theorem transaction_is_idempotent fields tracker tracker' s e main :
  tracker ≡ₚ tracker' ->
  no_ties tracker s e ->
  Forall2 same_row
    (transaction fields tracker s e main)
    (transaction fields tracker' s e (transaction fields tracker s e main)).
Proof.
  intros Hp Hties.
  set (tmp := create_tmp fields tracker s e).
  set (tmp' := create_tmp fields tracker' s e).
  set (T := transaction fields tracker s e main).
  assert (Hkeep : Forall (fun i => ~ delete_where tmp' i) T).
  { apply Forall_forall. intros i Hi. unfold T, transaction, UPDATE in Hi.
    apply list_elem_of_fmap in Hi as (j & -> & Hj).
    apply list_elem_of_filter in Hj as [Hj _].
    assert (Hid : i_documentId
                    match List.find (fun n => bool_decide (i_documentId j = n_documentId n))
                            (create_tmp fields tracker s e) with
                    | Some n => updated_row fields n j
                    | None => j
                    end = i_documentId j) by (by destruct (List.find _ _)).
    unfold tmp'. rewrite delete_where_iff, Hid.
    rewrite delete_where_iff in Hj.
    by rewrite <- (aggregated_perm _ _ s e _ Hp), <- !(COUNTIF_perm _ _ _ s e _ Hp). }
  assert (Hins : inserted_rows fields tmp' T = []).
  { unfold inserted_rows. rewrite filter_none; [done|].
    apply Forall_forall. intros n Hn [Hlt Hex].
    apply elem_of_create_tmp in Hn as (d & -> & Hd). simpl in *.
    rewrite <- (aggregated_perm _ _ s e _ Hp) in Hd.
    rewrite <- !(COUNTIF_perm _ _ _ s e _ Hp) in Hlt.
    apply Hex, Exists_exists.
    assert (d ∈ (i_documentId <$> T)) as Hin.
    { unfold T. rewrite transaction_id, inserted_id. split; [|lia].
      destruct (decide (d ∈ (i_documentId <$> main))); tauto. }
    apply list_elem_of_fmap in Hin as (i & -> & Hi). eauto. }
  assert (Hagain : transaction fields tracker' s e T = UPDATE fields tmp' T).
  { unfold transaction at 1. fold tmp'. unfold INSERT. rewrite Hins, app_nil_r.
    unfold DELETE. by rewrite filter_all. }
  rewrite Hagain. unfold UPDATE at 1.
  apply Forall2_fmap_r, Forall_Forall2_diag, Forall_forall.
  intros i Hi. unfold compose. unfold T, transaction, UPDATE in Hi.
  apply list_elem_of_fmap in Hi as (j & -> & _). fold tmp.
  unfold tmp, tmp'. rewrite find_tmp.
  destruct (decide (i_documentId j ∈ aggregated tracker s e)) as [Hd|Hd].
  - change (i_documentId (updated_row fields (tmp_row fields tracker s e (i_documentId j)) j))
      with (i_documentId j).
    rewrite find_tmp, decide_True by (by apply (aggregated_perm _ _ s e _ Hp)).
    split; [done|]. intros k. cbn [i_columns updated_row].
    destruct (field_of fields k) as [f|] eqn:Hf; [|done].
    rewrite <- (n_columns_perm fields tracker tracker' s e _ k Hp Hties).
    by destruct (n_columns (tmp_row fields tracker s e (i_documentId j)) k).
  - rewrite find_tmp, decide_False by (by rewrite <- (aggregated_perm _ _ s e _ Hp)).
    by split.
Qed.

End Laws.
End TransactionLaws.

(** ** Laws of the scheduled run *)

Module RunLaws.
Import Consolidation Scheduler Statements SchedulerFacts.

Section Laws.
Context {V : Type} `{!SqlBuiltins V}.
Variable instanceId : string.
Variable minus_100_years : Z -> Z.

Local Abbreviation sync := (syncTrackerToMainTable instanceId minus_100_years).
Local Abbreviation tick := (fsUpdatePrimaryTable instanceId minus_100_years).
Local Abbreviation main_table config :=
  (table_name (Cfg.datasetId config) (Cfg.tableId config)).
Local Abbreviation tracker_table config :=
  (table_name (Cfg.datasetId config) (Cfg.trackerTableId config)).

(** The three shapes of the world after a call. *)
Lemma run_cases config o (w : World V) :
  (sync config o w = (w, Rejected)
   /\ (rejects o = Some GetSettings \/ rejects o = Some RunQuery
       \/ trackers w !! tracker_table config = None
       \/ mains w !! main_table config = None))
  \/ exists tracker main,
       trackers w !! tracker_table config = Some tracker
       /\ mains w !! main_table config = Some main
       /\ let final := transaction (Cfg.fields config) tracker
                         (window minus_100_years
                            (settings w !! settings_id instanceId config) o).1
                         (now_endTime o) main in
          (rejects o = Some SetSettings
           /\ sync config o w
              = ({| settings := settings w; trackers := trackers w;
                    mains := <[main_table config := final]> (mains w) |}, Rejected))
          \/ (rejects o = None
              /\ sync config o w
                 = ({| settings := <[settings_id instanceId config := now_lastRunDate o]>
                                     (settings w);
                       trackers := trackers w;
                       mains := <[main_table config := final]> (mains w) |}, Resolved)).
Proof.
  unfold syncTrackerToMainTable, window. cbn [fst].
  destruct (trackers w !! table_name (Cfg.datasetId config) (Cfg.trackerTableId config))
    as [tracker|];
    [|left; destruct (rejects o) as [[]|]; split; (reflexivity || tauto)].
  destruct (mains w !! table_name (Cfg.datasetId config) (Cfg.tableId config))
    as [main|];
    [|left; destruct (rejects o) as [[]|]; split; (reflexivity || tauto)].
  destruct (rejects o) as [[]|].
  - left. split; [reflexivity|tauto].
  - left. split; [reflexivity|tauto].
  - right. exists tracker, main. split; [done|]. split; [done|]. left. by split.
  - right. exists tracker, main. split; [done|]. split; [done|]. right. by split.
Qed.

(** X5.  A call that rejects never moves the checkpoint and never touches
    a tracker table; unless the rejecting step is the write of the
    checkpoint, it leaves the whole world as it was. *)
Theorem rejected_run_effects config o (w w' : World V) :
  sync config o w = (w', Rejected) ->
  settings w' = settings w
  /\ trackers w' = trackers w
  /\ (rejects o <> Some SetSettings -> w' = w).
Proof.
  intros Hr.
  destruct (run_cases config o w) as [[Hs _]|(tracker & main & _ & _ & [[Hrej Hs]|[_ Hs]])];
    rewrite Hs in Hr; injection Hr as <-; done.
Qed.

(** What a call leaves as it is. *)
Lemma run_frame config o (w : World V) :
  trackers (sync config o w).1 = trackers w
  /\ (forall k, k <> settings_id instanceId config ->
        settings (sync config o w).1 !! k = settings w !! k)
  /\ (forall t, t <> main_table config ->
        mains (sync config o w).1 !! t = mains w !! t)
  /\ (forall t, is_Some (mains (sync config o w).1 !! t) <-> is_Some (mains w !! t)).
Proof.
  destruct (run_cases config o w)
    as [[Hs _]|(tracker & main & _ & Hm & [[_ Hs]|[_ Hs]])];
    rewrite Hs; cbn [fst settings trackers mains];
    (split; [done|]); (split; [intros k Hk; by rewrite ?lookup_insert_ne by done|]);
    (split; [intros t Ht; by rewrite ?lookup_insert_ne by done|]); try done.
  all: intros t; destruct (decide (t = main_table config)) as [->|Hne];
    [rewrite lookup_insert_eq, Hm; split; eauto
    |by rewrite lookup_insert_ne by done].
Qed.

(** X6.  A call writes nothing but the main table and the checkpoint of its
    own configuration: every tracker table, every other checkpoint and
    every other main table stay as they are, and no table appears or
    disappears. *)
Theorem run_touches_only_its_own_state config o (w : World V) :
  let w' := (sync config o w).1 in
  trackers w' = trackers w
  /\ (forall k, k <> settings_id instanceId config ->
        settings w' !! k = settings w !! k)
  /\ (forall t, t <> main_table config -> mains w' !! t = mains w !! t)
  /\ (forall t, is_Some (mains w' !! t) <-> is_Some (mains w !! t)).
Proof. apply run_frame. Qed.

Lemma tick_app runs1 runs2 (w : World V) :
  tick (runs1 ++ runs2) w
  = ((tick runs2 (tick runs1 w).1).1,
     (tick runs1 w).2 ++ (tick runs2 (tick runs1 w).1).2).
Proof.
  revert w. induction runs1 as [|[c o] runs1 IH]; intros w.
  - simpl. by destruct (tick runs2 w).
  - rewrite <- app_comm_cons, !tick_cons, IH. done.
Qed.

Lemma tick_lines_length runs (w : World V) : length (tick runs w).2 = length runs.
Proof.
  revert w. induction runs as [|[c o] runs IH]; intros w; [done|].
  rewrite tick_cons. simpl. by rewrite IH.
Qed.

(** A tick keeps the tracker tables, the set of main tables, every
    checkpoint that belongs to none of its configurations and every main
    table that is the main table of none of them. *)
Lemma tick_frame runs (w : World V) :
  trackers (tick runs w).1 = trackers w
  /\ (forall t, is_Some (mains (tick runs w).1 !! t) <-> is_Some (mains w !! t))
  /\ (forall k, Forall (fun run => settings_id instanceId run.1 <> k) runs ->
        settings (tick runs w).1 !! k = settings w !! k)
  /\ (forall t, Forall (fun run => main_table run.1 <> t) runs ->
        mains (tick runs w).1 !! t = mains w !! t).
Proof.
  revert w. induction runs as [|[c o] runs IH]; intros w; [done|].
  rewrite tick_cons. cbn [fst].
  destruct (run_frame c o w) as (Ht & Hs & Hmt & Hm).
  destruct (IH (sync c o w).1) as (IHt & IHm & IHs & IHmt).
  split; [congruence|]. split; [|split].
  - intros t. by rewrite IHm, Hm.
  - intros k Hk. apply Forall_cons in Hk as [Hc Hk].
    rewrite IHs by done. apply Hs. simpl in Hc. congruence.
  - intros t Hk. apply Forall_cons in Hk as [Hc Hk].
    rewrite IHmt by done. apply Hmt. simpl in Hc. congruence.
Qed.

(** X7.  Within a tick, a configuration whose own calls do not fail and
    whose tables exist is consolidated, whatever happens to the
    configurations before and after it, provided no other configuration
    of the tick shares its checkpoint document or its main table: at the
    end of the tick its main table is the result of the transaction over
    its tracker table and the window from its checkpoint at the start of
    the tick, its checkpoint is the last clock reading of its run, and the
    line logged at its position reports success. *)
Theorem healthy_configuration_is_consolidated runs1 runs2 config o (w : World V) :
  rejects o = None ->
  is_Some (trackers w !! tracker_table config) ->
  is_Some (mains w !! main_table config) ->
  Forall (fun run => settings_id instanceId run.1 <> settings_id instanceId config
                     /\ main_table run.1 <> main_table config)
    (runs1 ++ runs2) ->
  let result := tick (runs1 ++ (config, o) :: runs2) w in
  exists tracker main,
    trackers w !! tracker_table config = Some tracker
    /\ mains w !! main_table config = Some main
    /\ mains result.1 !! main_table config
       = Some (transaction (Cfg.fields config) tracker
                 (window minus_100_years
                    (settings w !! settings_id instanceId config) o).1
                 (now_endTime o) main)
    /\ settings result.1 !! settings_id instanceId config = Some (now_lastRunDate o)
    /\ result.2 !! length runs1 = Some (line_of config Resolved).
Proof.
  intros Hrej Htr Hmn Hother result. apply Forall_app in Hother as [H1 H2].
  assert (Hs_of : forall runs : list (Cfg.RuntimeCollectionConfig * Outside),
            Forall (fun run => settings_id instanceId run.1 <> settings_id instanceId config
                               /\ main_table run.1 <> main_table config) runs ->
            Forall (fun run => settings_id instanceId run.1
                               <> settings_id instanceId config) runs
            /\ Forall (fun run => main_table run.1 <> main_table config) runs).
  { intros runs Hr. split; eapply Forall_impl; try exact Hr; by intros run []. }
  destruct (Hs_of _ H1) as [H1s H1m]. destruct (Hs_of _ H2) as [H2s H2m].
  unfold result. rewrite tick_app, tick_cons. cbn [fst snd].
  set (w1 := (tick runs1 w).1).
  destruct (tick_frame runs1 w) as (Ht1 & _ & Hs1 & Hm1).
  fold w1 in Ht1, Hs1, Hm1.
  specialize (Hs1 _ H1s). specialize (Hm1 _ H1m).
  destruct (run_cases config o w1)
    as [[_ Hbad]|(tracker & main & Htracker & Hmain & [[Hbad _]|[_ Hs]])].
  - exfalso. rewrite Ht1, Hm1 in Hbad. destruct Hbad as [?|[?|[Hn|Hn]]]; try congruence.
    + rewrite Hn in Htr. by destruct Htr.
    + rewrite Hn in Hmn. by destruct Hmn.
  - congruence.
  - exists tracker, main. rewrite Ht1 in Htracker. rewrite Hm1 in Hmain.
    split; [done|]. split; [done|]. rewrite Hs. cbn [fst snd].
    destruct (tick_frame runs2
                {| settings := <[settings_id instanceId config := now_lastRunDate o]>
                                 (settings w1);
                   trackers := trackers w1;
                   mains := <[main_table config :=
                                transaction (Cfg.fields config) tracker
                                  (window minus_100_years
                                     (settings w1 !! settings_id instanceId config) o).1
                                  (now_endTime o) main]> (mains w1) |})
      as (_ & _ & Hs2 & Hm2).
    split; [|split].
    + rewrite Hm2 by done. cbn [mains]. rewrite lookup_insert_eq. by rewrite Hs1.
    + rewrite Hs2 by done. cbn [settings]. apply lookup_insert_eq.
    + rewrite lookup_app_r by (rewrite tick_lines_length; lia).
      by rewrite tick_lines_length, Nat.sub_diag.
Qed.

End Laws.
End RunLaws.

(** ** Laws of the field coercion *)

Module CoercionLaws.
Import Js Format Statements Laws FormatFacts.

(** *** Properties of objects *)

Lemma get_set_prop k v (o : Props) : get_prop k (set_prop k v o) = v.
Proof.
  unfold get_prop. induction o as [|[k' v'] o IH]; simpl.
  - by rewrite String.eqb_refl.
  - destruct (String.eqb_spec k' k) as [->|Hne]; simpl.
    + by rewrite String.eqb_refl.
    + destruct (String.eqb_spec k' k); [done|]. apply IH.
Qed.

Lemma get_set_prop_ne k k' v (o : Props) :
  k <> k' -> get_prop k' (set_prop k v o) = get_prop k' o.
Proof.
  intros Hne. unfold get_prop. induction o as [|[k0 v0] o IH]; simpl.
  - destruct (String.eqb_spec k k'); [done|]. done.
  - destruct (String.eqb_spec k0 k) as [->|Hk]; simpl.
    + destruct (String.eqb_spec k k'); [done|]. done.
    + destruct (String.eqb_spec k0 k'); [done|]. apply IH.
Qed.

(** Setting a property the object does not have appends it. *)
Lemma set_prop_fresh k v (o : Props) :
  k ∉ (fst <$> o) -> set_prop k v o = o ++ [(k, v)].
Proof.
  induction o as [|[k' v'] o IH]; [done|]. rewrite fmap_cons, not_elem_of_cons.
  intros [Hne Hk]. simpl in *. destruct (String.eqb_spec k' k); [congruence|].
  by rewrite IH.
Qed.

(** Assigning distinct fresh keys one after the other lists them in order. *)
Lemma assign_fresh {A} (key : A -> string) (value : A -> JsValue) (l : list A)
    (o : Props) :
  NoDup ((fst <$> o) ++ (key <$> l)) ->
  fold_left (fun document x => set_prop (key x) (value x) document) l o
  = o ++ ((fun x => (key x, value x)) <$> l).
Proof.
  revert o. induction l as [|x l IH]; intros o Hnd.
  - by rewrite app_nil_r.
  - cbn [fold_left]. rewrite fmap_cons in Hnd.
    rewrite set_prop_fresh.
    + rewrite IH.
      * by rewrite <- app_assoc.
      * rewrite fmap_app. simpl. by rewrite <- app_assoc.
    + apply NoDup_app in Hnd as (_ & Hdis & _). intros Hin.
      apply (Hdis _ Hin). apply list_elem_of_here.
Qed.

Section WithBuiltins.
Context `{!Builtins}.

(** The record [formatDocument] builds when the column names are distinct
    and none of them is [documentId]. *)
Lemma formatDocument_eq (data : Props) documentId config :
  NoDup ("documentId" :: (Cfg.key <$> Cfg.fields config)) ->
  formatDocument data documentId config
  = (fun working =>
       ("documentId", JsString (emitted_documentId data documentId config))
         :: ((fun track => (Cfg.key track, formatField track (Cfg.accessor track working)))
               <$> Cfg.fields config))
      <$> working_document data (emitted_documentId data documentId config) config.
Proof.
  intros Hnd. unfold formatDocument, working_document, emitted_documentId.
  destruct (match Cfg.transformUrl config with Some _ => _ | None => _ end)
    as [working|]; [|done].
  cbn [mbind option_bind fmap option_fmap option_map]. f_equal.
  by rewrite (assign_fresh Cfg.key
                (fun track => formatField track (Cfg.accessor track working))).
Qed.

(** The names of the record are the column names of the main table. *)
Lemma formatDocument_columns (data : Props) documentId config document :
  NoDup ("documentId" :: (Cfg.key <$> Cfg.fields config)) ->
  formatDocument data documentId config = Some document ->
  fst <$> document = Init.name <$> Init.main_schema config.
Proof.
  intros Hnd Hdoc. rewrite formatDocument_eq in Hdoc by done.
  destruct (working_document _ _ _); [|done]. injection Hdoc as <-.
  rewrite fmap_cons. unfold Init.main_schema, Init.mainFields.
  rewrite fmap_cons. f_equal. rewrite <- !list_fmap_compose.
  by apply list_fmap_ext.
Qed.

(** The property a field assigns is found under its key. *)
Lemma get_prop_fmap {A} (key : A -> string) (value : A -> JsValue) (l : list A) x :
  NoDup (key <$> l) -> x ∈ l ->
  get_prop (key x) ((fun y => (key y, value y)) <$> l) = value x.
Proof.
  unfold get_prop. induction l as [|a l IH]; [by intros _ ?%not_elem_of_nil|].
  rewrite !fmap_cons, NoDup_cons. intros [Ha Hl] [->|Hx]%elem_of_cons.
  - cbn [List.find fst snd]. by rewrite String.eqb_refl.
  - cbn [List.find fst snd]. destruct (String.eqb_spec (key a) (key x)) as [Heq|_].
    + exfalso. apply Ha. rewrite Heq. by apply list_elem_of_fmap_2.
    + by apply IH.
Qed.

(** X8.  With distinct column names, none of them [documentId], a record
    [formatDocument] resolves with holds the document id under
    [documentId] and, under the key of every configured field, the
    coercion of what the accessor of the field reads from the document
    (from the answer of the transform when one is configured), and it has
    no other properties: its names are the column names of the main
    table, in some order.  When the transform request fails,
    [formatDocument] rejects. *)
Theorem formatDocument_layout (data : Props) documentId config :
  NoDup ("documentId" :: (Cfg.key <$> Cfg.fields config)) ->
  let id' := emitted_documentId data documentId config in
  (forall document, formatDocument data documentId config = Some document ->
     exists working,
       working_document data id' config = Some working
       /\ get_prop "documentId" document = JsString id'
       /\ (forall track, track ∈ Cfg.fields config ->
             get_prop (Cfg.key track) document
             = formatField track (Cfg.accessor track working))
       /\ fst <$> document ≡ₚ Init.name <$> Init.main_schema config)
  /\ (working_document data id' config = None ->
      formatDocument data documentId config = None).
Proof.
  intros Hnd id'. pose proof (formatDocument_eq data documentId config Hnd) as Heq.
  fold id' in Heq. rewrite Heq. split; [|by intros ->].
  intros document Hdoc.
  destruct (working_document data id' config) as [working|]; [|done].
  injection Hdoc as <-. exists working. split; [done|]. split; [done|].
  apply NoDup_cons in Hnd as [Hid Hkeys]. split.
  - intros track Htrack. unfold get_prop. cbn [List.find fst].
    destruct (String.eqb_spec "documentId" (Cfg.key track)) as [Heq'|_].
    + exfalso. apply Hid. rewrite Heq'. by apply list_elem_of_fmap_2.
    + by apply (get_prop_fmap Cfg.key
                  (fun track => formatField track (Cfg.accessor track working))).
  - enough (fst <$> (("documentId", JsString id')
                       :: ((fun track : Cfg.ParsedFieldDefinition =>
                              (Cfg.key track, formatField track (Cfg.accessor track working)))
                             <$> Cfg.fields config))
            = Init.name <$> Init.main_schema config) as -> by done.
    rewrite fmap_cons. unfold Init.main_schema, Init.mainFields.
    rewrite fmap_cons. f_equal. rewrite <- !list_fmap_compose.
    by apply list_fmap_ext.
Qed.

(** *** Output by column type *)

Lemma formatField_of track v ty :
  Cfg.type track = ty ->
  formatField track v
  = (if one_of ty ["NUMERIC"; "FLOAT64"; "INT64"] then case_NUMERIC track v
     else if one_of ty ["BIGNUMERIC"; "BIGDECIMAL"] then case_BIGNUMERIC track v
     else if one_of ty ["ARRAY"] then case_ARRAY track v
     else if one_of ty ["TIMESTAMP"; "DATETIME"] then case_TIMESTAMP track v
     else if one_of ty ["DATE"] then case_DATE track v
     else if one_of ty ["BOOL"] then case_BOOL track v
     else if one_of ty ["STRING"] then case_STRING track v
     else if one_of ty ["JSON"] then case_JSON track v
     else if one_of ty ["REPEATED"] then case_REPEATED v
     else v).
Proof. intros <-. reflexivity. Qed.

Lemma to_number_cases track v :
  to_number track v = JsNull
  \/ exists n, to_number track v = JsNum n /\ n <> NaN.
Proof.
  unfold to_number.
  destruct (apply_method track v) as [| |b|n|s|l|o|t|a c]; simpl; auto.
  - destruct b; auto.
  - destruct n as [|neg|q]; simpl; [by left|right; eauto|].
    right. exists (Finite q). by destruct (Qeq_bool q 0).
  - destruct (parseFloat s) as [|neg|q]; simpl; [by left|right; eauto|].
    right. exists (Finite q). by destruct (Qeq_bool q 0).
Qed.

(** X9.  Whatever the value and the transform, the output of a field
    fits its column: STRING, TIMESTAMP, DATETIME and DATE give a string or
    [null]; BOOL gives a boolean, never [null]; BIGNUMERIC and BIGDECIMAL
    give [null] or a number that is not [NaN]; JSON and REPEATED never
    give a string, a boolean or a number. *)
Theorem output_fits_column track v :
  (Cfg.type track ∈ ["STRING"; "TIMESTAMP"; "DATETIME"; "DATE"] ->
   string_or_null (formatField track v))
  /\ (Cfg.type track = "BOOL" -> exists b, formatField track v = JsBoolean b)
  /\ (Cfg.type track ∈ ["BIGNUMERIC"; "BIGDECIMAL"] ->
      formatField track v = JsNull
      \/ exists n, formatField track v = JsNum n /\ n <> NaN)
  /\ (Cfg.type track ∈ ["JSON"; "REPEATED"] ->
      primitive (formatField track v) = false).
Proof.
  split; [|split; [|split]].
  - intros Hty. unfold string_or_null.
    repeat (apply elem_of_cons in Hty as [Hty|Hty]);
      [..|by apply not_elem_of_nil in Hty];
      rewrite (formatField_of _ _ _ Hty); dispatch.
    + unfold case_STRING. destruct (apply_method track v); simpl; eauto.
    + unfold case_TIMESTAMP. destruct (ToBoolean _); [|auto].
      destruct (to_iso _); eauto.
    + unfold case_TIMESTAMP. destruct (ToBoolean _); [|auto].
      destruct (to_iso _); eauto.
    + unfold case_DATE. destruct (ToBoolean _); [|auto].
      destruct (to_iso _); eauto.
  - intros Hty. rewrite (formatField_of _ _ _ Hty). dispatch.
    unfold case_BOOL. eauto.
  - intros Hty.
    repeat (apply elem_of_cons in Hty as [Hty|Hty]);
      [..|by apply not_elem_of_nil in Hty];
      rewrite (formatField_of _ _ _ Hty); dispatch; apply to_number_cases.
  - intros Hty.
    repeat (apply elem_of_cons in Hty as [Hty|Hty]);
      [..|by apply not_elem_of_nil in Hty];
      rewrite (formatField_of _ _ _ Hty); dispatch.
    + unfold case_JSON.
      set (value := match Cfg.method track with Some m => m v | None => JSON_stringify v end).
      cbv zeta. by destruct (primitive value) eqn:Hp.
    + unfold case_REPEATED. by destruct (primitive v) eqn:Hp.
Qed.

Lemma safeFloat_not_null n : n <> NaN -> safeFloat (Some n) <> JsNull.
Proof.
  intros Hn. destruct n as [|neg|q]; [done|by destruct neg|].
  unfold safeFloat. cbn [ToBoolean not_zero is_zero].
  destruct (Qeq_bool q 0); cbn [negb andb]; by destruct (isInteger (Finite q)).
Qed.

(** The number [to_number] keeps. *)
Lemma to_number_of_number track v n :
  match apply_method track v with
  | JsNum n' => n' = n
  | JsString s => parseFloat s = n
  | _ => False
  end ->
  n <> NaN -> to_number track v = JsNum n.
Proof.
  unfold to_number.
  destruct (apply_method track v) as [| |b|n'|s|l|o|t|a c]; try done.
  - intros <- Hn. destruct n' as [|neg|q]; [done|done|].
    cbn [ToBoolean not_zero is_zero]. by destruct (Qeq_bool q 0).
  - intros <- Hn. destruct (parseFloat s) as [|neg|q]; [done|done|].
    cbn [ToBoolean not_zero is_zero]. by destruct (Qeq_bool q 0).
Qed.

Lemma to_number_of_other track v :
  match apply_method track v with
  | JsNum n => n = NaN
  | JsString s => parseFloat s = NaN
  | _ => True
  end ->
  to_number track v = JsNull.
Proof.
  unfold to_number.
  destruct (apply_method track v) as [| |b|n'|s|l|o|t|a c]; try done.
  - by destruct b.
  - by intros ->.
  - by intros ->.
Qed.

(** X10.  A NUMERIC, FLOAT64 or INT64 field is [null] exactly when its
    (transformed) value is neither a number other than [NaN] nor a text
    that [parseFloat] reads as one: zero is kept, while [undefined],
    [null], booleans, arrays and objects are dropped. *)
Theorem numeric_null_iff track v :
  Cfg.type track ∈ ["NUMERIC"; "FLOAT64"; "INT64"] ->
  (formatField track v = JsNull
   <-> match apply_method track v with
       | JsNum n => n = NaN
       | JsString s => parseFloat s = NaN
       | _ => True
       end).
Proof.
  intros Hty. rewrite formatField_NUMERIC by done. unfold case_NUMERIC. split.
  - intros Hnull.
    destruct (apply_method track v) as [| |b|n|s|l|o|t|a c] eqn:Hu; try done.
    + assert (Hn : n = NaN \/ n <> NaN) by (destruct n; auto).
      destruct Hn as [|Hn]; [done|]. exfalso.
      rewrite (to_number_of_number track v n) in Hnull by (by rewrite ?Hu).
      by apply (safeFloat_not_null n).
    + assert (Hn : parseFloat s = NaN \/ parseFloat s <> NaN)
        by (destruct (parseFloat s); auto).
      destruct Hn as [|Hn]; [done|]. exfalso.
      rewrite (to_number_of_number track v (parseFloat s)) in Hnull
        by (by rewrite ?Hu).
      by apply (safeFloat_not_null (parseFloat s)).
  - intros Hv. by rewrite to_number_of_other.
Qed.

(** X11.  An ARRAY field without formatter and transform turns a value
    that is not an array into the array of that value alone, or into the
    empty array when the value is falsy ([0] and [false] included). *)
Theorem array_of_scalar track v :
  Cfg.type track = "ARRAY" -> formater_set track = None -> Cfg.method track = None ->
  isArray v = false ->
  formatField track v = JsArray (if ToBoolean v then [v] else []).
Proof.
  intros Hty Hf Hm Hv. rewrite (formatField_of _ _ _ Hty). dispatch.
  unfold case_ARRAY, format_elements. rewrite Hf, Hm.
  destruct v as [| |[]|[|neg|q]|s|l|o|t|a c]; try done.
  - unfold normalize_array, filter_Boolean.
    cbn [ToBoolean not_zero not_false is_zero].
    destruct (Qeq_bool q 0) eqn:Hz; cbn [negb andb List.filter ToBoolean is_zero];
      by rewrite Hz.
  - unfold normalize_array, filter_Boolean.
    cbn [ToBoolean not_zero not_false].
    destruct (String.eqb s EmptyString) eqn:Hs;
      cbn [negb andb List.filter ToBoolean]; by rewrite ?Hs.
Qed.

End WithBuiltins.

(** *** [safeFloat] *)

Lemma round_half_even_bound (A B : Z) :
  (0 <= A)%Z -> (0 < B)%Z ->
  (0 <= round_half_even A B)%Z
  /\ (- B <= 2 * (B * round_half_even A B - A) <= B)%Z.
Proof.
  intros HA HB. unfold round_half_even.
  pose proof (Z.div_mod A B ltac:(lia)) as Hdm.
  pose proof (Z.mod_pos_bound A B HB) as Hr.
  pose proof (Z.div_pos A B HA HB) as Hq.
  destruct (Z.compare_spec (2 * (A mod B)) B) as [Heq|Hlt|Hgt];
    [destruct (Z.even (A / B))| |]; nia.
Qed.

Lemma binade_small (a : Z) :
  (0 < a < 100 * 2 ^ 45)%Z -> (binade a 100 <= 44)%Z.
Proof.
  intros [Hpos Ha]. unfold binade.
  change (Z.log2 100) with 6%Z.
  assert (Hlog : (Z.log2 a < 52)%Z).
  { apply Z.log2_lt_pow2; [done|]. lia. }
  destruct (Z.ltb_spec (a * 2 ^ Z.max 0 (- (Z.log2 a - 6)))
              (100 * 2 ^ Z.max 0 (Z.log2 a - 6))) as [_|Hge]; [lia|].
  destruct (decide (Z.log2 a = 51%Z)) as [Heq|]; [|lia].
  rewrite Heq in Hge. change (Z.max 0 (- (51 - 6))) with 0%Z in Hge.
  change (Z.max 0 (51 - 6)) with 45%Z in Hge. lia.
Qed.

Lemma Qpower_2_neg (k : Z) :
  (0 < k)%Z -> (2 ^ (- k) == 1 # Z.to_pos (2 ^ k))%Q.
Proof.
  intros Hk. rewrite Qpower_opp.
  assert (H2 : (2 ^ k == inject_Z (2 ^ k))%Q).
  { rewrite Zpower_Qpower by lia. reflexivity. }
  rewrite H2. pose proof (Z.pow_pos_nonneg 2 k ltac:(lia) ltac:(lia)) as Hp.
  destruct (2 ^ k)%Z as [|P|P] eqn:HP; [lia| |lia].
  reflexivity.
Qed.

Lemma hundredths_read_back (z : Z) (d : Q) :
  (Z.abs z < 100 * 2 ^ 45)%Z ->
  to_double (z # 100) = Finite d ->
  isInteger (Finite d) = false ->
  (if Qlt_le_dec d 0
   then - Z.of_N (round_half_up (Qabs d * 100))
   else Z.of_N (round_half_up (Qabs d * 100)))%Z = z.
Proof.
  intros Hsmall. unfold to_double. cbn [Qnum Qden].
  destruct (Z.eqb_spec (Z.abs z) 0) as [Hz|Hz]; [by intros [= <-]|].
  set (e := Z.max (binade (Z.abs z) 100 - 52) (-1074)).
  assert (He : (e <= -8)%Z).
  { pose proof (binade_small (Z.abs z) ltac:(lia)). unfold e. lia. }
  replace (Z.max 0 (- e)) with (- e)%Z by lia.
  replace (Z.max 0 e) with 0%Z by lia.
  change (100 * 2 ^ 0)%Z with 100%Z.
  set (P := (2 ^ (- e))%Z).
  assert (HP : (256 <= P)%Z).
  { unfold P. change 256%Z with (2 ^ 8)%Z. apply Z.pow_le_mono_r; lia. }
  set (m := round_half_even (Z.abs z * P) 100).
  destruct (round_half_even_bound (Z.abs z * P) 100 ltac:(nia) ltac:(lia)) as [Hm0 Hm].
  fold m in Hm0, Hm.
  destruct (2 ^ 2098 <=? m * 2 ^ (e + 1074))%Z; [done|].
  intros [= <-] Hint.
  set (s := if (z <? 0)%Z then (- m)%Z else m).
  assert (Hm_pos : (0 < m)%Z).
  { destruct (decide (m = 0%Z)) as [Hm'|]; [|lia]. exfalso.
    unfold isInteger in Hint. cbn [Qnum Qmult inject_Z] in Hint. fold s in Hint.
    assert (s = 0%Z) as Hs by (unfold s; rewrite Hm'; by destruct (z <? 0)%Z).
    rewrite Hs in Hint. done. }
  assert (Hd : (inject_Z s * 2 ^ e == s # Z.to_pos P)%Q).
  { replace e with (- (- e))%Z by lia. rewrite Qpower_2_neg by lia. fold P.
    unfold Qeq, Qmult, inject_Z. cbn [Qnum Qden]. lia. }
  assert (Hs : Z.abs s = m) by (unfold s; destruct (z <? 0)%Z; lia).
  assert (Hr : round_half_up (Qabs (inject_Z s * 2 ^ e) * 100) = Z.to_N (Z.abs z)).
  { unfold round_half_up. f_equal. rewrite Hd.
    unfold Qfloor, Qplus, Qmult, Qabs. cbn [Qnum Qden].
    rewrite !Pos2Z.inj_mul, Z2Pos.id, Hs by lia.
    symmetry. apply Z.div_unique with (r := (m * 100 * 2 + P - 2 * P * Z.abs z)%Z); nia. }
  rewrite Hr, Z2N.id by lia.
  destruct (Qlt_le_dec _ _) as [Hlt|Hle].
  - rewrite Hd in Hlt. unfold Qlt in Hlt. cbn [Qnum Qden] in Hlt.
    unfold s in Hlt. destruct (Z.ltb_spec z 0); lia.
  - rewrite Hd in Hle. unfold Qle in Hle. cbn [Qnum Qden] in Hle.
    unfold s in Hle. destruct (Z.ltb_spec z 0); lia.
Qed.

Lemma round_half_up_small (q : Q) :
  (Qabs q < inject_Z (2 ^ 44))%Q ->
  (Z.of_N (round_half_up (Qabs q * 100)) < 100 * 2 ^ 45)%Z.
Proof.
  intros Hq. unfold round_half_up.
  assert (H0 : (0 <= Qfloor (Qabs q * 100 + (1 # 2)))%Z).
  { change 0%Z with (Qfloor 0). apply Qfloor_resp_le.
    pose proof (Qabs_nonneg q) as Hn. unfold Qle in *. simpl in *. lia. }
  rewrite Z2N.id by done.
  destruct q as [a b]. unfold Qlt, Qabs, inject_Z in Hq. cbn [Qnum Qden] in Hq.
  unfold Qfloor, Qplus, Qmult, Qabs. cbn [Qnum Qden].
  apply Z.div_lt_upper_bound; [lia|]. rewrite !Pos2Z.inj_mul. nia.
Qed.

(** X12.  [safeFloat] is idempotent on the numbers below [2 ^ 44] in
    magnitude: what it returns for such a number, it returns unchanged
    when given it again. *)
Theorem safeFloat_idempotent (x : option JsNumber) (n : JsNumber) :
  (forall q, x = Some (Finite q) -> (Qabs q < inject_Z (2 ^ 44))%Q) ->
  safeFloat x = JsNum n -> safeFloat (Some n) = JsNum n.
Proof.
  intros Hsmall. destruct x as [[|neg|q]|]; [done| | |done].
  - intros Hn. assert (n = Infinity neg) as -> by (destruct neg; by injection Hn).
    by destruct neg.
  - specialize (Hsmall q eq_refl). unfold safeFloat at 1.
    destruct (negb (ToBoolean (JsNum (Finite q))) && not_zero (JsNum (Finite q)))
      eqn:Hz; [done|].
    destruct (isInteger (Finite q)) eqn:Hint.
    + intros [= <-]. unfold safeFloat. by rewrite Hz, Hint.
    + cbn [toFixed]. rewrite parseFloat_toFixed2. intros [= <-].
      set (z := if Qlt_le_dec q 0
                then (- Z.of_N (round_half_up (Qabs q * 100)))%Z
                else Z.of_N (round_half_up (Qabs q * 100))).
      assert (Hz' : (Z.abs z < 100 * 2 ^ 45)%Z).
      { pose proof (round_half_up_small q Hsmall). unfold z.
        destruct (Qlt_le_dec q 0); lia. }
      destruct (to_double (z # 100)) as [|neg|d] eqn:Hd.
      * by apply to_double_not_NaN in Hd.
      * by destruct neg.
      * unfold safeFloat. cbn [ToBoolean not_zero is_zero].
        destruct (Qeq_bool d 0); cbn [negb andb];
          (destruct (isInteger (Finite d)) eqn:Hd'; [done|]);
          cbn [toFixed]; rewrite parseFloat_toFixed2;
          by rewrite (hundredths_read_back z d Hz' Hd Hd'), Hd.
Qed.
End CoercionLaws.

(** ** Change events *)

Module HandlerFacts.
Import Js Format Statements Laws Handler CoercionLaws.

(** *** The parent id *)




Lemma parentId_not_empty configPaths pathParts p :
  parentId_of configPaths pathParts = Some p -> p <> EmptyString.
Proof.
  induction configPaths as [|configPath rest IH]; [done|]. cbn [parentId_of].
  destruct (has_wildcard configPath); [|done].
  destruct (findIndex _ _) as [i|]; [|done].
  destruct (pathParts !! i) as [part|]; [|done].
  destruct (String.eqb_spec part EmptyString) as [|Hne]; [done|].
  by intros [= <-].
Qed.

(** *** The row of an event *)

Lemma get_prop_spread (base over : Props) k v :
  NoDup (fst <$> over) -> (k, v) ∈ over -> get_prop k (spread base over) = v.
Proof.
  unfold spread. revert base. induction over as [|[k' v'] over IH]; intros base Hnd Hin.
  - by apply not_elem_of_nil in Hin.
  - rewrite fmap_cons in Hnd. apply NoDup_cons in Hnd as [Hk' Hnd].
    cbn [fold_left fst snd]. apply elem_of_cons in Hin as [[= -> ->]|Hin].
    + clear IH Hnd. revert base.
      induction over as [|[k0 v0] over IH]; intros base.
      * apply get_set_prop.
      * cbn [fold_left fst snd]. rewrite fmap_cons, not_elem_of_cons in Hk'.
        destruct Hk' as [Hne Hk']. simpl in Hne.
        assert (Hswap : forall o, get_prop k' (fold_left
                  (fun o p => set_prop p.1 p.2 o) over o) = get_prop k' o).
        { clear -Hk'. induction over as [|[k1 v1] over IH]; intros o; [done|].
          rewrite fmap_cons, not_elem_of_cons in Hk'. destruct Hk' as [Hne Hk'].
          cbn [fold_left fst snd]. rewrite IH by done.
          apply get_set_prop_ne. simpl in Hne. congruence. }
        rewrite Hswap. rewrite get_set_prop_ne by congruence. apply get_set_prop.
    + by apply IH.
Qed.

Section WithBuiltins.
Context `{!Builtins}.
Variable findMatchingConfig : string -> option CollectionConfig.

Local Abbreviation handle := (handleDocumentWrite findMatchingConfig).
Local Abbreviation tracker_of config :=
  (Scheduler.table_name (Cfg.datasetId (runtime config))
     (Cfg.trackerTableId (runtime config))).

(** X14.  The tracker is append-only: a call either records its event as
    one row added at the end of the tracker table of the matching
    configuration, or leaves every table as it was; rows already written
    are never changed or removed. *)
Theorem handler_appends_at_most_one_row now insert_throws change fullPath
    (tables : gmap string (list Props)) :
  match (handle now insert_throws change fullPath tables).2 with
  | Recorded row =>
      exists config rows,
        findMatchingConfig fullPath = Some config
        /\ insert_throws = false
        /\ tables !! tracker_of config = Some rows
        /\ (handle now insert_throws change fullPath tables).1
           = <[tracker_of config := rows ++ [row]]> tables
  | _ => (handle now insert_throws change fullPath tables).1 = tables
  end.
Proof.
  unfold handleDocumentWrite.
  destruct (findMatchingConfig fullPath) as [config|]; [|done].
  destruct (changeType_of change) as [ct|]; [|done].
  destruct (match ct with Consolidation.DELETED => _ | _ => _ end) as [data|]; [|done].
  destruct (tables !! _) as [rows|] eqn:Ht; [|done].
  destruct insert_throws; [done|]. cbn [fst snd]. eauto 10.
Qed.

(** X15.  A deletion is recorded without any coercion: whatever the
    transform endpoint does, the row holds the change type, the timestamp
    and the document id, and nothing else. *)
Theorem deletion_is_recorded_without_coercion now change fullPath config rows
    (tables : gmap string (list Props)) :
  findMatchingConfig fullPath = Some config ->
  changeType_of change = Some Consolidation.DELETED ->
  tables !! tracker_of config = Some rows ->
  let row := [("changeType", JsString "DELETED");
              ("timestamp", JsString (iso_string now));
              ("documentId",
               JsString (deleted_documentId config
                           (parentId_of (collectionPaths config) (split "/" fullPath))
                           (snapshot_id (before change))))] in
  handle now false change fullPath tables
  = (<[tracker_of config := rows ++ [row]]> tables, Recorded row).
Proof.
  intros Hc Hct Ht row. unfold handleDocumentWrite. rewrite Hc, Hct.
  assert (doc_exists (after change) = false) as ->.
  { unfold changeType_of in Hct.
    by destruct (doc_exists (before change)), (doc_exists (after change)). }
  cbn beta iota zeta. rewrite Ht. reflexivity.
Qed.

Lemma spread_fresh (base over : Props) :
  NoDup ((fst <$> base) ++ (fst <$> over)) -> spread base over = base ++ over.
Proof.
  intros Hnd. unfold spread. rewrite (assign_fresh fst snd) by done.
  f_equal. rewrite <- (list_fmap_id over) at 2. apply list_fmap_ext.
  by intros _ [k v] _.
Qed.

Lemma length_append (a b : string) :
  String.length (a ++ b) = String.length a + String.length b.
Proof. induction a as [|c a IH]; [done|]. simpl. by rewrite IH. Qed.

Lemma append_longer (a b : string) : (a ++ "-" ++ b)%string <> b.
Proof.
  intros Heq. apply (f_equal String.length) in Heq.
  rewrite !length_append in Heq. simpl in Heq. lia.
Qed.

(** The data handed to [formatDocument] for a written document (lines
    74-77). *)
Local Abbreviation written_data change parentId :=
  (spread (default [] (snapshot_data (after change)))
     match parentId with
     | Some p => [("parentId", JsString p)]
     | None => []
     end).

(** What a recorded call wrote, for a document that exists afterwards. *)
Lemma recorded_written now change fullPath config row
    (tables : gmap string (list Props)) :
  findMatchingConfig fullPath = Some config ->
  doc_exists (after change) = true ->
  (handle now false change fullPath tables).2 = Recorded row ->
  exists ct document,
    changeType_of change = Some ct
    /\ ct <> Consolidation.DELETED
    /\ formatDocument
         (written_data change (parentId_of (collectionPaths config) (split "/" fullPath)))
         (snapshot_id (after change)) (runtime config) = Some document
    /\ row = spread [("changeType", JsString (changeType_text ct));
                     ("timestamp", JsString (iso_string now))] document.
Proof.
  intros Hc Hafter. unfold handleDocumentWrite. rewrite Hc.
  unfold changeType_of. rewrite Hafter.
  destruct (doc_exists (before change)); cbn beta iota zeta.
  - destruct (formatDocument _ _ _) as [document|] eqn:Hd; [|done].
    destruct (tables !! _); [|done]. cbn [snd]. intros [= <-].
    by exists Consolidation.UPDATED, document.
  - destruct (formatDocument _ _ _) as [document|] eqn:Hd; [|done].
    destruct (tables !! _); [|done]. cbn [snd]. intros [= <-].
    by exists Consolidation.CREATED, document.
Qed.

(** What a recorded deletion wrote. *)
Lemma recorded_deleted now change fullPath config row
    (tables : gmap string (list Props)) :
  findMatchingConfig fullPath = Some config ->
  changeType_of change = Some Consolidation.DELETED ->
  (handle now false change fullPath tables).2 = Recorded row ->
  row = [("changeType", JsString "DELETED");
         ("timestamp", JsString (iso_string now));
         ("documentId",
          JsString (deleted_documentId config
                      (parentId_of (collectionPaths config) (split "/" fullPath))
                      (snapshot_id (before change))))].
Proof.
  intros Hc Hct. unfold handleDocumentWrite. rewrite Hc, Hct.
  assert (doc_exists (after change) = false) as ->.
  { unfold changeType_of in Hct.
    by destruct (doc_exists (before change)), (doc_exists (after change)). }
  cbn beta iota zeta. destruct (tables !! _); [|done]. cbn [snd].
  by intros [= <-].
Qed.

(** The id of the row of a written document. *)
Lemma written_documentId now change fullPath config row
    (tables : gmap string (list Props)) :
  findMatchingConfig fullPath = Some config ->
  NoDup ("documentId" :: (Cfg.key <$> Cfg.fields (runtime config))) ->
  doc_exists (after change) = true ->
  (handle now false change fullPath tables).2 = Recorded row ->
  get_prop "documentId" row
  = JsString (emitted_documentId
                (written_data change
                   (parentId_of (collectionPaths config) (split "/" fullPath)))
                (snapshot_id (after change)) (runtime config)).
Proof.
  intros Hc Hnd Hafter Hrow.
  destruct (recorded_written _ _ _ _ _ _ Hc Hafter Hrow)
    as (ct & document & _ & _ & Hdoc & ->).
  rewrite formatDocument_eq in Hdoc by done.
  destruct (working_document _ _ _) as [working|]; [|done].
  injection Hdoc as <-. apply get_prop_spread.
  - rewrite fmap_cons. cbn [fst]. rewrite <- list_fmap_compose.
    assert (Hfst : forall l : list Cfg.ParsedFieldDefinition,
              (fst ∘ (fun track : Cfg.ParsedFieldDefinition =>
                 (Cfg.key track, formatField track (Cfg.accessor track working)))) <$> l
              = Cfg.key <$> l) by (intros l; by apply list_fmap_ext).
    by rewrite Hfst.
  - apply list_elem_of_here.
Qed.

(** X16.  A document is deleted under the id it was written under: the
    row of a creation or update and the row of the deletion of the same
    document carry the same [documentId], provided the column names are
    distinct and none is [documentId], a string converts to itself, and,
    when the path gives no parent id while parent ids are included, the
    document has no truthy [parentId] member of its own. *)
Theorem written_and_deleted_rows_share_the_id now now' written removed fullPath
    config row row' (tables tables' : gmap string (list Props)) :
  findMatchingConfig fullPath = Some config ->
  NoDup ("documentId" :: (Cfg.key <$> Cfg.fields (runtime config))) ->
  (forall s, ToString (JsString s) = s) ->
  doc_exists (after written) = true ->
  changeType_of removed = Some Consolidation.DELETED ->
  snapshot_id (before removed) = snapshot_id (after written) ->
  (parentId_of (collectionPaths config) (split "/" fullPath) = None ->
   Cfg.includeParentIdInDocumentId (runtime config) = true ->
   ToBoolean (get_prop "parentId" (default [] (snapshot_data (after written)))) = false) ->
  (handle now false written fullPath tables).2 = Recorded row ->
  (handle now' false removed fullPath tables').2 = Recorded row' ->
  get_prop "documentId" row = get_prop "documentId" row'.
Proof.
  intros Hc Hnd Hstr Hafter Hct Hid Hown Hrow Hrow'.
  rewrite (written_documentId _ _ _ _ _ _ Hc Hnd Hafter Hrow).
  rewrite (recorded_deleted _ _ _ _ _ _ Hc Hct Hrow').
  change (get_prop "documentId" _) with
    (JsString (deleted_documentId config
                 (parentId_of (collectionPaths config) (split "/" fullPath))
                 (snapshot_id (before removed)))).
  f_equal. rewrite Hid. unfold emitted_documentId, deleted_documentId.
  destruct (parentId_of _ _) as [p|] eqn:Hp.
  - apply parentId_not_empty in Hp.
    unfold spread. cbn [fold_left fst snd]. rewrite get_set_prop.
    destruct (Cfg.includeParentIdInDocumentId _); [|done].
    cbn [andb ToBoolean]. rewrite Hstr.
    by destruct p.
  - unfold spread. cbn [fold_left].
    destruct (Cfg.includeParentIdInDocumentId _) eqn:Hinc; [|done].
    by rewrite Hown.
Qed.

(** X17.  Without a parent id in the path, a truthy [parentId] member of
    the document itself is put into the id at creation and update but not
    at deletion: the two rows then carry different ids, so the deletion
    does not reach the row of the document. *)
Theorem own_parentId_member_splits_the_id now now' written removed fullPath
    config row row' (tables tables' : gmap string (list Props)) :
  findMatchingConfig fullPath = Some config ->
  NoDup ("documentId" :: (Cfg.key <$> Cfg.fields (runtime config))) ->
  doc_exists (after written) = true ->
  changeType_of removed = Some Consolidation.DELETED ->
  snapshot_id (before removed) = snapshot_id (after written) ->
  parentId_of (collectionPaths config) (split "/" fullPath) = None ->
  Cfg.includeParentIdInDocumentId (runtime config) = true ->
  ToBoolean (get_prop "parentId" (default [] (snapshot_data (after written)))) = true ->
  (handle now false written fullPath tables).2 = Recorded row ->
  (handle now' false removed fullPath tables').2 = Recorded row' ->
  get_prop "documentId" row <> get_prop "documentId" row'.
Proof.
  intros Hc Hnd Hafter Hct Hid Hp Hinc Hown Hrow Hrow'.
  rewrite (written_documentId _ _ _ _ _ _ Hc Hnd Hafter Hrow).
  rewrite (recorded_deleted _ _ _ _ _ _ Hc Hct Hrow').
  change (get_prop "documentId" _) with
    (JsString (deleted_documentId config
                 (parentId_of (collectionPaths config) (split "/" fullPath))
                 (snapshot_id (before removed)))).
  rewrite Hp, Hid. unfold emitted_documentId, deleted_documentId, spread.
  cbn [fold_left]. rewrite Hinc, Hown. cbn [andb].
  intros [= Heq]. by apply append_longer in Heq.
Qed.

(** X18.  With distinct column names the row of a creation or update
    names exactly the columns of the tracker schema, each once (in some
    order: the order of the names of the row plays no part in the
    insert); the row of a deletion names its three required columns
    only. *)
Theorem recorded_row_fits_tracker_schema now change fullPath config row
    (tables : gmap string (list Props)) :
  findMatchingConfig fullPath = Some config ->
  NoDup (Init.name <$> Init.tracker_schema (runtime config)) ->
  (handle now false change fullPath tables).2 = Recorded row ->
  fst <$> row
  ≡ₚ if doc_exists (after change)
     then Init.name <$> Init.tracker_schema (runtime config)
     else ["changeType"; "timestamp"; "documentId"].
Proof.
  intros Hc Hnd Hrow.
  enough (fst <$> row
          = if doc_exists (after change)
            then Init.name <$> Init.tracker_schema (runtime config)
            else ["changeType"; "timestamp"; "documentId"]) as -> by done.
  assert (Hkeys : Init.name <$> Init.trackerFields (runtime config)
                  = Cfg.key <$> Cfg.fields (runtime config)).
  { unfold Init.trackerFields. rewrite <- list_fmap_compose.
    by apply list_fmap_ext. }
  unfold Init.tracker_schema in *. rewrite !fmap_cons, Hkeys in *. cbn [Init.name] in *.
  destruct (doc_exists (after change)) eqn:Hafter.
  - destruct (recorded_written _ _ _ _ _ _ Hc Hafter Hrow)
      as (ct & document & _ & _ & Hdoc & ->).
    assert (Hnd' : NoDup ("documentId" :: (Cfg.key <$> Cfg.fields (runtime config)))).
    { by apply NoDup_cons in Hnd as [_ Hnd%NoDup_cons_1_2]. }
    rewrite formatDocument_eq in Hdoc by done.
    destruct (working_document _ _ _) as [working|]; [|done].
    injection Hdoc as <-.
    assert (Hfst : fst <$> ((fun track : Cfg.ParsedFieldDefinition =>
                      (Cfg.key track, formatField track (Cfg.accessor track working)))
                     <$> Cfg.fields (runtime config))
                   = Cfg.key <$> Cfg.fields (runtime config)).
    { rewrite <- list_fmap_compose. by apply list_fmap_ext. }
    rewrite spread_fresh.
    + rewrite fmap_app, !fmap_cons, Hfst. reflexivity.
    + rewrite !fmap_cons, Hfst. exact Hnd.
  - assert (Hct : changeType_of change = Some Consolidation.DELETED).
    { revert Hrow. unfold handleDocumentWrite. rewrite Hc. unfold changeType_of.
      rewrite Hafter. by destruct (doc_exists (before change)). }
    by rewrite (recorded_deleted _ _ _ _ _ _ Hc Hct Hrow).
Qed.

(** X19.  A write event and the backfill coerce a document alike: the
    row recorded for a document that exists is the two event columns
    followed by the row the backfill inserts for the same document, of the
    collection when the path gives no parent id, and of the collection
    group when the parent id of the path is the id of the document's
    grandparent. *)
Theorem event_row_extends_backfill_row now change fullPath config row
    (doc : Backfill.QueryDocumentSnapshot) (tables : gmap string (list Props)) :
  findMatchingConfig fullPath = Some config ->
  NoDup (Init.name <$> Init.tracker_schema (runtime config)) ->
  doc_exists (after change) = true ->
  snapshot_data (after change) = Some (Backfill.doc_data doc) ->
  snapshot_id (after change) = Backfill.doc_id doc ->
  (handle now false change fullPath tables).2 = Recorded row ->
  take 2 row = [("changeType", JsString (if doc_exists (before change)
                                          then "UPDATED" else "CREATED"));
                ("timestamp", JsString (iso_string now))]
  /\ (parentId_of (collectionPaths config) (split "/" fullPath) = None ->
      BackfillShape.coerce_document (runtime config) doc = Some (drop 2 row))
  /\ (forall p,
        parentId_of (collectionPaths config) (split "/" fullPath) = Some p ->
        Backfill.doc_grandparent doc = Some p ->
        BackfillShape.coerce_group_document (runtime config) doc = Some (drop 2 row)).
Proof.
  intros Hc Hnd Hafter Hdata Hid Hrow.
  destruct (recorded_written _ _ _ _ _ _ Hc Hafter Hrow)
    as (ct & document & Hct & Hne & Hdoc & ->).
  assert (Hkeys : Init.name <$> Init.trackerFields (runtime config)
                  = Cfg.key <$> Cfg.fields (runtime config)).
  { unfold Init.trackerFields. rewrite <- list_fmap_compose.
    by apply list_fmap_ext. }
  unfold Init.tracker_schema in Hnd. rewrite !fmap_cons, Hkeys in Hnd.
  cbn [Init.name] in Hnd.
  assert (Hnd' : NoDup ("documentId" :: (Cfg.key <$> Cfg.fields (runtime config)))).
  { by apply NoDup_cons in Hnd as [_ Hnd%NoDup_cons_1_2]. }
  pose proof (formatDocument_columns _ _ _ _ Hnd' Hdoc) as Hcols.
  unfold Init.main_schema in Hcols. rewrite fmap_cons in Hcols.
  assert (Hm : Init.name <$> Init.mainFields (runtime config)
               = Cfg.key <$> Cfg.fields (runtime config)).
  { unfold Init.mainFields. rewrite <- list_fmap_compose. by apply list_fmap_ext. }
  rewrite Hm in Hcols. cbn [Init.name] in Hcols.
  rewrite spread_fresh by (rewrite !fmap_cons, Hcols; exact Hnd).
  cbn [app take drop]. split.
  - unfold changeType_of in Hct. rewrite Hafter in Hct.
    destruct (doc_exists (before change)); by injection Hct as <-.
  - rewrite Hdata, Hid in Hdoc. cbn [default] in Hdoc. split.
    + intros Hp. rewrite Hp in Hdoc. exact Hdoc.
    + intros p Hp Hg. rewrite Hp in Hdoc.
      unfold BackfillShape.coerce_group_document. rewrite Hg. exact Hdoc.
Qed.

End WithBuiltins.
End HandlerFacts.

(** ** Laws of the backfill *)

Module BackfillLaws.
Import Js Format Backfill BackfillShape BackfillFacts CoercionLaws.

(** The documents a cursor resumes at are documents of the query. *)
Lemma startAt_subseteq r (docs : list QueryDocumentSnapshot) d :
  d ∈ startAt r docs -> d ∈ docs.
Proof.
  induction docs as [|x docs IH]; [done|]. cbn [startAt].
  destruct (String.eqb _ _); [done|]. intros Hd. right. by apply IH.
Qed.

Lemma elem_of_take_1 {A} (x : A) n (l : list A) : x ∈ take n l -> x ∈ l.
Proof.
  intros Hx. apply elem_of_take in Hx as (i & Hi & _).
  by eapply list_elem_of_lookup_2.
Qed.

Lemma omap_provenance {A B} (f : A -> option B) (l : list A) :
  Forall (fun y => exists x, x ∈ l /\ f x = Some y) (omap f l).
Proof.
  apply Forall_forall. intros y Hy. apply list_elem_of_omap in Hy. naive_solver.
Qed.

Lemma omap_all_some {A B} (f : A -> option B) (l : list A) :
  Forall (fun x => is_Some (f x)) l -> omap f l = [] -> l = [].
Proof.
  destruct 1 as [|x l [y Hy] _]; [done|]. cbn [omap list_omap]. by rewrite Hy.
Qed.

(** The number the loop logs for [n] documents left and pages of [b]. *)
Lemma count_step (b n : nat) :
  0 < b -> 0 < n -> b + 1 + (n + (n - 1) / b) = (b + n) + (b + n - 1) / b.
Proof.
  intros Hb Hn. replace (b + n - 1) with (1 * b + (n - 1)) by lia.
  rewrite Nat.div_add_l by lia. lia.
Qed.

Section Shape.
Variable coerce : QueryDocumentSnapshot -> option Props.

(** Whether the insertions throw plays no part in the number of documents
    the loop counts, nor in whether it ends. *)
Lemma loop_total t1 t2 fuel docs batchSize ref total main1 main2 :
  fst <$> loop coerce t1 fuel docs batchSize ref total main1
  = fst <$> loop coerce t2 fuel docs batchSize ref total main2.
Proof.
  revert ref total main1 main2.
  induction fuel as [|fuel IH]; intros ref total main1 main2; [done|].
  cbn [loop]. destruct (omap coerce _) as [|row rows]; [done|].
  destruct (_ !! batchSize); [|done]. apply IH.
Qed.

(** The loop only appends, and what it appends are coerced documents of
    the query. *)
Lemma loop_appends throws fuel docs batchSize :
  forall ref total main total' main',
    loop coerce throws fuel docs batchSize ref total main = Some (total', main') ->
    exists extra,
      main' = main ++ extra
      /\ Forall (fun row => exists doc, doc ∈ docs /\ coerce doc = Some row) extra.
Proof.
  induction fuel as [|fuel IH]; intros ref total main total' main'; [done|].
  cbn [loop].
  set (col := match ref with Some r => startAt r docs | None => docs end).
  assert (Hcol : forall d, d ∈ col -> d ∈ docs).
  { subst col. destruct ref; [apply startAt_subseteq|done]. }
  assert (Hrows : Forall (fun row => exists doc, doc ∈ docs /\ coerce doc = Some row)
                    (omap coerce (take batchSize (take (batchSize + 1) col)))).
  { eapply Forall_impl; [apply omap_provenance|].
    intros row (doc & Hdoc & Hrow). exists doc. split; [|done].
    apply Hcol. eapply elem_of_take_1, elem_of_take_1, Hdoc. }
  destruct (omap coerce _) as [|row rows] eqn:Hr.
  - intros [= <- <-]. exists []. by rewrite app_nil_r.
  - assert (Hstep : exists extra,
              (if throws (row :: rows) then main else main ++ row :: rows) = main ++ extra
              /\ Forall (fun row => exists doc, doc ∈ docs /\ coerce doc = Some row) extra).
    { destruct (throws _); [exists []; by rewrite app_nil_r|by exists (row :: rows)]. }
    destruct Hstep as (extra & -> & Hextra).
    destruct (_ !! batchSize).
    + intros Hloop. apply IH in Hloop as (extra' & -> & Hextra').
      exists (extra ++ extra'). rewrite app_assoc. split; [done|].
      by apply Forall_app.
    + intros [= <- <-]. eauto.
Qed.

(** When every document can be coerced and no insertion throws, the loop
    inserts every document from the cursor on, once and in order, and
    counts each cursor a second time. *)
Lemma loop_complete throws docs batchSize :
  NoDup (doc_path <$> docs) ->
  0 < batchSize ->
  Forall (fun doc => is_Some (coerce doc)) docs ->
  (forall rows, throws rows = false) ->
  forall fuel pre col ref total main,
    docs = pre ++ col ->
    match ref with
    | Some r => exists rest, col = r :: rest
    | None => pre = []
    end ->
    length col < fuel ->
    loop coerce throws fuel docs batchSize ref total main
    = Some (total + (length col + (length col - 1) / batchSize),
            main ++ omap coerce col).
Proof.
  intros Hnd Hb Hall Hthrows fuel.
  induction fuel as [|fuel IH]; intros pre col ref total main Hdocs Href Hlen; [lia|].
  cbn [loop].
  assert (Hcol : match ref with Some r => startAt r docs | None => docs end = col).
  { destruct ref as [r|].
    - destruct Href as [rest ->]. subst docs. by apply startAt_suffix.
    - subst pre. done. }
  rewrite Hcol. clear Hcol Href.
  assert (Hcolall : Forall (fun doc => is_Some (coerce doc)) col).
  { subst docs. by apply Forall_app in Hall as [_ ?]. }
  rewrite take_take, Nat.min_l by lia.
  destruct (omap coerce (take batchSize col)) as [|row rows] eqn:Hrows.
  { apply omap_all_some in Hrows; [|by apply Forall_take].
    destruct col as [|d col]; [|destruct batchSize; [lia|done]].
    rewrite take_nil, app_nil_r. cbn [length]. do 2 f_equal.
    cbn [Nat.sub Nat.add]. by rewrite (Nat.div_small 0 batchSize) by lia. }
  rewrite Hthrows.
  destruct (take (batchSize + 1) col !! batchSize) as [r|] eqn:Hr.
  - rewrite lookup_take_lt in Hr by lia.
    apply list_elem_of_split_length in Hr as (l1 & rest & -> & Hl1).
    rewrite (IH (pre ++ l1) (r :: rest)).
    + rewrite take_app_length' in Hrows by done.
      rewrite length_take, !length_app. cbn [length].
      rewrite omap_app, Hrows, <- app_assoc. f_equal. f_equal.
      rewrite Nat.min_l by lia. rewrite Hl1.
      rewrite <- (count_step (length l1) (S (length rest))) by lia. lia.
    + by rewrite <- app_assoc.
    + eauto.
    + rewrite length_app in Hlen. simpl in *. lia.
  - rewrite lookup_take_lt in Hr by lia. apply lookup_ge_None in Hr.
    rewrite !take_ge in * by lia. rewrite Hrows.
    rewrite Nat.div_small by lia. by rewrite Nat.add_0_r.
Qed.

End Shape.

Section Laws.
Context `{!Builtins}.

(** The two loops of the source are the common loop with their coercion. *)
Lemma backfillCollection_loop_shape throws fuel docs batchSize config :
  forall ref total main,
    backfillCollection_loop throws fuel docs batchSize config ref total main
    = loop (coerce_document config) throws fuel docs batchSize ref total main.
Proof.
  induction fuel as [|fuel IH]; intros ref total main; [done|].
  cbn [backfillCollection_loop loop]. fold (coerce_document config).
  destruct (omap _ _) as [|row rows]; [done|].
  destruct (_ !! batchSize); [|done]. apply IH.
Qed.

Lemma backfillCollectionGroup_loop_shape throws fuel docs batchSize config :
  forall ref total main,
    backfillCollectionGroup_loop throws fuel docs batchSize config ref total main
    = loop (coerce_group_document config) throws fuel docs batchSize ref total main.
Proof.
  induction fuel as [|fuel IH]; intros ref total main; [done|].
  cbn [backfillCollectionGroup_loop loop]. fold (coerce_group_document config).
  destruct (omap _ _) as [|row rows]; [done|].
  destruct (_ !! batchSize); [|done]. apply IH.
Qed.

Local Abbreviation group_of fs config :=
  (fs (default EmptyString (Cfg.collectionGroup config))).

(** X20.  Without a transform (no coercion awaits a request, so the
    coercions of a page settle in the order of the query), a backfill in
    which every document can be coerced and no insertion throws ends, and
    appends to the main table one row per document of the query, in the
    order of the query; the number it logs counts the cursor document of
    every further page twice.  This holds for a collection and for a
    collection group. *)
Theorem complete_backfill throws fuel (fs : string -> list QueryDocumentSnapshot)
    batchSize main config path :
  0 < batchSize ->
  (forall rows, throws rows = false) ->
  Cfg.transformUrl config = None \/ Cfg.transformUrl config = Some EmptyString ->
  (NoDup (doc_path <$> fs path) ->
   Forall (fun doc => is_Some (coerce_document config doc)) (fs path) ->
   length (fs path) < fuel ->
   backfillCollection throws fuel fs batchSize main config path
   = Some (length (fs path) + (length (fs path) - 1) / batchSize,
           main ++ omap (coerce_document config) (fs path)))
  /\ (NoDup (doc_path <$> group_of fs config) ->
      Forall (fun doc => is_Some (coerce_group_document config doc)) (group_of fs config) ->
      length (group_of fs config) < fuel ->
      backfillCollectionGroup throws fuel fs batchSize main config
      = Some (length (group_of fs config) + (length (group_of fs config) - 1) / batchSize,
              main ++ omap (coerce_group_document config) (group_of fs config))).
Proof.
  intros Hb Hthrows _. split; intros Hnd Hall Hfuel.
  - unfold backfillCollection. rewrite backfillCollection_loop_shape.
    by rewrite (loop_complete _ throws (fs path) batchSize Hnd Hb Hall Hthrows
                  fuel [] (fs path) None 0 main).
  - unfold backfillCollectionGroup. rewrite backfillCollectionGroup_loop_shape.
    by rewrite (loop_complete _ throws _ batchSize Hnd Hb Hall Hthrows
                  fuel [] (group_of fs config) None 0 main).
Qed.

(** X21.  A backfill never changes or removes a row of the main table:
    what it returns is the table it started from followed by coerced
    documents of the query it read. *)
Theorem backfill_only_appends throws fuel (fs : string -> list QueryDocumentSnapshot)
    batchSize main config path total main' :
  backfillCollection throws fuel fs batchSize main config path = Some (total, main')
  \/ backfillCollectionGroup throws fuel fs batchSize main config = Some (total, main') ->
  exists extra,
    main' = main ++ extra
    /\ Forall (fun row => exists doc,
                 (doc ∈ fs path /\ coerce_document config doc = Some row)
                 \/ (doc ∈ group_of fs config
                     /\ coerce_group_document config doc = Some row)) extra.
Proof.
  intros [Hrun|Hrun].
  - unfold backfillCollection in Hrun. rewrite backfillCollection_loop_shape in Hrun.
    apply loop_appends in Hrun as (extra & -> & Hextra). exists extra. split; [done|].
    eapply Forall_impl; [exact Hextra|].
    intros row (doc & Hdoc & Hrow). exists doc. by left.
  - unfold backfillCollectionGroup in Hrun.
    rewrite backfillCollectionGroup_loop_shape in Hrun.
    apply loop_appends in Hrun as (extra & -> & Hextra). exists extra. split; [done|].
    eapply Forall_impl; [exact Hextra|].
    intros row (doc & Hdoc & Hrow). exists doc. by right.
Qed.

(** X22.  The number of documents a backfill logs, and whether it ends,
    do not depend on the insertions: a backfill whose every insertion
    throws logs the same number as one that inserted every row. *)
Theorem backfill_count_ignores_insertions throws throws' fuel
    (fs : string -> list QueryDocumentSnapshot) batchSize main main' config path :
  fst <$> backfillCollection throws fuel fs batchSize main config path
  = fst <$> backfillCollection throws' fuel fs batchSize main' config path
  /\ fst <$> backfillCollectionGroup throws fuel fs batchSize main config
     = fst <$> backfillCollectionGroup throws' fuel fs batchSize main' config.
Proof.
  unfold backfillCollection, backfillCollectionGroup.
  rewrite !backfillCollection_loop_shape, !backfillCollectionGroup_loop_shape.
  split; apply loop_total.
Qed.

(** X23.  With distinct column names, none of them [documentId], every row
    a backfill adds to the main table names exactly the columns of the
    main schema, each once (in some order: the order of the names of a
    row plays no part in the insert). *)
Theorem backfilled_rows_fit_main_schema throws fuel
    (fs : string -> list QueryDocumentSnapshot) batchSize main config path total main' :
  NoDup ("documentId" :: (Cfg.key <$> Cfg.fields config)) ->
  backfillCollection throws fuel fs batchSize main config path = Some (total, main')
  \/ backfillCollectionGroup throws fuel fs batchSize main config = Some (total, main') ->
  exists extra,
    main' = main ++ extra
    /\ Forall (fun row => fst <$> row ≡ₚ Init.name <$> Init.main_schema config) extra.
Proof.
  intros Hnd [Hrun|Hrun].
  - unfold backfillCollection in Hrun. rewrite backfillCollection_loop_shape in Hrun.
    apply loop_appends in Hrun as (extra & -> & Hextra). exists extra. split; [done|].
    eapply Forall_impl; [exact Hextra|].
    intros row (doc & _ & Hrow).
    by rewrite (formatDocument_columns _ _ _ _ Hnd Hrow).
  - unfold backfillCollectionGroup in Hrun.
    rewrite backfillCollectionGroup_loop_shape in Hrun.
    apply loop_appends in Hrun as (extra & -> & Hextra). exists extra. split; [done|].
    eapply Forall_impl; [exact Hextra|].
    intros row (doc & _ & Hrow).
    by rewrite (formatDocument_columns _ _ _ _ Hnd Hrow).
Qed.

End Laws.
End BackfillLaws.

(** ** Table setup *)

Module InitFacts.
Import Js Format Handler Init Backfill BackfillShape BackfillLaws.

(** X24.  The schemas and the statements agree on the columns: the main
    table has the columns of the script's [INSERT ... SELECT], in its
    order; the tracker has the same columns after [changeType] and
    [timestamp]; and a field has the same name and mode in both tables and
    the same type, except that a JSON field is a STRING in the tracker. *)
Theorem schemas_agree (config : Cfg.RuntimeCollectionConfig) :
  name <$> main_schema config = insert_select_list config
  /\ name <$> tracker_schema config
     = "changeType" :: "timestamp" :: (name <$> main_schema config)
  /\ Forall2 (fun t m =>
                name t = name m /\ mode t = mode m
                /\ (type t = type m \/ (type m = "JSON" /\ type t = "STRING")))
       (trackerFields config) (mainFields config).
Proof.
  unfold main_schema, tracker_schema, insert_select_list, trackerFields, mainFields.
  assert (Hm : forall l : list Cfg.ParsedFieldDefinition,
            name <$> ((fun f =>
                         {| name := Cfg.key f;
                            type := if String.eqb (Cfg.type f) "ARRAY"
                                    then "STRING" else Cfg.type f;
                            mode := if String.eqb (Cfg.type f) "ARRAY"
                                    then "REPEATED" else "NULLABLE" |}) <$> l)
            = Cfg.key <$> l).
  { intros l. rewrite <- list_fmap_compose. by apply list_fmap_ext. }
  assert (Ht : forall l : list Cfg.ParsedFieldDefinition,
            name <$> ((fun f =>
                         {| name := Cfg.key f;
                            type := if (String.eqb (Cfg.type f) "ARRAY"
                                        || String.eqb (Cfg.type f) "JSON")%bool
                                    then "STRING" else Cfg.type f;
                            mode := if String.eqb (Cfg.type f) "ARRAY"
                                    then "REPEATED" else "NULLABLE" |}) <$> l)
            = Cfg.key <$> l).
  { intros l. rewrite <- list_fmap_compose. by apply list_fmap_ext. }
  rewrite !fmap_cons, Hm, Ht. split; [done|]. split; [done|].
  apply Forall2_fmap, Forall_Forall2_diag, Forall_forall. intros f _.
  cbn [name type mode]. split; [done|]. split; [done|].
  destruct (String.eqb_spec (Cfg.type f) "ARRAY") as [|_]; [by left|].
  destruct (String.eqb_spec (Cfg.type f) "JSON") as [->|_]; [by right|by left].
Qed.





Section Facts.
Context `{!Builtins}.
Variable insert_throws : list Props -> bool.
Variable create_fails : string -> bool.

Local Abbreviation init := (initializeCollection insert_throws create_fails).
Local Abbreviation tracker_of config :=
  (Scheduler.table_name (Cfg.datasetId (runtime config))
     (Cfg.trackerTableId (runtime config))).
Local Abbreviation main_of config :=
  (Scheduler.table_name (Cfg.datasetId (runtime config))
     (Cfg.tableId (runtime config))).

Local Abbreviation created config wh :=
  (createTable (create_fails (main_of config)) (main_of config)
     (main_schema (runtime config))
     (createTable (create_fails (tracker_of config)) (tracker_of config)
        (tracker_schema (runtime config)) wh)).




(** X26.  Configured paths that contain a brace are never backfilled:
    without a collection group, a configuration all of whose paths have
    one gets its tables created and no row, whatever the database holds. *)
Theorem wildcard_paths_are_not_backfilled fuel fs config (wh : Warehouse) :
  Cfg.collectionGroup (runtime config) = None
  \/ Cfg.collectionGroup (runtime config) = Some EmptyString ->
  Forall (fun path => includes_brace path = true) (collectionPaths config) ->
  init fuel fs config wh = Some (created config wh).
Proof.
  intros Hgroup Hpaths. unfold initializeCollection.
  set (wh2 := created config wh).
  destruct (backfill config); [|done].
  assert (Hskip : forall throws main,
            backfill_paths fuel fs 500 throws (runtime config) (collectionPaths config) main
            = Some main).
  { intros throws main. induction Hpaths as [|path paths Hpath _ IH]; [done|].
    cbn [backfill_paths]. by rewrite Hpath. }
  assert (match Cfg.collectionGroup (runtime config) with
          | Some g =>
              if String.eqb g EmptyString
              then backfill_paths fuel fs 500
                     match wh2 !! main_of config with
                     | Some _ => insert_throws
                     | None => fun _ => true
                     end (runtime config) (collectionPaths config)
                     (default [] (rows <$> wh2 !! main_of config))
              else snd <$> backfillCollectionGroup
                             match wh2 !! main_of config with
                             | Some _ => insert_throws
                             | None => fun _ => true
                             end fuel fs 500
                             (default [] (rows <$> wh2 !! main_of config))
                             (runtime config)
          | None =>
              backfill_paths fuel fs 500
                match wh2 !! main_of config with
                | Some _ => insert_throws
                | None => fun _ => true
                end (runtime config) (collectionPaths config)
                (default [] (rows <$> wh2 !! main_of config))
          end = Some (default [] (rows <$> wh2 !! main_of config))) as ->.
  { destruct Hgroup as [->| ->]; [apply Hskip|]. cbn [String.eqb]. apply Hskip. }
  cbn [mbind option_bind]. f_equal.
  destruct (wh2 !! main_of config) as [[columns rs]|] eqn:Hmain; [|done].
  by apply insert_id.
Qed.

End Facts.
End InitFacts.

(** ** Configuration files *)

Module GeneratorFacts.
Import Generator.

Lemma missing_false s : missing s = false -> exists v, s = Some v /\ v <> EmptyString.
Proof.
  destruct s as [v|]; [|done]. simpl. destruct (String.eqb_spec v EmptyString); [done|].
  eauto.
Qed.

Lemma empty_false {A} (l : option (list A)) :
  empty l = false -> exists x xs, l = Some (x :: xs).
Proof. destruct l as [[|x xs]|]; try done. eauto. Qed.

Lemma or_else_not_empty s dflt : dflt <> EmptyString -> or_else s dflt <> EmptyString.
Proof.
  intros Hd. destruct s as [v|]; [|done]. simpl.
  by destruct (String.eqb_spec v EmptyString).
Qed.

Lemma or_else_fixed v : v <> EmptyString -> forall dflt, or_else (Some v) dflt = v.
Proof. intros Hv dflt. simpl. by destruct (String.eqb_spec v EmptyString). Qed.

Lemma omap_length_le {A B} (f : A -> option B) (l : list A) :
  length (omap f l) <= length l.
Proof.
  induction l as [|x l IH]; [done|]. cbn [omap list_omap].
  destruct (f x); simpl; lia.
Qed.

(** What a file that is not skipped gives. *)
Lemma load_file_Some content config :
  load_file content = Some config ->
  exists rawConfig i path paths field fields t,
    content = Some rawConfig
    /\ raw_id rawConfig = Some i /\ i <> EmptyString
    /\ raw_collectionPaths rawConfig = Some (path :: paths)
    /\ raw_tableId rawConfig = Some t /\ t <> EmptyString
    /\ raw_fields rawConfig = Some (field :: fields)
    /\ config
       = {| id := i;
            collectionPaths := path :: paths;
            collectionGroup := raw_collectionGroup rawConfig;
            datasetId := or_else (raw_datasetId rawConfig) "firestore_sync";
            tableId := t;
            datasetLocation := or_else (raw_datasetLocation rawConfig) "eu";
            backfill := match raw_backfill rawConfig with
                        | Some false => false
                        | _ => true
                        end;
            includeParentIdInDocumentId :=
              default false (raw_includeParentIdInDocumentId rawConfig);
            transformUrl := raw_transformUrl rawConfig;
            schedule := or_else (raw_schedule rawConfig) "0 0 * * *";
            timeZone := or_else (raw_timeZone rawConfig) "UTC";
            fields := field :: fields |}.
Proof.
  destruct content as [rawConfig|]; [|done]. unfold load_file.
  destruct (missing (raw_id rawConfig)) eqn:Hid; [done|].
  destruct (empty (raw_collectionPaths rawConfig)) eqn:Hpaths; [done|].
  destruct (missing (raw_tableId rawConfig)) eqn:Htable; [done|].
  destruct (empty (raw_fields rawConfig)) eqn:Hfields; [done|].
  apply missing_false in Hid as (i & Hi & Hine).
  apply missing_false in Htable as (t & Ht & Htne).
  apply empty_false in Hpaths as (path & paths & Hp).
  apply empty_false in Hfields as (field & fields & Hf).
  rewrite Hi, Ht, Hp, Hf. intros [= <-].
  exists rawConfig, i, path, paths, field, fields, t. by rewrite Hi, Ht, Hp, Hf.
Qed.

Lemma elem_of_loadCollectionConfigs directory config :
  config ∈ loadCollectionConfigs directory ->
  exists content, load_file content = Some config.
Proof.
  destruct directory as [entries|]; [|by intros ?%not_elem_of_nil].
  unfold loadCollectionConfigs. intros (entry & _ & Hload)%list_elem_of_omap. eauto.
Qed.

(** X27.  Every loaded configuration is complete: its id, its table id,
    its dataset id, its dataset location, its schedule and its time zone
    are not empty, and it has at least one path and one field. *)
Theorem loaded_configuration_is_complete directory config :
  config ∈ loadCollectionConfigs directory ->
  id config <> EmptyString
  /\ collectionPaths config <> []
  /\ tableId config <> EmptyString
  /\ fields config <> []
  /\ datasetId config <> EmptyString
  /\ datasetLocation config <> EmptyString
  /\ schedule config <> EmptyString
  /\ timeZone config <> EmptyString.
Proof.
  intros (content & Hload)%elem_of_loadCollectionConfigs.
  apply load_file_Some in Hload
    as (rawConfig & i & path & paths & field & fs & t & _ & _ & Hi & _ & _ & Ht & _ & ->).
  cbn [id collectionPaths tableId fields datasetId datasetLocation schedule timeZone].
  repeat split; try done; by apply or_else_not_empty.
Qed.

(** X28.  The defaults are applied once and for all: a loaded
    configuration, written out and read as a configuration file again,
    loads to itself. *)
Theorem loaded_configuration_loads_to_itself directory config :
  config ∈ loadCollectionConfigs directory ->
  load_file (Some (as_raw config)) = Some config.
Proof.
  intros (content & Hload)%elem_of_loadCollectionConfigs.
  apply load_file_Some in Hload
    as (rawConfig & i & path & paths & field & fs & t & _ & _ & Hi & _ & _ & Ht & _ & ->).
  unfold load_file, as_raw.
  cbn [id collectionPaths tableId fields datasetId datasetLocation schedule timeZone
       collectionGroup backfill includeParentIdInDocumentId transformUrl
       raw_id raw_collectionPaths raw_tableId raw_fields raw_datasetId
       raw_datasetLocation raw_schedule raw_timeZone raw_collectionGroup raw_backfill
       raw_includeParentIdInDocumentId raw_transformUrl missing empty default].
  destruct (String.eqb_spec i EmptyString); [done|].
  destruct (String.eqb_spec t EmptyString); [done|].
  rewrite !or_else_fixed by (by apply or_else_not_empty).
  f_equal. f_equal. by destruct (raw_backfill rawConfig) as [[]|].
Qed.

(** X29.  Files are loaded independently of each other and in the order
    of the directory: a file that is skipped, whatever the reason, changes
    nothing in what the others give, and no file gives more than one
    configuration. *)
Theorem files_load_independently entries entries' :
  loadCollectionConfigs (Some (entries ++ entries'))
  = loadCollectionConfigs (Some entries) ++ loadCollectionConfigs (Some entries')
  /\ length (loadCollectionConfigs (Some entries)) <= length entries
  /\ (forall entry, load_file (snd entry) = None ->
        loadCollectionConfigs (Some (entries ++ entry :: entries'))
        = loadCollectionConfigs (Some (entries ++ entries'))).
Proof.
  assert (Happ : forall a b,
            loadCollectionConfigs (Some (a ++ b))
            = loadCollectionConfigs (Some a) ++ loadCollectionConfigs (Some b)).
  { intros a b. unfold loadCollectionConfigs. by rewrite List.filter_app, omap_app. }
  split; [apply Happ|]. split.
  - unfold loadCollectionConfigs. etrans; [apply omap_length_le|].
    apply List.filter_length_le.
  - intros entry Hskip. rewrite !Happ. f_equal.
    change (entry :: entries') with ([entry] ++ entries'). rewrite Happ.
    unfold loadCollectionConfigs at 1. cbn [List.filter].
    destruct (endsWith _ _); [|done]. cbn [omap list_omap]. by rewrite Hskip.
Qed.

(** X30.  In the text of a field, every member sits at its own position:
    name, type, accessor, formater, method.  A member that is absent
    before one that is present is an empty text, and the text ends with
    the last member present. *)
Theorem field_parts_positions (field : FieldDefinition) :
  let parts := field_parts field in
  parts !! 0 = Some (name field)
  /\ 2 <= length parts <= 5
  /\ (forall v, accessor field = Some v -> v <> EmptyString -> parts !! 2 = Some v)
  /\ (forall v, formater field = Some v -> v <> EmptyString -> parts !! 3 = Some v)
  /\ (forall v, method field = Some v -> v <> EmptyString ->
        parts !! 4 = Some v /\ length parts = 5)
  /\ (missing (accessor field) = true -> 2 < length parts ->
      parts !! 2 = Some EmptyString)
  /\ (missing (formater field) = true -> 3 < length parts ->
      parts !! 3 = Some EmptyString)
  /\ (missing (method field) = true -> length parts <= 4).
Proof.
  assert (Hpresent : forall s v, s = Some v -> v <> EmptyString -> missing s = false).
  { intros s v -> Hv. simpl. by destruct (String.eqb_spec v EmptyString). }
  destruct field as [n ty a f m at']. unfold field_parts.
  cbn [name type accessor formater method arrayType].
  destruct (String.eqb ty "ARRAY" && negb _)%bool;
    destruct (missing a) eqn:Ha, (missing f) eqn:Hf, (missing m) eqn:Hm;
    cbn [negb orb andb app length lookup list_lookup];
    split_and!;
    try done; try lia;
    try (intros v Hv Hne; pose proof (Hpresent _ _ Hv Hne); congruence);
    try (intros v -> Hne; done);
    try (intros v -> Hne; split; done);
    try (intros _ Hlen; exfalso; lia).
Qed.

End GeneratorFacts.

(** ** The laws on the scenarios *)

Module TransactionCases.
Import Consolidation Statements Laws Scenarios Cases TransactionLaws.

(** An update of [x] leaves the row of [y] alone. *)
Lemma row_of_y_is_left_alone :
  rows_of "y" (transaction users_fields change 0 10 two_rows) = rows_of "y" two_rows
  /\ ("y" ∈ ids (transaction users_fields change 0 10 two_rows) <-> "y" ∈ ids two_rows).
Proof.
  apply (transaction_leaves_other_documents_alone users_fields change 0 10 two_rows "y").
  apply (bool_decide_unpack _). vm_compute. exact I.
Defined.

(** The deletion stamped 3 is in the window, the creation stamped 20 after
    it: the row of [x] stays. *)
Lemma deletion_before_later_creation_is_skipped :
  ("x" ∉ aggregated recreated_later 0 10)
  /\ rows_of "x" (transaction users_fields recreated_later 0 10 existing)
     = rows_of "x" existing.
Proof.
  apply (recreated_after_window_is_left_alone users_fields recreated_later 0 10
           existing "x" 20).
  - reflexivity.
  - lia.
Defined.

Lemma recreated_keeps_one_row_per_id :
  NoDup (ids (transaction users_fields recreated 0 10 existing)).
Proof.
  apply (transaction_keeps_one_row_per_id users_fields recreated 0 10 existing).
  apply (bool_decide_unpack _). vm_compute. exact I.
Defined.

(** The log read backwards the second time. *)
Lemma rerun_over_the_reversed_log_changes_nothing :
  Forall2 same_row
    (transaction users_fields recreated 0 10 existing)
    (transaction users_fields (reverse recreated) 0 10
       (transaction users_fields recreated 0 10 existing)).
Proof.
  apply (transaction_is_idempotent users_fields recreated (reverse recreated) 0 10
           existing).
  - symmetry. apply reverse_Permutation.
  - apply (bool_decide_unpack _). vm_compute. exact I.
Defined.

End TransactionCases.

Module RunCases.
Import Consolidation Scheduler Statements Scenarios Cases RunLaws.

(** A run whose query is rejected leaves the world as it was. *)
Lemma failing_run_changes_nothing :
  let w := world (Some 0%Z) lifecycle [] in
  let w' := (syncTrackerToMainTable "inst" century users failing_run w).1 in
  settings w' = settings w /\ trackers w' = trackers w
  /\ (rejects failing_run <> Some SetSettings -> w' = w).
Proof.
  intros w w'.
  apply (rejected_run_effects "inst" century users failing_run w w').
  reflexivity.
Defined.

(** The configuration [orders] has no tables and its run rejects; [users]
    is consolidated all the same. *)
Lemma users_are_consolidated_after_a_failure :
  let result := fsUpdatePrimaryTable "inst" century
                  ([(orders, first_run)] ++ (users, first_run) :: [])
                  (world None boundary []) in
  exists tracker main,
    trackers (world None boundary []) !! "firestore_sync.users_tracker" = Some tracker
    /\ mains (world None boundary []) !! "firestore_sync.users" = Some main
    /\ mains result.1 !! "firestore_sync.users"
       = Some (transaction users_fields tracker
                 (window century (settings (world None boundary []) !! "inst-users")
                    first_run).1
                 100 main)
    /\ settings result.1 !! "inst-users" = Some 105%Z
    /\ result.2 !! 1 = Some (line_of users Resolved).
Proof.
  apply (healthy_configuration_is_consolidated "inst" century [(orders, first_run)] []
           users first_run (world None boundary [])).
  - reflexivity.
  - apply (bool_decide_unpack _). vm_compute. exact I.
  - apply (bool_decide_unpack _). vm_compute. exact I.
  - repeat constructor; vm_compute; discriminate.
Defined.

End RunCases.

Module CoercionCases.
Import Js Format Statements Laws Scenarios Cases CoercionLaws.

Lemma user_record_layout :
  exists document,
    formatDocument [("name", JsString "Ann"); ("email", JsString "a@b.com")] "u1" users
    = Some document
    /\ get_prop "documentId" document = JsString "u1"
    /\ get_prop "email" document = JsString "a@b.com"
    /\ get_prop "name" document = JsString "Ann"
    /\ fst <$> document ≡ₚ ["documentId"; "email"; "name"].
Proof.
  eexists. split; [reflexivity|].
  destruct (formatDocument_layout
              [("name", JsString "Ann"); ("email", JsString "a@b.com")] "u1" users)
    as [Hlayout _].
  - apply (bool_decide_unpack _). vm_compute. exact I.
  - destruct (Hlayout _ eq_refl) as (working & Hw & Hid & Hfields & Hnames).
    injection Hw as <-. split; [exact Hid|]. split; [|split; [|exact Hnames]].
    + apply (Hfields (field "email" "STRING")). apply list_elem_of_here.
    + apply (Hfields (field "name" "STRING")).
      apply list_elem_of_further, list_elem_of_here.
Defined.

(** A JSON field never emits a string, a boolean or a number. *)
Lemma payload_is_never_primitive :
  primitive (formatField payload composite) = false.
Proof.
  refine (proj2 (proj2 (proj2 (output_fits_column payload composite))) _).
  apply (bool_decide_unpack _). vm_compute. exact I.
Defined.

(** The text ["abc"] is not a number: a NUMERIC field emits [null]. *)
Lemma text_in_numeric_field_is_null :
  formatField amount (JsString "abc") = JsNull.
Proof.
  refine (proj2 (numeric_null_iff amount (JsString "abc") _) _).
  - apply (bool_decide_unpack _). vm_compute. exact I.
  - reflexivity.
Defined.

Lemma zero_tag_is_dropped :
  formatField tags (num 0) = JsArray [].
Proof.
  apply (array_of_scalar tags (num 0)); reflexivity.
Defined.

(** 3.14, the number ["3.14159"] is cut to, is kept as it is. *)
Lemma cut_number_is_kept :
  safeFloat (Some (to_double (314 # 100))) = JsNum (to_double (314 # 100)).
Proof.
  apply (safeFloat_idempotent (Some (parseFloat "3.14159"))).
  - intros q Hq. vm_compute in Hq. injection Hq as <-. reflexivity.
  - vm_compute. reflexivity.
Defined.

End CoercionCases.

Module HandlerCases.
Import Js Format Statements Laws Scenarios Cases Handler HandlerFacts.


(** The deletion of a user, whose transform the handler does not call. *)
Lemma user_deletion_is_recorded :
  (handleDocumentWrite route 9 false (deletion "b" [("broken", JsBoolean true)])
     "users/b" tracker_tables).2
  = Recorded [("changeType", JsString "DELETED"); ("timestamp", JsString EmptyString);
              ("documentId", JsString "b")].
Proof.
  rewrite (deletion_is_recorded_without_coercion route 9
             (deletion "b" [("broken", JsBoolean true)]) "users/b" users_collection []
             tracker_tables); reflexivity.
Defined.

Lemma post_is_deleted_under_its_id :
  get_prop "documentId" post_created = get_prop "documentId" post_deleted.
Proof.
  apply (written_and_deleted_rows_share_the_id route 5 9 (creation "p1" hello)
           (deletion "p1" hello) "users/u1/posts/p1" posts_collection
           post_created post_deleted tracker_tables tracker_tables).
  - reflexivity.
  - apply (bool_decide_unpack _). vm_compute. exact I.
  - reflexivity.
  - reflexivity.
  - reflexivity.
  - reflexivity.
  - discriminate.
  - reflexivity.
  - reflexivity.
Defined.

(** The note [n1] is created as [n0-n1] and deleted as [n1]. *)
Lemma note_is_deleted_under_another_id :
  get_prop "documentId" note_created = JsString "n0-n1"
  /\ get_prop "documentId" note_deleted = JsString "n1"
  /\ get_prop "documentId" note_created <> get_prop "documentId" note_deleted.
Proof.
  split; [reflexivity|]. split; [reflexivity|].
  apply (own_parentId_member_splits_the_id route 5 9 (creation "n1" reply)
           (deletion "n1" reply) "notes/n1" notes_collection
           note_created note_deleted tracker_tables tracker_tables).
  - reflexivity.
  - apply (bool_decide_unpack _). vm_compute. exact I.
  - reflexivity.
  - reflexivity.
  - reflexivity.
  - reflexivity.
  - reflexivity.
  - reflexivity.
  - reflexivity.
  - reflexivity.
Defined.

Lemma post_row_has_the_tracker_columns :
  fst <$> post_created ≡ₚ Init.name <$> Init.tracker_schema posts.
Proof.
  apply (recorded_row_fits_tracker_schema route 5 (creation "p1" hello)
           "users/u1/posts/p1" posts_collection post_created tracker_tables).
  - reflexivity.
  - apply (bool_decide_unpack _). vm_compute. exact I.
  - reflexivity.
Defined.

(** The creation of the post [p1] and the backfill of the collection
    group for the same document. *)
Lemma post_event_extends_backfill_row :
  take 2 post_created
  = [("changeType", JsString "CREATED"); ("timestamp", JsString EmptyString)]
  /\ BackfillShape.coerce_group_document posts post_document
     = Some (drop 2 post_created).
Proof.
  destruct (event_row_extends_backfill_row route 5 (creation "p1" hello)
              "users/u1/posts/p1" posts_collection post_created post_document
              tracker_tables) as (Hhead & _ & Hgroup).
  - reflexivity.
  - apply (bool_decide_unpack _). vm_compute. exact I.
  - reflexivity.
  - reflexivity.
  - reflexivity.
  - reflexivity.
  - split; [exact Hhead|]. by apply (Hgroup "u1").
Defined.

End HandlerCases.

Module BackfillCases.
Import Js Format Scenarios Cases Backfill BackfillShape BackfillLaws.

(** Five documents in pages of two: three pages, two cursors counted twice. *)
Lemma five_documents_are_backfilled :
  backfillCollection (fun _ => false) 6 archive 2 [] users "users"
  = Some (7, omap (coerce_document users) five_documents).
Proof.
  refine (proj1 (complete_backfill (fun _ => false) 6 archive 2 [] users "users" _ _ _)
            _ _ _).
  - lia.
  - reflexivity.
  - left. reflexivity.
  - apply (bool_decide_unpack _). vm_compute. exact I.
  - repeat constructor; eexists; reflexivity.
  - vm_compute. lia.
Defined.

(** What the backfill of the three documents leaves in the table comes
    after the row that was there. *)
Lemma backfill_keeps_the_first_row :
  let first := [("documentId", JsString "z"); ("email", JsNull)] in
  exists extra,
    [first; [("documentId", JsString "a"); ("email", JsString "a@b.com")]]
    = [first] ++ extra
    /\ Forall (fun row => exists doc,
                 (doc ∈ firestore "users" /\ coerce_document transformed doc = Some row)
                 \/ (doc ∈ firestore (default EmptyString (Cfg.collectionGroup transformed))
                     /\ coerce_group_document transformed doc = Some row)) extra.
Proof.
  intros first.
  apply (backfill_only_appends (fun _ => false) 10 firestore 1 [first] transformed
           "users" 4).
  left. reflexivity.
Defined.

Lemma backfilled_users_fit_the_main_schema :
  exists extra,
    omap (coerce_document users) five_documents = [] ++ extra
    /\ Forall (fun row => fst <$> row ≡ₚ Init.name <$> Init.main_schema users) extra.
Proof.
  apply (backfilled_rows_fit_main_schema (fun _ => false) 6 archive 2 [] users "users" 7).
  - apply (bool_decide_unpack _). vm_compute. exact I.
  - left. reflexivity.
Defined.

End BackfillCases.

Module InitCases.
Import Js Format Scenarios Cases Handler Init InitFacts.


(** The posts are configured by a path with a wildcard and no collection
    group: their tables are created and nothing is backfilled. *)
Lemma posts_are_not_backfilled :
  initializeCollection (fun _ => false) (fun _ => false) 0 archive posts_collection ∅
  = Some (createTable false "firestore_sync.posts" (main_schema posts)
            (createTable false "firestore_sync.posts_tracker" (tracker_schema posts) ∅)).
Proof.
  apply (wildcard_paths_are_not_backfilled (fun _ => false) (fun _ => false) 0 archive
           posts_collection ∅).
  - left. reflexivity.
  - repeat constructor.
Defined.

End InitCases.

Module GeneratorCases.
Import Scenarios Cases Generator GeneratorFacts.

Lemma posts_loaded_is_loaded : posts_loaded ∈ loadCollectionConfigs (Some directory).
Proof. vm_compute. apply list_elem_of_here. Defined.

Lemma posts_configuration_is_complete :
  id posts_loaded <> EmptyString
  /\ collectionPaths posts_loaded <> []
  /\ tableId posts_loaded <> EmptyString
  /\ fields posts_loaded <> []
  /\ datasetId posts_loaded <> EmptyString
  /\ datasetLocation posts_loaded <> EmptyString
  /\ schedule posts_loaded <> EmptyString
  /\ timeZone posts_loaded <> EmptyString.
Proof.
  exact (loaded_configuration_is_complete (Some directory) posts_loaded
           posts_loaded_is_loaded).
Defined.

Lemma posts_configuration_loads_to_itself :
  load_file (Some (as_raw posts_loaded)) = Some posts_loaded.
Proof.
  exact (loaded_configuration_loads_to_itself (Some directory) posts_loaded
           posts_loaded_is_loaded).
Defined.

(** The file that cannot be parsed changes nothing for the others. *)
Lemma broken_file_is_skipped :
  loadCollectionConfigs (Some directory)
  = loadCollectionConfigs
      (Some ([("empty.json", Some no_fields_file)]
               ++ [("README.md", Some posts_file); ("posts.json", Some posts_file)])).
Proof.
  apply (proj2 (proj2 (files_load_independently
                         [("empty.json", Some no_fields_file)]
                         [("README.md", Some posts_file); ("posts.json", Some posts_file)]))
           ("broken.json", None)).
  reflexivity.
Defined.

(** A field with a method only: two empty texts stand for the accessor
    and the formater. *)
Lemma method_sits_at_the_fifth_position :
  field_parts title_field !! 4 = Some "(v) => v.trim()"
  /\ length (field_parts title_field) = 5.
Proof.
  apply (proj1 (proj2 (proj2 (proj2 (proj2 (field_parts_positions title_field)))))
           "(v) => v.trim()").
  - reflexivity.
  - discriminate.
Defined.

End GeneratorCases.
